(** * node-mssql-mcp-server: a shallow embedding of the gateway core

    The development follows the JavaScript sources:
    - [src/config/dbConfig.js]   the configuration loaders, the
                                 configuration table and connection status
    - [src/db/connection.js]     the connection pool cache ([getPool])
    - [src/validation/index.js]  the zod schemas and [validate]
    - [src/modules/tools.js]     [isSafeQuery], [executeSql], [getTableSchema],
                                 [listDatabases]
    - [src/modules/resources.js] [listResources], [readResource]
    - [src/server/index.js]      the HTTP routes, the middleware and the
                                 error handler
    - [src/index.js]             the tool dispatcher of the MCP server

    Modelling conventions.
    - A JavaScript string is a [string]: a sequence of code units, each
      below 256.  The character functions ([toUpperCase], [toLowerCase],
      [trim], the class [\s], the flag [i]) are the ECMAScript ones on
      ASCII text; on code units above 127 they are not ([\s] also takes
      the no-break space, upper-casing changes accented letters and turns
      the sharp s into two letters).  Statements that depend on how a
      text is read are therefore made for ASCII text ([ascii_text]).
    - A plain object used as a dictionary whose enumeration order matters
      ([dbConfigs], a record of the result set) is an association list of
      its own properties in the order [Object.keys] enumerates them:
      array indices first, in ascending order, then the other names in
      the order of their creation ([set_prop]).  [pools] and
      [resourceCache], whose order is never observed, are [gmap]s.
    - A lookup [obj[key]] also finds what every object inherits from
      [Object.prototype] ([inherited]).  The operations below read own
      properties only, which is what the code does for every other key;
      [getPool_js] is [getPool] with the inherited names as well, and
      the statements about lookups by key say which keys they are about.
    - A number is an integer; [String] and [JSON.stringify] write it with
      all its digits, as JavaScript does for a safe integer
      ([safe_integer]).
    - [async] functions are run to completion one after the other: a
      function is a state transformer that either returns or throws.
      Where the sources start several calls at once (the health route),
      a call is split at its [await] into the part before and the part
      after it.
    - The driver ([mssql]) is an oracle that answers from the history of
      driver interactions.
    - [process.env] is the list of its entries; [parseInt] and the
      exceptions of the engine are parameters.  Request parameters and
      tool arguments are strings or absent.
    - [JSON.stringify] and [JSON.parse] are modelled on values whose
      numbers are integers. *)

From Stdlib Require Import Ascii String List ZArith Bool Lia DecimalString.
From Stdlib Require DecimalZ DecimalPos.
From stdpp Require Import base option gmap strings.

Set Warnings "-register-all,-abstract-large-number".

#[local] Arguments String.append !_ _ / : simpl nomatch.
#[local] Open Scope string_scope.
#[local] Open Scope list_scope.

(* ===================================================================== *)
(** * 1. JavaScript string primitives *)
(* ===================================================================== *)

(** A text of ASCII characters: every code unit is below 128.  On such a
    text the functions of this section are the ones of ECMAScript. *)
Definition is_ascii (c : ascii) : bool := (nat_of_ascii c <? 128)%nat.

Fixpoint ascii_text (s : string) : bool :=
  match s with
  | "" => true
  | String c s' => is_ascii c && ascii_text s'
  end.

(** White space and line terminators of ECMAScript inside ASCII: TAB, LF,
    VT, FF, CR and SPACE.  [String.prototype.trim] and the regular
    expression class [\s] use the same set; beyond ASCII it has further
    members (the no-break space among them), which are not white space
    here. *)
Definition is_ws (c : ascii) : bool :=
  match nat_of_ascii c with
  | 9 | 10 | 11 | 12 | 13 | 32 => true
  | _ => false
  end.

Definition is_lower (c : ascii) : bool :=
  let n := nat_of_ascii c in (97 <=? n)%nat && (n <=? 122)%nat.

Definition is_upper (c : ascii) : bool :=
  let n := nat_of_ascii c in (65 <=? n)%nat && (n <=? 90)%nat.

Definition is_digit (c : ascii) : bool :=
  let n := nat_of_ascii c in (48 <=? n)%nat && (n <=? 57)%nat.

(** The class [[a-zA-Z0-9_]] of the validation schemas. *)
Definition is_word (c : ascii) : bool :=
  is_lower c || is_upper c || is_digit c || Ascii.eqb c "_".

(** Upper case of an ASCII character; other code units are left as they
    are. *)
Definition toUpperChar (c : ascii) : ascii :=
  if is_lower c then ascii_of_nat (nat_of_ascii c - 32) else c.

Fixpoint toUpperCase (s : string) : string :=
  match s with
  | "" => ""
  | String c s' => String (toUpperChar c) (toUpperCase s')
  end.

Fixpoint all_ws (s : string) : bool :=
  match s with
  | "" => true
  | String c s' => if is_ws c then all_ws s' else false
  end.

Fixpoint trimStart (s : string) : string :=
  match s with
  | "" => ""
  | String c s' => if is_ws c then trimStart s' else s
  end.

Fixpoint trimEnd (s : string) : string :=
  match s with
  | "" => ""
  | String c s' => if all_ws s then "" else String c (trimEnd s')
  end.

Definition trim (s : string) : string := trimEnd (trimStart s).

Fixpoint startsWith (p s : string) : bool :=
  match p, s with
  | "", _ => true
  | String a p', String b s' => Ascii.eqb a b && startsWith p' s'
  | String _ _, "" => false
  end.

(** [s.includes(p)] *)
Fixpoint includes (p s : string) : bool :=
  if startsWith p s then true
  else match s with
       | "" => false
       | String _ s' => includes p s'
       end.

(** [s.slice(n)] for [0 <= n] *)
Fixpoint slice (n : nat) (s : string) : string :=
  match n, s with
  | O, _ => s
  | S n', String _ s' => slice n' s'
  | S _, "" => ""
  end.

(** [s.split(c)] for a one-character separator; the head of the result
    and its tail are kept apart so that the result is visibly non-empty. *)
Fixpoint split_on (sep : ascii) (s : string) : string * list string :=
  match s with
  | "" => ("", [])
  | String c s' =>
      let '(h, t) := split_on sep s' in
      if Ascii.eqb c sep then ("", h :: t) else (String c h, t)
  end.

(** the double quote character, code 34 *)
Definition dquote : ascii := "034"%char.

(** The number a text of decimal digits stands for; [None] when the text
    has another character. *)
Fixpoint digits_value (s : string) (acc : Z) : option Z :=
  match s with
  | "" => Some acc
  | String c s' =>
      if is_digit c
      then digits_value s' (10 * acc + Z.of_nat (nat_of_ascii c - 48))%Z
      else None
  end.

(** [value.replace(/q/g, qq)] where [q] is the double quote *)
Fixpoint double_quotes (s : string) : string :=
  match s with
  | "" => ""
  | String c s' =>
      if Ascii.eqb c dquote
      then String dquote (String dquote (double_quotes s'))
      else String c (double_quotes s')
  end.

(** [Array.prototype.join] on an array of strings *)
Fixpoint join (sep : string) (l : list string) : string :=
  match l with
  | [] => ""
  | [x] => x
  | x :: l' => x +:+ sep +:+ join sep l'
  end.

(** [String(n)] for an integer [n]: all its digits *)
Definition Z_to_string (z : Z) : string :=
  NilZero.string_of_int (Z.to_int z).

(** A safe integer: at most 2^53 - 1 in absolute value.  Every such
    integer is a number of JavaScript, and [String] and [JSON.stringify]
    write it with all its digits; larger numbers are written rounded, and
    from 10^21 on with an exponent. *)
Definition safe_integer (z : Z) : bool :=
  (Z.abs z <=? 9007199254740991)%Z.

(* ===================================================================== *)
(** * 2. Regular expressions *)
(* ===================================================================== *)

(** The patterns of the sources use literals, the classes [\s] and
    [[a-zA-Z0-9_]], concatenation, alternation, [*] and [+].  A character
    position of a pattern is a predicate on code units; under the flag [i]
    a literal is compared after canonicalisation to upper case.  The
    matcher works with Brzozowski derivatives, so it decides whether a
    match exists and does not depend on a backtracking order. *)
Module Re.

Inductive t : Type :=
| Void : t
| Eps : t
| Cls : (ascii -> bool) -> t
| Seq : t -> t -> t
| Alt : t -> t -> t
| Star : t -> t.

Definition Plus (r : t) : t := Seq r (Star r).

Definition chr (c : ascii) : t := Cls (Ascii.eqb c).

(** a literal character under [/i] *)
Definition chr_i (c : ascii) : t :=
  Cls (fun x => Ascii.eqb (toUpperChar x) (toUpperChar c)).

Fixpoint lit (s : string) : t :=
  match s with
  | "" => Eps
  | String c s' => Seq (chr c) (lit s')
  end.

Fixpoint lit_i (s : string) : t :=
  match s with
  | "" => Eps
  | String c s' => Seq (chr_i c) (lit_i s')
  end.

Definition ws : t := Cls is_ws.
Definition word : t := Cls is_word.

Fixpoint nullable (r : t) : bool :=
  match r with
  | Void => false
  | Eps => true
  | Cls _ => false
  | Seq a b => nullable a && nullable b
  | Alt a b => nullable a || nullable b
  | Star _ => true
  end.

Fixpoint deriv (c : ascii) (r : t) : t :=
  match r with
  | Void => Void
  | Eps => Void
  | Cls f => if f c then Eps else Void
  | Seq a b =>
      if nullable a then Alt (Seq (deriv c a) b) (deriv c b)
      else Seq (deriv c a) b
  | Alt a b => Alt (deriv c a) (deriv c b)
  | Star a => Seq (deriv c a) (Star a)
  end.

(** [^r$]: the whole text matches *)
Fixpoint fullmatch (r : t) (s : string) : bool :=
  match s with
  | "" => nullable r
  | String c s' => fullmatch (deriv c r) s'
  end.

(** some prefix of the text matches *)
Fixpoint prefixmatch (r : t) (s : string) : bool :=
  if nullable r then true
  else match s with
       | "" => false
       | String c s' => prefixmatch (deriv c r) s'
       end.

(** [r.test(s)] for a pattern without anchors: a match starts somewhere *)
Fixpoint test (r : t) (s : string) : bool :=
  if prefixmatch r s then true
  else match s with
       | "" => false
       | String _ s' => test r s'
       end.

(** every character of the text is in the class *)
Fixpoint all_in (f : ascii -> bool) (s : string) : bool :=
  match s with
  | "" => true
  | String c s' => f c && all_in f s'
  end.

(** The language of a pattern: [Matches r w] when [r] matches exactly the
    text [w]. *)
Inductive Matches : t -> string -> Prop :=
| MEps : Matches Eps ""
| MCls f c : f c = true -> Matches (Cls f) (String c "")
| MSeq a b u v : Matches a u -> Matches b v -> Matches (Seq a b) (u +:+ v)
| MAltL a b u : Matches a u -> Matches (Alt a b) u
| MAltR a b u : Matches b u -> Matches (Alt a b) u
| MStar0 a : Matches (Star a) ""
| MStarS a u v :
    Matches a u -> Matches (Star a) v -> Matches (Star a) (u +:+ v).

End Re.

(* ===================================================================== *)
(** * 3. The query safety classifier ([src/modules/tools.js]) *)
(* ===================================================================== *)

(** [process.env] is a [gmap string string]. *)

Definition kw_then_ws (kw : string) : Re.t :=
  Re.Seq (Re.Star Re.ws) (Re.Seq (Re.lit_i kw) (Re.Plus Re.ws)).

Definition kw2_then_ws (kw1 kw2 : string) : Re.t :=
  Re.Seq (Re.Star Re.ws)
    (Re.Seq (Re.lit_i kw1)
       (Re.Seq (Re.Plus Re.ws) (Re.Seq (Re.lit_i kw2) (Re.Plus Re.ws)))).

(** [/\s*EXEC(\s+|\s*\()/i] *)
Definition kw_call (kw : string) : Re.t :=
  Re.Seq (Re.Star Re.ws)
    (Re.Seq (Re.lit_i kw)
       (Re.Alt (Re.Plus Re.ws) (Re.Seq (Re.Star Re.ws) (Re.chr_i "(")))).

Definition kw_anywhere (kw : string) : Re.t :=
  Re.Seq (Re.Star Re.ws) (Re.lit_i kw).

Definition unsafePatterns_base : list Re.t :=
  [ kw_then_ws "DROP";
    kw_then_ws "TRUNCATE";
    kw2_then_ws "ALTER" "ROLE";
    kw2_then_ws "CREATE" "LOGIN";
    kw2_then_ws "ALTER" "LOGIN";
    kw2_then_ws "CREATE" "USER";
    kw2_then_ws "ALTER" "USER";
    kw_call "EXEC";
    kw_call "EXECUTE";
    kw_anywhere "xp_cmdshell";
    kw_anywhere "sp_configure";
    Re.Seq (kw_anywhere "RECONFIGURE") (Re.Star Re.ws);
    kw_then_ws "GRANT";
    kw_then_ws "REVOKE";
    kw_then_ws "DENY" ].

Definition unsafePatterns_readonly : list Re.t :=
  [ kw_then_ws "INSERT"; kw_then_ws "UPDATE"; kw_then_ws "DELETE" ].

(** [process.env.IS_READONLY === 'true'] *)
Definition is_readonly (env : gmap string string) : bool :=
  bool_decide (env !! "IS_READONLY" = Some "true").

Definition unsafePatterns (env : gmap string string) : list Re.t :=
  if is_readonly env
  then unsafePatterns_base ++ unsafePatterns_readonly
  else unsafePatterns_base.

(** The loop over the patterns: it stops at the first one that matches. *)
Fixpoint first_match (patterns : list Re.t) (upperQuery : string) : bool :=
  match patterns with
  | [] => false
  | pattern :: patterns' =>
      if Re.test pattern upperQuery then true
      else first_match patterns' upperQuery
  end.

Definition isSafeQuery (env : gmap string string) (query : string) : bool :=
  let upperQuery := toUpperCase (trim query) in
  if first_match (unsafePatterns env) upperQuery then false else true.

Definition env_rw : gmap string string := ∅.
Definition env_ro : gmap string string := {[ "IS_READONLY" := "true" ]}.

(* ===================================================================== *)
(** * 4. Data model *)
(* ===================================================================== *)

(** A validated connection configuration ([dbConnectionSchema]). *)
Record DbConfig : Type := mkDbConfig {
  server : string;
  port : option Z;
  user : string;
  password : string;
  database : string;
  encrypt : bool;
  trustServerCertificate : bool;
  connectionTimeout : Z;
  requestTimeout : Z;
  pool_max : Z;
  pool_min : Z;
  pool_idleTimeoutMillis : Z
}.

(** An entry of [connectionStatus]. *)
Record ConnStatus : Type := mkConnStatus {
  lastConnected : option string;
  lastError : option string;
  status : string
}.

(** A cell of a result set. *)
Inductive Value : Type :=
| VNull : Value
| VUndefined : Value
| VBool : bool -> Value
| VNum : Z -> Value
| VStr : string -> Value.

(** A record of a result set: its columns in enumeration order. *)
Definition Row : Type := list (string * Value).

(** What [request.query] resolves to; [recordset] is [undefined] for a
    statement that returns no rows. *)
Record QueryOk : Type := mkQueryOk {
  recordset : option (list Row);
  rowsAffected : list Z
}.

(** A pool object: its identity, the configuration it was built from and
    the [poolKey] its patched [close] has captured. *)
Record Pool : Type := mkPool {
  pool_id : nat;
  pool_config : DbConfig;
  pool_key : string
}.

(** Interactions with the driver, oldest first. *)
Inductive Event : Type :=
| EvNew : nat -> DbConfig -> Event
| EvConnect : nat -> Event
| EvQuery : nat -> string -> list (string * string) -> Event
| EvClose : nat -> Event.

(** The driver: [drv_connect] answers [None] when [pool.connect()]
    resolves and [Some msg] when it rejects with [Error(msg)];
    [drv_query] answers [inl msg] when the query rejects. *)
Record Driver : Type := mkDriver {
  drv_connect : list Event -> Pool -> option string;
  drv_query : list Event -> Pool -> string -> list (string * string) ->
              string + QueryOk
}.

(** A resource descriptor of [listResources]. *)
Record Resource : Type := mkResource {
  uri : string;
  name : string;
  description : string;
  mimeType : string
}.

(** The mutable state of the process. *)
Record State : Type := mkState {
  pools : gmap string Pool;
  next_pool_id : nat;
  connectionStatus : list (string * ConnStatus);
  resourceCache : gmap string (list Resource);
  timers : list string;
  trace : list Event;
  console : list string
}.

Definition set_pools (f : gmap string Pool -> gmap string Pool) (st : State)
  : State :=
  mkState (f (pools st)) (next_pool_id st) (connectionStatus st)
    (resourceCache st) (timers st) (trace st) (console st).

Definition set_next_pool_id (n : nat) (st : State) : State :=
  mkState (pools st) n (connectionStatus st)
    (resourceCache st) (timers st) (trace st) (console st).

Definition set_connectionStatus (cs : list (string * ConnStatus)) (st : State)
  : State :=
  mkState (pools st) (next_pool_id st) cs
    (resourceCache st) (timers st) (trace st) (console st).

Definition set_resourceCache
  (f : gmap string (list Resource) -> gmap string (list Resource))
  (st : State) : State :=
  mkState (pools st) (next_pool_id st) (connectionStatus st)
    (f (resourceCache st)) (timers st) (trace st) (console st).

Definition add_timer (k : string) (st : State) : State :=
  mkState (pools st) (next_pool_id st) (connectionStatus st)
    (resourceCache st) (timers st ++ [k]) (trace st) (console st).

Definition emit (e : Event) (st : State) : State :=
  mkState (pools st) (next_pool_id st) (connectionStatus st)
    (resourceCache st) (timers st) (trace st ++ [e]) (console st).

Definition console_error (line : string) (st : State) : State :=
  mkState (pools st) (next_pool_id st) (connectionStatus st)
    (resourceCache st) (timers st) (trace st) (console st ++ [line]).

(** A thrown [Error]: its message and the [statusCode] a route may attach. *)
Record JsError : Type := mkJsError {
  message : string;
  statusCode : option nat
}.

Definition Error (msg : string) : JsError := mkJsError msg None.

(** ** The monad of functions that read and write the state and may throw *)

Inductive Outcome (A : Type) : Type :=
| Return : A -> Outcome A
| Throw : JsError -> Outcome A.
Arguments Return {A} _.
Arguments Throw {A} _.

Definition M (A : Type) : Type := State -> Outcome A * State.

Definition ret {A} (a : A) : M A := fun st => (Return a, st).
Definition throw {A} (e : JsError) : M A := fun st => (Throw e, st).
Definition bind {A B} (m : M A) (k : A -> M B) : M B :=
  fun st =>
    match m st with
    | (Return a, st') => k a st'
    | (Throw e, st') => (Throw e, st')
    end.
Definition try_catch {A} (m : M A) (h : JsError -> M A) : M A :=
  fun st =>
    match m st with
    | (Return a, st') => (Return a, st')
    | (Throw e, st') => h e st'
    end.
Definition modify (f : State -> State) : M unit := fun st => (Return tt, f st).
Definition get {A} (f : State -> A) : M A := fun st => (Return (f st), st).

Notation "'let*' x ':=' c1 'in' c2" := (bind c1 (fun x => c2))
  (at level 10, x name, c1 at level 100, c2 at level 200).
Notation "'do' c1 'then' c2" := (bind c1 (fun _ => c2))
  (at level 10, c1 at level 100, c2 at level 200).

(* ===================================================================== *)
(** * 5. Configuration ([src/config/dbConfig.js]) *)
(* ===================================================================== *)

(** The names every object inherits from [Object.prototype].  A lookup
    [obj[key]] under one of them finds the inherited member, a value that
    tests true, unless the object has an own property of that name. *)
Definition Object_prototype_names : list string :=
  [ "constructor"; "hasOwnProperty"; "isPrototypeOf"; "propertyIsEnumerable";
    "toLocaleString"; "toString"; "valueOf"; "__proto__";
    "__defineGetter__"; "__defineSetter__"; "__lookupGetter__";
    "__lookupSetter__" ].

Definition inherited (key : string) : bool :=
  existsb (String.eqb key) Object_prototype_names.

(** What a lookup [obj[key]] finds when it finds something: an own
    property, or the member inherited under that name. *)
Inductive Found (A : Type) : Type :=
| Own : A -> Found A
| Inherited : string -> Found A.
Arguments Own {A} _.
Arguments Inherited {A} _.

(** [obj[key]] among the own properties of an object; this is the whole
    lookup for a key that is not [inherited]. *)
Fixpoint prop {A} (key : string) (obj : list (string * A)) : option A :=
  match obj with
  | [] => None
  | (k, v) :: obj' => if String.eqb k key then Some v else prop key obj'
  end.

Definition Object_keys {A} (obj : list (string * A)) : list string :=
  map fst obj.
Definition Object_values {A} (obj : list (string * A)) : list A :=
  map snd obj.

(** An array index: the decimal text, without a superfluous zero, of an
    integer from 0 to 2^32 - 2. *)
Definition array_index (key : string) : option Z :=
  match key, digits_value key 0 with
  | String c rest, Some n =>
      if Ascii.eqb c "0" && negb (String.eqb rest "") then None
      else if (n <? 4294967295)%Z then Some n
      else None
  | _, _ => None
  end.

(** [Object.keys] enumerates the array indices first, in ascending order,
    and then the other names in the order of their creation.  A list of
    keys is in enumeration order when no array index stands after a
    larger one or after a name that is not an array index. *)
Fixpoint enumeration_order (keys : list string) : bool :=
  match keys with
  | [] => true
  | k :: keys' =>
      forallb (fun k' =>
                 match array_index k, array_index k' with
                 | Some i, Some j => (i <? j)%Z
                 | None, Some _ => false
                 | _, None => true
                 end) keys'
      && enumeration_order keys'
  end.

Fixpoint distinct (keys : list string) : bool :=
  match keys with
  | [] => true
  | k :: keys' => negb (existsb (String.eqb k) keys') && distinct keys'
  end.

(** The own keys of an object that the code has built by assignments, as
    [Object.keys] gives them: distinct, in enumeration order, and without
    [__proto__], which an assignment does not create. *)
Definition own_keys (keys : list string) : bool :=
  distinct keys && enumeration_order keys
  && negb (existsb (String.eqb "__proto__") keys).

(** [obj[key] = v] on an object that has the property already *)
Fixpoint assign {A} (key : string) (v : A) (obj : list (string * A))
  : list (string * A) :=
  match obj with
  | [] => []
  | (k, w) :: obj' =>
      if String.eqb k key then (k, v) :: obj' else (k, w) :: assign key v obj'
  end.

(** A value used as a property name: [undefined] reads the property
    named undefined. *)
Definition prop_name (dbKey : option string) : string :=
  match dbKey with
  | Some k => k
  | None => "undefined"
  end.

(** [dbKey] where the code tests it for truth: [undefined] and the empty
    string are false. *)
Definition truthy (dbKey : option string) : option string :=
  match dbKey with
  | Some "" => None
  | Some k => Some k
  | None => None
  end.

(** Lower case of an ASCII character; other code units are left as they
    are. *)
Definition toLowerChar (c : ascii) : ascii :=
  if is_upper c then ascii_of_nat (nat_of_ascii c + 32) else c.

Fixpoint toLowerCase (s : string) : string :=
  match s with
  | "" => ""
  | String c s' => String (toLowerChar c) (toLowerCase s')
  end.

(** The status table built when the module is loaded. *)
Definition initial_connectionStatus (dbConfigs : list (string * DbConfig))
  : list (string * ConnStatus) :=
  map (fun kc => (fst kc, mkConnStatus None None "initialized")) dbConfigs.

(** [getDbConfig]: the resolver of the configuration module.  It is
    exported; [getPool] below does not call it.  The lookup is the one
    among own properties: for a key whose lower-case form is [inherited]
    and not configured the code returns the inherited member instead of
    throwing. *)
Definition getDbConfig (dbConfigs : list (string * DbConfig))
  (dbKey : option string) : Outcome (option DbConfig) :=
  match truthy dbKey with
  | Some k =>
      let key := toLowerCase k in
      match prop key dbConfigs with
      | None =>
          Throw (Error ("[config] Invalid dbKey '" +:+ k +:+ "'. Available: "
                        +:+ join ", " (Object_keys dbConfigs)))
      | Some c => Return (Some c)
      end
  | None =>
      match Object_keys dbConfigs with
      | [] => Return (prop "undefined" dbConfigs)
      | firstKey :: _ => Return (prop firstKey dbConfigs)
      end
  end.

Definition getConnectionStatus : M (list (string * ConnStatus)) :=
  get connectionStatus.

(** [updateConnectionStatus(dbKey, status, error)]; [now] stands for
    [new Date().toISOString()].  The test [connectionStatus[dbKey]] is
    the one among own properties: for an [inherited] name without an
    entry the code would go on and create one. *)
Definition updateConnectionStatus (now : string) (dbKey : string)
  (new_status : string) (error : option JsError) : M unit :=
  modify (fun st =>
    match prop dbKey (connectionStatus st) with
    | None => st
    | Some old =>
        let entry :=
          mkConnStatus
            (if String.eqb new_status "connected" then Some now
             else lastConnected old)
            (match error with
             | Some e => Some (message e)
             | None => lastError old
             end)
            new_status in
        set_connectionStatus (assign dbKey entry (connectionStatus st)) st
    end).

(* ===================================================================== *)
(** * 6. The connection pool cache ([src/db/connection.js]) *)
(* ===================================================================== *)

Section Connection.
Context (drv : Driver) (dbConfigs : list (string * DbConfig)).

(** [new sql.ConnectionPool(config)] with [close] patched to capture
    [poolKey] *)
Definition new_pool (config : DbConfig) (poolKey : string) : M Pool :=
  fun st =>
    let p := mkPool (next_pool_id st) config poolKey in
    (Return p,
     emit (EvNew (pool_id p) config) (set_next_pool_id (S (next_pool_id st)) st)).

(** [await pool.connect()] *)
Definition pool_connect (p : Pool) : M unit :=
  fun st =>
    let st1 := emit (EvConnect (pool_id p)) st in
    match drv_connect drv (trace st) p with
    | Some msg => (Throw (Error msg), st1)
    | None => (Return tt, st1)
    end.

(** The two lookups read own properties; see [getPool_js] for the names
    that every object inherits. *)
Definition getPool (dbKey : option string) : M Pool :=
  let config :=
    match prop (prop_name dbKey) dbConfigs with
    | Some c => Some c
    | None => head (Object_values dbConfigs)
    end in
  match config with
  | None => throw (Error "No database configuration found.")
  | Some config =>
      let poolKey := default "default" (truthy dbKey) in
      let* cached := get (fun st => pools st !! poolKey) in
      match cached with
      | Some pool => ret pool
      | None =>
          let* pool := new_pool config poolKey in
          do pool_connect pool then
          do modify (set_pools (insert poolKey pool)) then
          ret pool
      end
  end.

(** [getPool] as the engine runs it, for every key: [obj[key]] also finds
    the members that every object inherits.  When [poolKey] is such a
    name, [dbKey] is [poolKey] (an absent or empty [dbKey] gives the pool
    key default).  Then [dbConfigs[dbKey]] tests true, as an own
    configuration or as the inherited member, and nothing is thrown;
    [pools[poolKey]] tests true as well, so the body of the [if] is
    skipped and [pools[poolKey]] is returned: the pool that [pools] has
    of its own under that name, or else the inherited member.  When
    [poolKey] is no such name, neither is the name looked up in
    [dbConfigs]: both lookups read own properties, and the call is
    [getPool] above. *)
Definition getPool_js (dbKey : option string) : M (Found Pool) :=
  let poolKey := default "default" (truthy dbKey) in
  if inherited poolKey
  then get (fun st => match pools st !! poolKey with
                      | Some pool => Own pool
                      | None => Inherited poolKey
                      end)
  else let* pool := getPool dbKey in ret (Own pool).

(** The driver's own [close], bound before the patch. *)
Definition driver_close (p : Pool) : M unit :=
  modify (emit (EvClose (pool_id p))).

(** [delete pools[poolKey]] *)
Definition evict (p : Pool) : M unit :=
  modify (set_pools (delete (pool_key p))).

(** The patched [pool.close]. *)
Definition pool_close (p : Pool) : M unit :=
  do evict p then driver_close p.

(** [await pool.request().input(..).query(sql)] *)
Definition pool_query (p : Pool) (sql : string)
  (inputs : list (string * string)) : M QueryOk :=
  fun st =>
    let st1 := emit (EvQuery (pool_id p) sql inputs) st in
    match drv_query drv (trace st) p sql inputs with
    | inl msg => (Throw (Error msg), st1)
    | inr r => (Return r, st1)
    end.

End Connection.

(** The invariant of the pool cache: a cached pool was created earlier
    and sits under the key that its patched [close] removes. *)
Definition pools_wf (st : State) : Prop :=
  forall k p, pools st !! k = Some p ->
              (pool_id p < next_pool_id st)%nat /\ pool_key p = k.

(** The two operations on the pool cache, and a run of them. *)
Inductive CacheOp : Type :=
| OpGetPool : option string -> CacheOp
| OpClose : Pool -> CacheOp.

Definition cache_step (drv : Driver) (dbConfigs : list (string * DbConfig))
  (st : State) (op : CacheOp) : State :=
  match op with
  | OpGetPool dbKey => snd (getPool drv dbConfigs dbKey st)
  | OpClose p => snd (pool_close p st)
  end.

(** The state in which a new pool for [config] under [poolKey] has been
    constructed and its [connect] has been called. *)
Definition after_connect (config : DbConfig) (poolKey : string) (st : State)
  : State :=
  emit (EvConnect (next_pool_id st))
    (emit (EvNew (next_pool_id st) config)
       (set_next_pool_id (S (next_pool_id st)) st)).

(* ===================================================================== *)
(** * 7. JSON values and [JSON.stringify(value, null, 2)] *)
(* ===================================================================== *)

Inductive json : Type :=
| JNull : json
| JUndefined : json
| JBool : bool -> json
| JNum : Z -> json
| JStr : string -> json
| JArr : list json -> json
| JObj : list (string * json) -> json.

Definition newline : string := String "010"%char "".
Definition backslash : ascii := "092"%char.

Definition hex_digit (n : nat) : ascii :=
  if (n <? 10)%nat then ascii_of_nat (48 + n) else ascii_of_nat (87 + n).

(** The escape of one code unit inside a JSON string. *)
Definition json_escape (c : ascii) : string :=
  let n := nat_of_ascii c in
  if Ascii.eqb c dquote then String backslash (String dquote "")
  else if Ascii.eqb c backslash then String backslash (String backslash "")
  else match n with
       | 8 => String backslash "b"
       | 9 => String backslash "t"
       | 10 => String backslash "n"
       | 12 => String backslash "f"
       | 13 => String backslash "r"
       | _ =>
           if (n <? 32)%nat
           then String backslash
                  ("u00" +:+ String (hex_digit (n / 16))
                               (String (hex_digit (n mod 16)) ""))
           else String c ""
       end.

Fixpoint json_escape_all (s : string) : string :=
  match s with
  | "" => ""
  | String c s' => json_escape c +:+ json_escape_all s'
  end.

Definition json_quote (s : string) : string :=
  String dquote (json_escape_all s) +:+ String dquote "".

(** [stringify ind v]: the text of [v] when the enclosing line is indented
    by [ind]; the gap is two spaces.  A property whose value is
    [undefined] is left out; [undefined] in an array prints as null. *)
Fixpoint stringify (ind : string) (v : json) : string :=
  let ind' := ind +:+ "  " in
  match v with
  | JNull => "null"
  | JUndefined => "null"
  | JBool true => "true"
  | JBool false => "false"
  | JNum z => Z_to_string z
  | JStr s => json_quote s
  | JArr l =>
      match l with
      | [] => "[]"
      | _ => "[" +:+ newline +:+ ind'
             +:+ join ("," +:+ newline +:+ ind') (map (stringify ind') l)
             +:+ newline +:+ ind +:+ "]"
      end
  | JObj l =>
      let members :=
        (fix go (l : list (string * json)) : list string :=
           match l with
           | [] => []
           | (k, JUndefined) :: l' => go l'
           | (k, w) :: l' =>
               (json_quote k +:+ ": " +:+ stringify ind' w) :: go l'
           end) l in
      match members with
      | [] => "{}"
      | _ => "{" +:+ newline +:+ ind'
             +:+ join ("," +:+ newline +:+ ind') members
             +:+ newline +:+ ind +:+ "}"
      end
  end.

Definition JSON_stringify (v : json) : string := stringify "" v.

Definition json_of_value (v : Value) : json :=
  match v with
  | VNull => JNull
  | VUndefined => JUndefined
  | VBool b => JBool b
  | VNum z => JNum z
  | VStr s => JStr s
  end.

Definition json_of_row (r : Row) : json :=
  JObj (map (fun kv => (fst kv, json_of_value (snd kv))) r).

Definition json_of_option {A} (f : A -> json) (o : option A) (none : json)
  : json :=
  match o with
  | Some a => f a
  | None => none
  end.

(** [String(value)] as a template literal or [join] converts a cell *)
Definition String_of_value (v : Value) : string :=
  match v with
  | VNull => "null"
  | VUndefined => "undefined"
  | VBool true => "true"
  | VBool false => "false"
  | VNum z => Z_to_string z
  | VStr s => s
  end.

(* ===================================================================== *)
(** * 8. Validation ([src/validation/index.js]) *)
(* ===================================================================== *)

(** A zod issue: the path of the offending property and the message. *)
Record Issue : Type := mkIssue {
  path : list string;
  issue_message : string
}.

(** The checks of a [z.string()] schema.  All checks run; each one that
    fails adds an issue. *)
Inductive Check : Type :=
| Min : nat -> string -> Check
| Max : nat -> string -> Check
| Regex : Re.t -> string -> Check.

Definition check_issue (s : string) (c : Check) : option string :=
  match c with
  | Min n msg => if (String.length s <? n)%nat then Some msg else None
  | Max n msg => if (n <? String.length s)%nat then Some msg else None
  | Regex r msg => if Re.fullmatch r s then None else Some msg
  end.

Fixpoint failed_checks (s : string) (checks : list Check) : list string :=
  match checks with
  | [] => []
  | c :: checks' =>
      match check_issue s c with
      | Some msg => msg :: failed_checks s checks'
      | None => failed_checks s checks'
      end
  end.

Definition string_issues (at_path : list string) (checks : list Check)
  (s : string) : list Issue :=
  map (mkIssue at_path) (failed_checks s checks).

(** [/^[a-zA-Z0-9_]+$/] *)
Definition word_plus : Re.t := Re.Plus Re.word.

Definition sqlQuery_checks : list Check :=
  [ Min 1 "SQL query cannot be empty"; Max 10000 "SQL query is too long" ].

Definition tableName_checks : list Check :=
  [ Min 1 "Table name cannot be empty";
    Max 128 "Table name is too long";
    Regex word_plus
      "Table name can only contain alphanumeric characters and underscores" ].

Definition dbKey_checks : list Check :=
  [ Min 1 "Database key cannot be empty";
    Max 50 "Database key is too long";
    Regex word_plus
      "Database key can only contain alphanumeric characters and underscores" ].

(** [/^mssql:\/\/[a-zA-Z0-9_]+\/data$/] *)
Definition resourceUri_re : Re.t :=
  Re.Seq (Re.lit "mssql://") (Re.Seq word_plus (Re.lit "/data")).

Definition resourceUri_checks : list Check :=
  [ Regex resourceUri_re
      "URI must match the pattern mssql://<table_name>/data" ].

(** A property of an object schema; [optional] after [.partial]. *)
Definition field_issues (optional : bool) (fname : string)
  (checks : list Check) (v : option string) : list Issue :=
  match v with
  | Some s => string_issues [fname] checks s
  | None => if optional then [] else [mkIssue [fname] "Required"]
  end.

Definition parsed {A} (issues : list Issue) (a : A) : list Issue + A :=
  match issues with
  | [] => inr a
  | _ => inl issues
  end.

(** [dbKeySchema.parse({ dbKey })] *)
Definition dbKeySchema (dbKey : option string) : list Issue + option string :=
  parsed (field_issues false "dbKey" dbKey_checks dbKey) dbKey.

(** [dbKeyQuerySchema = dbKeySchema.merge(sqlQuerySchema)]; [partial] is
    [.partial({ dbKey: true })].  The input object is [{ query, dbKey }]
    with [dbKey] possibly absent. *)
Definition dbKeyQuerySchema (partial : bool) (dbKey : option string)
  (query : string) : list Issue + (option string * string) :=
  parsed (field_issues partial "dbKey" dbKey_checks dbKey
          ++ field_issues false "query" sqlQuery_checks (Some query))
    (dbKey, query).

(** [dbKeyTableSchema = dbKeySchema.merge(tableNameSchema)] *)
Definition dbKeyTableSchema (partial : bool) (dbKey : option string)
  (table : string) : list Issue + (option string * string) :=
  parsed (field_issues partial "dbKey" dbKey_checks dbKey
          ++ field_issues false "table" tableName_checks (Some table))
    (dbKey, table).

(** [resourceUriSchema.parse(uri)] *)
Definition resourceUriSchema (uri : string) : list Issue + string :=
  parsed (string_issues [] resourceUri_checks uri) uri.

Definition issue_text (i : Issue) : string :=
  join "." (path i) +:+ ": " +:+ issue_message i.

(** [validate(schema, data)], applied to the outcome of [schema.parse] *)
Definition validate {A} (parse_result : list Issue + A) : M A :=
  match parse_result with
  | inr a => ret a
  | inl [] => throw (Error "Validation failed")
  | inl errors =>
      throw (Error ("Validation failed: " +:+ join ", " (map issue_text errors)))
  end.

(* ===================================================================== *)
(** * 9. Tools ([src/modules/tools.js]) *)
(* ===================================================================== *)

(** A tool response [{ content: [{ type: 'text', text }], isError }]. *)
Record ToolResult : Type := mkToolResult {
  text : string;
  isError : bool
}.

(** The response of every [catch] block and of the safety check:
    the text is [JSON.stringify({ error: msg }, null, 2)]. *)
Definition error_result (msg : string) : ToolResult :=
  mkToolResult (JSON_stringify (JObj [("error", JStr msg)])) true.

Definition blocked_message : string :=
  "Query contains potentially unsafe operations and was blocked for security".

Definition undefined_length : string :=
  "Cannot read properties of undefined (reading 'length')".
Definition undefined_map : string :=
  "Cannot read properties of undefined (reading 'map')".

Definition schema_sql : string :=
  newline
  +:+ "        SELECT COLUMN_NAME, DATA_TYPE, CHARACTER_MAXIMUM_LENGTH" +:+ newline
  +:+ "        FROM INFORMATION_SCHEMA.COLUMNS" +:+ newline
  +:+ "        WHERE TABLE_NAME = @tableName" +:+ newline
  +:+ "        ORDER BY ORDINAL_POSITION" +:+ newline
  +:+ "      ".

Definition sanitizedConfig (config : DbConfig) : json :=
  JObj [ ("server", JStr (server config));
         ("port", JNum (match port config with
                        | Some 0%Z | None => 1433%Z
                        | Some p => p
                        end));
         ("database", JStr (database config));
         ("user", JStr (user config));
         ("options",
          JObj [ ("encrypt", JBool (encrypt config));
                 ("trustServerCertificate",
                  JBool (trustServerCertificate config)) ]) ].

Definition json_of_status (s : ConnStatus) : json :=
  JObj [ ("lastConnected", json_of_option JStr (lastConnected s) JNull);
         ("lastError", json_of_option JStr (lastError s) JNull);
         ("status", JStr (status s)) ].

Definition map_values {A B} (f : A -> B) (obj : list (string * A))
  : list (string * B) :=
  map (fun kv => (fst kv, f (snd kv))) obj.

(** The object [listDatabases] serialises. *)
Definition databases_summary (dbConfigs : list (string * DbConfig))
  (statusInfo : list (string * ConnStatus)) : json :=
  JObj [ ("availableDatabases", JArr (map JStr (Object_keys dbConfigs)));
         ("configurations", JObj (map_values sanitizedConfig dbConfigs));
         ("connectionStatus", JObj (map_values json_of_status statusInfo));
         ("count", JNum (Z.of_nat (length (Object_keys dbConfigs))));
         ("defaultDatabase",
          json_of_option JStr (head (Object_keys dbConfigs)) JUndefined) ].

Section Tools.
Context (drv : Driver) (dbConfigs : list (string * DbConfig))
        (env : gmap string string).

Definition executeSql (query : string) (dbKey : option string)
  : M ToolResult :=
  try_catch
    (let* validSchema :=
       validate (match truthy dbKey with
                 | Some k => dbKeyQuerySchema false (Some k) query
                 | None => dbKeyQuerySchema true None query
                 end) in
     let validQuery := snd validSchema in
     if negb (isSafeQuery env validQuery)
     then ret (error_result blocked_message)
     else
       let* pool := getPool drv dbConfigs dbKey in
       let* result := pool_query drv pool validQuery [] in
       let normalizedResult :=
         JObj [ ("message", JStr "Query executed successfully");
                ("rowsAffected",
                 json_of_option JNum (head (rowsAffected result)) JUndefined);
                ("recordset",
                 json_of_option (fun rs => JArr (map json_of_row rs))
                   (recordset result) JUndefined) ] in
       ret (mkToolResult (JSON_stringify normalizedResult) false))
    (fun error =>
       do modify (console_error
                    ("Error executing SQL query: " +:+ message error)) then
       ret (error_result (message error))).

Definition getTableSchema (table : string) (dbKey : option string)
  : M ToolResult :=
  try_catch
    (let* validSchema :=
       validate (match truthy dbKey with
                 | Some k => dbKeyTableSchema false (Some k) table
                 | None => dbKeyTableSchema true None table
                 end) in
     let validTable := snd validSchema in
     let* pool := getPool drv dbConfigs dbKey in
     let* result := pool_query drv pool schema_sql [("tableName", validTable)] in
     match recordset result with
     | None => throw (Error undefined_length)
     | Some [] =>
         throw (Error ("Table '" +:+ validTable
                       +:+ "' not found or has no columns"))
     | Some columns =>
         let normalizedResult :=
           JObj [ ("table", JStr validTable);
                  ("columns", JArr (map json_of_row columns)) ] in
         ret (mkToolResult (JSON_stringify normalizedResult) false)
     end)
    (fun error =>
       do modify (console_error
                    ("Error retrieving schema for table '" +:+ table +:+ "': "
                     +:+ message error)) then
       ret (error_result (message error))).

Definition listDatabases : M ToolResult :=
  try_catch
    (let* statusInfo := getConnectionStatus in
     ret (mkToolResult
            (JSON_stringify (databases_summary dbConfigs statusInfo)) false))
    (fun error =>
       do modify (console_error
                    ("Error listing databases: " +:+ message error)) then
       ret (error_result (message error))).

End Tools.

(* ===================================================================== *)
(** * 10. Resources ([src/modules/resources.js]) *)
(* ===================================================================== *)

Definition tables_sql : string :=
  newline
  +:+ "      SELECT TABLE_NAME" +:+ newline
  +:+ "      FROM INFORMATION_SCHEMA.TABLES" +:+ newline
  +:+ "      WHERE TABLE_TYPE = 'BASE TABLE'" +:+ newline
  +:+ "    ".

(** [row[col]] *)
Definition cell (r : Row) (col : string) : Value :=
  default VUndefined (prop col r).

Definition resource_of_row (r : Row) : Resource :=
  let t := String_of_value (cell r "TABLE_NAME") in
  mkResource ("mssql://" +:+ t +:+ "/data")
             ("Table: " +:+ t)
             ("Data in table: " +:+ t)
             "text/plain".

Definition needs_quoting (s : string) : bool :=
  includes "," s || includes (String dquote "") s || includes newline s.

(** The text one cell contributes to its CSV line: the value the [map]
    callback returns, as [join] then converts it. *)
Definition csv_cell (v : Value) : string :=
  match v with
  | VNull | VUndefined => ""
  | VStr s =>
      if needs_quoting s
      then String dquote (double_quotes s) +:+ String dquote ""
      else s
  | _ => String_of_value v
  end.

Definition csv_header_columns (rs : list Row) : list string :=
  match rs with
  | r0 :: _ => Object_keys r0
  | [] => []
  end.

Definition csv_line (columns : list string) (r : Row) : string :=
  join "," (map (fun col => csv_cell (cell r col)) columns).

Definition csv_of_recordset (rs : list Row) : string :=
  let columns := csv_header_columns rs in
  let csvRows := join "," columns :: map (csv_line columns) rs in
  join newline csvRows.

Definition select_top_100 (table : string) : string :=
  "SELECT TOP 100 * FROM [" +:+ table +:+ "]".

Section Resources.
Context (drv : Driver) (dbConfigs : list (string * DbConfig)).

(** [if (dbKey) { validate(dbKeySchema, { dbKey }); }] *)
Definition validate_dbKey_if_given (dbKey : option string) : M unit :=
  match truthy dbKey with
  | Some k => do validate (dbKeySchema (Some k)) then ret tt
  | None => ret tt
  end.

Definition listResources (dbKey : option string) : M (list Resource) :=
  let cacheKey := default "default" (truthy dbKey) in
  let* cached := get (fun st => resourceCache st !! cacheKey) in
  match cached with
  | Some resources => ret resources
  | None =>
      try_catch
        (do validate_dbKey_if_given dbKey then
         let* pool := getPool drv dbConfigs dbKey in
         let* result := pool_query drv pool tables_sql [] in
         match recordset result with
         | None => throw (Error undefined_map)
         | Some rs =>
             let resources := map resource_of_row rs in
             do modify (set_resourceCache (insert cacheKey resources)) then
             do modify (add_timer cacheKey) then
             ret resources
         end)
        (fun error =>
           do modify (console_error
                        ("Failed to list resources: " +:+ message error)) then
           ret [])
  end.

(** The callback of [setTimeout], five minutes later. *)
Definition timer_fires (cacheKey : string) : M unit :=
  modify (set_resourceCache (delete cacheKey)).

Definition readResource (uri : string) (dbKey : option string) : M string :=
  try_catch
    (let* validUri := validate (resourceUriSchema uri) in
     do validate_dbKey_if_given dbKey then
     if negb (startsWith "mssql://" validUri)
     then throw (Error ("Invalid URI scheme: " +:+ validUri))
     else
       let parts := split_on "/" (slice 8 validUri) in
       let table := fst parts in
       let* pool := getPool drv dbConfigs dbKey in
       let* result := pool_query drv pool (select_top_100 table) [] in
       match recordset result with
       | None => throw (Error undefined_length)
       | Some rs => ret (csv_of_recordset rs)
       end)
    (fun error =>
       do modify (console_error
                    ("Database error reading resource " +:+ uri +:+ ": "
                     +:+ message error)) then
       throw (Error ("Database error: " +:+ message error))).

End Resources.

(* ===================================================================== *)
(** * 11. The HTTP routes for resources ([src/server/index.js]) *)
(* ===================================================================== *)

(** The parts of a request the two routes read. *)
Record Request : Type := mkRequest {
  req_path : string;
  query_uri : option string;
  query_dbKey : option string;
  body_dbKey : option string
}.

(** The key the middleware checks: the one of the query string, or else
    the one of the body. *)
Definition requested_dbKey (req : Request) : option string :=
  match truthy (query_dbKey req) with
  | Some k => Some k
  | None => truthy (body_dbKey req)
  end.

Inductive Body : Type :=
| BJson : json -> Body
| BText : string -> Body.

Record Response : Type := mkResponse {
  res_status : nat;
  res_body : Body
}.

Definition json_of_resource (r : Resource) : json :=
  JObj [ ("uri", JStr (uri r)); ("name", JStr (name r));
         ("description", JStr (description r));
         ("mimeType", JStr (mimeType r)) ].

Section Server.
Context (drv : Driver) (dbConfigs : list (string * DbConfig)).
(** [new Date().toISOString()] when the error handler runs *)
Context (now : string).

Definition errorHandler (req : Request) (err : JsError) : M Response :=
  do modify (console_error ("Error processing request: " +:+ message err)) then
  ret (mkResponse (default 500 (statusCode err))
         (BJson (JObj [ ("error", JStr (message err));
                        ("path", JStr (req_path req));
                        ("timestamp", JStr now) ]))).

(** The middleware [validateDbKey], followed by the route [next]. *)
Definition validateDbKey (req : Request) (next : M Response) : M Response :=
  let dbKey :=
    match truthy (query_dbKey req) with
    | Some k => Some k
    | None => truthy (body_dbKey req)
    end in
  match dbKey with
  | Some k =>
      let* failed :=
        try_catch (do validate (dbKeySchema (Some k)) then ret None)
          (fun error => ret (Some error)) in
      match failed with
      | None => next
      | Some error => errorHandler req (mkJsError (message error) (Some 400))
      end
  | None => next
  end.

(** [GET /resources] *)
Definition GET_resources (req : Request) : M Response :=
  validateDbKey req
    (try_catch
       (let* resources := listResources drv dbConfigs (query_dbKey req) in
        ret (mkResponse 200 (BJson (JArr (map json_of_resource resources)))))
       (errorHandler req)).

(** [GET /resource] *)
Definition GET_resource (req : Request) : M Response :=
  validateDbKey req
    (match truthy (query_uri req) with
     | None =>
         errorHandler req (mkJsError "Parameter 'uri' is required" (Some 400))
     | Some uri =>
         try_catch
           (let* data := readResource drv dbConfigs uri (query_dbKey req) in
            ret (mkResponse 200 (BText data)))
           (errorHandler req)
     end).

End Server.

(* ===================================================================== *)
(** * 12. Reading CSV back: the rules of RFC 4180 *)
(* ===================================================================== *)


Definition LF : ascii := "010"%char.
Definition CR : ascii := "013"%char.
















(* ===================================================================== *)
(** * 13. Words of the specification about the classifier *)
(* ===================================================================== *)








(** What the deny patterns look for in the trimmed, upper-cased text:
    - a word of [kw_ws_list] followed by a white-space character;
    - a pair of [kw2_list]: the two words separated by white space and
      followed by a white-space character;
    - a word of [kw_call_list] followed by a white-space character, or by
      an opening parenthesis after optional white space;
    - a word of [kw_any_list] wherever it stands;
    - in read-only mode, a word of [kw_ro_list] followed by a white-space
      character. *)
Definition kw_ws_list : list string :=
  [ "DROP"; "TRUNCATE"; "GRANT"; "REVOKE"; "DENY" ].
Definition kw2_list : list (string * string) :=
  [ ("ALTER", "ROLE"); ("CREATE", "LOGIN"); ("ALTER", "LOGIN");
    ("CREATE", "USER"); ("ALTER", "USER") ].
Definition kw_call_list : list string := [ "EXEC"; "EXECUTE" ].
Definition kw_any_list : list string :=
  [ "XP_CMDSHELL"; "SP_CONFIGURE"; "RECONFIGURE" ].
Definition kw_ro_list : list string := [ "INSERT"; "UPDATE"; "DELETE" ].

Inductive Denied (readOnlyMode : bool) : string -> Prop :=
| DeniedWord kw pre c post :
    In kw kw_ws_list -> is_ws c = true ->
    Denied readOnlyMode (pre +:+ kw +:+ String c post)
| DeniedPhrase kw1 kw2 pre w c post :
    In (kw1, kw2) kw2_list -> all_ws w = true -> w <> "" -> is_ws c = true ->
    Denied readOnlyMode (pre +:+ kw1 +:+ w +:+ kw2 +:+ String c post)
| DeniedCallWs kw pre c post :
    In kw kw_call_list -> is_ws c = true ->
    Denied readOnlyMode (pre +:+ kw +:+ String c post)
| DeniedCall kw pre w post :
    In kw kw_call_list -> all_ws w = true ->
    Denied readOnlyMode (pre +:+ kw +:+ w +:+ String "(" post)
| DeniedAnywhere kw pre post :
    In kw kw_any_list ->
    Denied readOnlyMode (pre +:+ kw +:+ post)
| DeniedWrite kw pre c post :
    readOnlyMode = true -> In kw kw_ro_list -> is_ws c = true ->
    Denied readOnlyMode (pre +:+ kw +:+ String c post).

(* ===================================================================== *)
(** * 13b. Inputs the schemas accept, and the statements in a trace *)
(* ===================================================================== *)

Definition dbKey_ok (dbKey : option string) : bool :=
  match truthy dbKey with
  | Some k => (String.length k <=? 50)%nat && Re.fullmatch word_plus k
  | None => true
  end.

Definition query_ok (query : string) : bool :=
  (1 <=? String.length query)%nat && (String.length query <=? 10000)%nat.

Definition table_ok (table : string) : bool :=
  (1 <=? String.length table)%nat && (String.length table <=? 128)%nat
  && Re.fullmatch word_plus table.


(** A record of a result set as the code gets it: its columns are the own
    keys of an object, and its numbers are written with all their
    digits. *)
Definition safe_cell (v : Value) : bool :=
  match v with
  | VNum z => safe_integer z
  | _ => true
  end.

Definition record_ok (r : Row) : bool :=
  own_keys (Object_keys r) && forallb (fun kv => safe_cell (snd kv)) r.

(** A configuration whose port is written with all its digits. *)
Definition safe_port (c : DbConfig) : bool :=
  match port c with
  | Some p => safe_integer p
  | None => true
  end.

(** The SQL statements sent to the driver, with their inputs. *)
Fixpoint queries (evs : list Event) : list (string * list (string * string)) :=
  match evs with
  | [] => []
  | EvQuery _ sql inputs :: evs' => (sql, inputs) :: queries evs'
  | _ :: evs' => queries evs'
  end.


(** The same configuration with another password, and a table whose
    passwords are chosen by [f]. *)
Definition with_password (pw : string) (c : DbConfig) : DbConfig :=
  mkDbConfig (server c) (port c) (user c) pw (database c) (encrypt c)
    (trustServerCertificate c) (connectionTimeout c) (requestTimeout c)
    (pool_max c) (pool_min c) (pool_idleTimeoutMillis c).

Definition replace_passwords (f : string -> DbConfig -> string)
  (dbConfigs : list (string * DbConfig)) : list (string * DbConfig) :=
  map (fun kc => (fst kc, with_password (f (fst kc) (snd kc)) (snd kc)))
    dbConfigs.

(** [value[key]] on a JSON object *)
Definition member (key : string) (j : json) : option json :=
  match j with
  | JObj l => prop key l
  | _ => None
  end.


(** An operation that always returns. *)
Definition never_throws {A} (m : M A) : Prop :=
  forall st, exists a st', m st = (Return a, st').

(* ===================================================================== *)
(** * 14. Sample configurations and drivers *)
(* ===================================================================== *)

Definition sample_config (db pw : string) : DbConfig :=
  mkDbConfig "localhost" None "sa" pw db false true 30000 30000 10 0 30000.

Definition sample_dbConfigs : list (string * DbConfig) :=
  [ ("maindb", sample_config "main" "s3cret");
    ("reportingdb", sample_config "reports" "hunter2") ].

Definition single_dbConfigs : list (string * DbConfig) :=
  [ ("maindb", sample_config "foo" "s3cret") ].

Definition initial_state (dbConfigs : list (string * DbConfig)) : State :=
  mkState ∅ 0 (initial_connectionStatus dbConfigs) ∅ [] [] [].

(** Every connection opens; every query returns no rows. *)
Definition drv_up : Driver :=
  mkDriver (fun _ _ => None) (fun _ _ _ _ => inr (mkQueryOk (Some []) [0%Z])).

(** No connection opens. *)
Definition drv_down : Driver :=
  mkDriver (fun _ _ => Some "Failed to connect to localhost:1433")
           (fun _ _ _ _ => inr (mkQueryOk (Some []) [0%Z])).

(** Connections open; every query is rejected. *)
Definition drv_reject : Driver :=
  mkDriver (fun _ _ => None) (fun _ _ _ _ => inl "Invalid object name.").

(** Connections open; a query returns one record with an awkward cell. *)
Definition awkward : string :=
  "a," +:+ String dquote "b" +:+ String dquote "" +:+ newline +:+ "c".


Definition drv_rows : Driver :=
  mkDriver (fun _ _ => None)
    (fun _ _ _ _ =>
       inr (mkQueryOk
              (Some [ [("id", VNum 1); ("note", VStr awkward); ("gone", VNull)] ])
              [1%Z])).

(* ===================================================================== *)
(** * 14b. Further words for statements about the code *)
(* ===================================================================== *)

(** An identifier the schemas accept: between one and [max] characters,
    each a letter, a digit or an underscore. *)
Definition ident_ok (max : nat) (s : string) : bool :=
  (1 <=? String.length s)%nat && (String.length s <=? max)%nat
  && Re.all_in is_word s.

(* ===================================================================== *)
(** * 14c. The health route ([GET /health] of [src/server/index.js]) *)
(* ===================================================================== *)

(** [obj[key] = v] for a key other than [__proto__]: an own property
    keeps its place, a new property comes last.  The list stays the
    enumeration of the object as long as the keys are created in
    [enumeration_order], which is the case for every key that is not an
    array index. *)
Definition set_prop {A} (key : string) (v : A) (obj : list (string * A))
  : list (string * A) :=
  match prop key obj with
  | Some _ => assign key v obj
  | None => obj ++ [(key, v)]
  end.

(** The route starts one [getPool] per key without waiting for the one
    before.  A call runs until its [await pool.connect()]: it has then
    either settled (a cached pool, or no configuration at all), or it has
    built a pool and asked the driver to connect.  The driver's answer is
    the one it gives at the moment it is asked. *)
Inductive Started : Type :=
| Settled : Outcome Pool -> Started
| Connecting : Pool -> option string -> Started.

Section Health.
Context (drv : Driver) (dbConfigs : list (string * DbConfig)).
Context (now : string).

(** [getPool] up to its [await] *)
Definition getPool_start (dbKey : option string) (st : State)
  : Started * State :=
  let config :=
    match prop (prop_name dbKey) dbConfigs with
    | Some c => Some c
    | None => head (Object_values dbConfigs)
    end in
  match config with
  | None => (Settled (Throw (Error "No database configuration found.")), st)
  | Some config =>
      let poolKey := default "default" (truthy dbKey) in
      match pools st !! poolKey with
      | Some pool => (Settled (Return pool), st)
      | None =>
          let p := mkPool (next_pool_id st) config poolKey in
          let st1 :=
            emit (EvNew (pool_id p) config)
              (set_next_pool_id (S (next_pool_id st)) st) in
          (Connecting p (drv_connect drv (trace st1) p),
           emit (EvConnect (pool_id p)) st1)
      end
  end.

(** [getPool] from its [await] on, when the connection attempt is over *)
Definition getPool_resume (s : Started) (st : State) : Outcome Pool * State :=
  match s with
  | Settled o => (o, st)
  | Connecting p (Some msg) => (Throw (Error msg), st)
  | Connecting p None => (Return p, set_pools (insert (pool_key p) p) st)
  end.

Fixpoint start_all (dbKeys : list string) (st : State)
  : list Started * State :=
  match dbKeys with
  | [] => ([], st)
  | key :: dbKeys' =>
      let (s, st1) := getPool_start (Some key) st in
      let (ss, st2) := start_all dbKeys' st1 in
      (s :: ss, st2)
  end.

Fixpoint resume_all (started : list Started) (st : State)
  : list (Outcome Pool) * State :=
  match started with
  | [] => ([], st)
  | s :: started' =>
      let (o, st1) := getPool_resume s st in
      let (os, st2) := resume_all started' st1 in
      (o :: os, st2)
  end.

(** [await Promise.allSettled(dbKeys.map(key => getPool(key)))]: every
    call is started, in key order; then the attempts finish (here in key
    order as well).  The promise never rejects. *)
Definition allSettled_getPool (dbKeys : list string)
  : M (list (Outcome Pool)) :=
  fun st =>
    let (started, st1) := start_all dbKeys st in
    let (healthChecks, st2) := resume_all started st1 in
    (Return healthChecks, st2).

(** [healthChecks.forEach((result, index) => ...)], with
    [dbKeys[index]] paired to each result *)
Fixpoint forEach_check (checks : list (string * Outcome Pool))
  (results : list (string * string)) (isHealthy : bool)
  : M (list (string * string) * bool) :=
  match checks with
  | [] => ret (results, isHealthy)
  | (dbKey, Return _) :: checks' =>
      forEach_check checks' (set_prop dbKey "connected" results) isHealthy
  | (dbKey, Throw reason) :: checks' =>
      do modify (console_error ("Health check failed for " +:+ dbKey +:+ ": "
                                +:+ message reason)) then
      forEach_check checks' (set_prop dbKey "error" results) false
  end.

Definition json_of_results (results : list (string * string)) : json :=
  JObj (map_values JStr results).

(** The handler of [GET /health] *)
Definition health_handler (req : Request) : M Response :=
  let dbKeys := Object_keys dbConfigs in
  if (length dbKeys =? 0)%nat
  then ret (mkResponse 503
              (BJson (JObj [ ("status", JStr "error");
                             ("message", JStr "No databases configured.") ])))
  else
    try_catch
      (let* healthChecks := allSettled_getPool dbKeys in
       let* report := forEach_check (combine dbKeys healthChecks) [] true in
       let results := fst report in
       if snd report
       then ret (mkResponse 200
                   (BJson (JObj [ ("status", JStr "ok");
                                  ("databases", json_of_results results) ])))
       else ret (mkResponse 503
                   (BJson (JObj [ ("status", JStr "error");
                                  ("message",
                                   JStr "One or more database connections failed.");
                                  ("databases", json_of_results results) ]))))
      (errorHandler now req).

(** [GET /health] behind the middleware *)
Definition GET_health (req : Request) : M Response :=
  validateDbKey now req (health_handler req).

End Health.

(** A key under which every lookup reads own properties, and which tests
    true: it is not the name of a member every object inherits, and it is
    not empty. *)
Definition plain_key (key : string) : bool :=
  negb (inherited key) && negb (String.eqb key "").

(** What the health route does with one configured key, from the state
    [st] before the request to the state [st'] after it.  When the cache
    has a pool for the key, the key is up and the pool stays.  Otherwise
    a pool is built from the configuration of the key and the driver is
    asked to connect it; the key is up exactly when the driver connects
    at that moment, and then the cache has that pool afterwards; when
    the driver refuses, the cache has no pool for the key. *)
Definition health_check (drv : Driver) (st st' : State)
  (key : string) (config : DbConfig) (up : bool) : Prop :=
  match pools st !! key with
  | Some pool => up = true /\ pools st' !! key = Some pool
  | None =>
      exists (id : nat) (before after : list Event),
        trace st'
        = trace st ++ before ++ [EvNew id config; EvConnect id] ++ after
        /\ up = match drv_connect drv (trace st ++ before ++ [EvNew id config])
                        (mkPool id config key) with
                | None => true
                | Some _ => false
                end
        /\ pools st' !! key
           = (if up then Some (mkPool id config key) else None)
  end.

(** A call started for a configured key, given the pool cache and the
    trace at the start of the request and the events [evs] that all the
    started calls add: it has settled with the cached pool, or it has
    built a pool for the key and asked the driver to connect it. *)
Definition started_as (drv : Driver) (cache : gmap string Pool)
  (base evs : list Event) (kc : string * DbConfig) (s : Started) : Prop :=
  match cache !! fst kc with
  | Some pool => s = Settled (Return pool)
  | None =>
      exists (id : nat) (before after : list Event),
        evs = before ++ [EvNew id (snd kc); EvConnect id] ++ after
        /\ s = Connecting (mkPool id (snd kc) (fst kc))
                 (drv_connect drv (base ++ before ++ [EvNew id (snd kc)])
                    (mkPool id (snd kc) (fst kc)))
  end.

(** Whether a started call ends with a pool. *)
Definition fulfils (s : Started) : bool :=
  match s with
  | Settled (Return _) => true
  | Settled (Throw _) => false
  | Connecting _ None => true
  | Connecting _ (Some _) => false
  end.

Definition fulfilled {A} (o : Outcome A) : bool :=
  match o with
  | Return _ => true
  | Throw _ => false
  end.

(** What a started call has to do with its key, given the pool cache at
    the start. *)
Definition started_for (cache : gmap string Pool) (key : string) (s : Started)
  : Prop :=
  match s with
  | Settled (Return p) => cache !! default "default" (truthy (Some key)) = Some p
  | Settled (Throw _) => True
  | Connecting p _ => pool_key p = default "default" (truthy (Some key))
  end.

(** The text reported for a settled call. *)
Definition check_text (o : Outcome Pool) : string :=
  if fulfilled o then "connected" else "error".

(** The [databases] member of a health report. *)
Definition health_databases (dbKeys : list string) (up : list bool) : json :=
  JObj (map (fun kb => (fst kb, JStr (if snd kb : bool then "connected" else "error")))
          (combine dbKeys up)).

(** Connections open to every database but [reportingdb]. *)
Definition drv_partial : Driver :=
  mkDriver (fun _ p => if String.eqb (pool_key p) "reportingdb"
                       then Some "Connection error" else None)
           (fun _ _ _ _ => inr (mkQueryOk (Some []) [0%Z])).

(* ===================================================================== *)
(** * 14d. Loading the configuration ([src/config/dbConfig.js]) *)
(* ===================================================================== *)

(** [process.env] is the list of its entries in the order of
    [Object.entries]; every value is a string.  A number is [NaN] or an
    integer; [parseInt(text, 10)] is the builtin and stays a parameter. *)
Inductive JsNum : Type :=
| NaN : JsNum
| Num : Z -> JsNum.

Inductive ConfigMode : Type :=
| Multi : ConfigMode
| Single : ConfigMode.

(** [a || b] on values that are strings or [undefined] *)
Definition or_else (a b : option string) : option string :=
  match truthy a with
  | Some x => Some x
  | None => b
  end.

(** [value === text] *)
Definition is_text (value : option string) (text : string) : bool :=
  match value with
  | Some s => String.eqb s text
  | None => false
  end.

(** The object literal that the loaders hand to [validate].  The two
    timeouts and the pool settings are the same literals in both
    loaders. *)
Record RawConfig : Type := mkRawConfig {
  raw_server : string;
  raw_port : option JsNum;
  raw_user : option string;
  raw_password : option string;
  raw_database : option string;
  raw_encrypt : bool;
  raw_trustServerCertificate : bool
}.

(** [dbConnectionSchema.parse(config)]: the issues in the order of the
    schema's keys.  A number that is [NaN] is not a number for zod. *)
Definition dbConnection_issues (c : RawConfig) : list Issue :=
  string_issues ["server"] [Min 1 "Server name is required"] (raw_server c)
  ++ match raw_port c with
     | Some NaN => [mkIssue ["port"] "Expected number, received nan"]
     | _ => []
     end
  ++ field_issues false "user" [Min 1 "Username is required"] (raw_user c)
  ++ field_issues false "password" [Min 1 "Password is required"] (raw_password c)
  ++ field_issues false "database" [Min 1 "Database name is required"]
       (raw_database c).

Definition dbConnectionSchema (c : RawConfig) : list Issue + DbConfig :=
  match dbConnection_issues c, raw_user c, raw_password c, raw_database c with
  | [], Some u, Some p, Some d =>
      inr (mkDbConfig (raw_server c)
             (match raw_port c with
              | Some (Num z) => Some z
              | _ => None
              end)
             u p d (raw_encrypt c) (raw_trustServerCertificate c)
             30000 30000 10 0 30000)
  | issues, _, _, _ => inl issues
  end.

(** [validate(schema, data)] of the configuration module *)
Definition config_validate {A} (parse_result : list Issue + A) : Outcome A :=
  match parse_result with
  | inr a => Return a
  | inl [] => Throw (Error "[config] Validation failed")
  | inl issues =>
      Throw (Error ("[config] Validation failed: "
                    +:+ join ", " (map issue_text issues)))
  end.

(** [.] in a pattern without flags: any character but a line break *)
Definition is_dot (c : ascii) : bool :=
  negb (Ascii.eqb c LF || Ascii.eqb c CR).

(** [/^MSSQL_(.+)_DATABASE$/] *)
Definition multi_db_re : Re.t :=
  Re.Seq (Re.lit "MSSQL_") (Re.Seq (Re.Plus (Re.Cls is_dot)) (Re.lit "_DATABASE")).

(** [match[1]]: what lies between the fixed head and the fixed tail *)
Definition match1 (envKey : string) : string :=
  substring 6 (String.length envKey - 15) envKey.

Section Config.
Context (parseInt : string -> JsNum).

Definition detectConfigMode (env : list (string * string))
  : Outcome ConfigMode :=
  let hasMultiDb := existsb (Re.fullmatch multi_db_re) (Object_keys env) in
  let hasSingleDb :=
    match or_else (prop "MSSQL_SERVER" env) (prop "MSSQL_DATABASE" env) with
    | Some (String _ _) => true
    | _ => false
    end in
  if hasMultiDb then Return Multi
  else if hasSingleDb then Return Single
  else Throw (Error ("[config] No valid database configuration found. "
                     +:+ "Please set either MSSQL_* variables for "
                     +:+ "single-database mode or MSSQL_<DBNAME>_* variables "
                     +:+ "for multi-database mode.")).

Definition loadSingleDatabaseConfig (env : list (string * string))
  : Outcome (list (string * DbConfig)) :=
  let config :=
    mkRawConfig
      (default "localhost" (truthy (prop "MSSQL_SERVER" env)))
      (match truthy (prop "MSSQL_PORT" env) with
       | Some text => Some (parseInt text)
       | None => None
       end)
      (prop "MSSQL_USER" env)
      (prop "MSSQL_PASSWORD" env)
      (prop "MSSQL_DATABASE" env)
      (is_text (prop "MSSQL_ENCRYPT" env) "true")
      (negb (is_text (prop "MSSQL_TRUST_SERVER_CERTIFICATE" env) "false")) in
  match truthy (raw_user config), truthy (raw_password config),
        truthy (raw_database config) with
  | Some _, Some _, Some _ =>
      match config_validate (dbConnectionSchema config) with
      | Return c => Return [("maindb", c)]
      | Throw e => Throw e
      end
  | _, _, _ =>
      Throw (Error ("[config] Missing required database credentials. "
                    +:+ "Please set MSSQL_USER, MSSQL_PASSWORD, and "
                    +:+ "MSSQL_DATABASE."))
  end.

(** One turn of the loop over [Object.entries(process.env)] *)
Definition load_entry (env : list (string * string))
  (acc : list (string * DbConfig) * list string) (entry : string * string)
  : list (string * DbConfig) * list string :=
  let dbConfigs := fst acc in
  let errors := snd acc in
  let envKey := fst entry in
  let value := snd entry in
  if Re.fullmatch multi_db_re envKey
  then
    let dbKey := toLowerCase (match1 envKey) in
    let prefix := "MSSQL_" +:+ match1 envKey +:+ "_" in
    let server :=
      default "localhost"
        (truthy (or_else (prop (prefix +:+ "SERVER") env)
                   (prop "MSSQL_SERVER" env))) in
    let port :=
      match truthy (prop (prefix +:+ "PORT") env) with
      | Some text => Some (parseInt text)
      | None => None
      end in
    let user := or_else (prop (prefix +:+ "USER") env) (prop "MSSQL_USER" env) in
    let password :=
      or_else (prop (prefix +:+ "PASSWORD") env) (prop "MSSQL_PASSWORD" env) in
    let database := Some value in
    let encrypt :=
      is_text (or_else (prop (prefix +:+ "ENCRYPT") env)
                 (prop "MSSQL_ENCRYPT" env)) "true" in
    let trustServerCertificate :=
      negb (is_text (or_else (prop (prefix +:+ "TRUST_SERVER_CERTIFICATE") env)
                       (prop "MSSQL_TRUST_SERVER_CERTIFICATE" env)) "false") in
    match truthy user, truthy password, truthy database with
    | Some _, Some _, Some _ =>
        let config :=
          mkRawConfig server
            (match port with
             | Some (Num z) => if (z =? 0)%Z then None else Some (Num z)
             | _ => None
             end)
            user password database encrypt trustServerCertificate in
        match config_validate (dbConnectionSchema config) with
        | Return c => (set_prop dbKey c dbConfigs, errors)
        | Throw error => (dbConfigs, errors ++ ["[config] " +:+ message error])
        end
    | _, _, _ =>
        (dbConfigs,
         errors ++ ["[config] Incomplete configuration for database " +:+ dbKey
                    +:+ ". Missing user, password, or database name."])
    end
  else acc.

(** The result and the lines written with [console.warn] *)
Definition loadMultiDatabaseConfigs (env : list (string * string))
  : Outcome (list (string * DbConfig)) * list string :=
  let loaded := fold_left (load_entry env) env ([], []) in
  let dbConfigs := fst loaded in
  let errors := snd loaded in
  if (length (Object_keys dbConfigs) =? 0)%nat
  then (Throw (Error ("[config] No valid database configurations found. "
                      +:+ join " " errors)), [])
  else (Return dbConfigs,
        if (0 <? length errors)%nat
        then ["Configuration warnings: " +:+ join "; " errors]
        else []).

Definition loadDatabaseConfigs (env : list (string * string))
  : Outcome (list (string * DbConfig)) * list string :=
  match detectConfigMode env with
  | Throw e => (Throw e, [])
  | Return Multi => loadMultiDatabaseConfigs env
  | Return Single => (loadSingleDatabaseConfig env, [])
  end.

End Config.

(** A configuration as the loaders leave it. *)
Definition complete_config (c : DbConfig) : Prop :=
  server c <> "" /\ user c <> "" /\ password c <> "" /\ database c <> ""
  /\ connectionTimeout c = 30000%Z /\ requestTimeout c = 30000%Z
  /\ pool_max c = 10%Z /\ pool_min c = 0%Z
  /\ pool_idleTimeoutMillis c = 30000%Z.

(** A variable name of ASCII characters that does not name a database
    __proto__. *)
Definition plain_variable (envKey : string) : bool :=
  ascii_text envKey
  && negb (String.eqb (toLowerCase (match1 envKey)) "__proto__").

(** Whether the loop of the multi-database loader stores a configuration
    for this entry. *)
Definition entry_complete (env : list (string * string))
  (entry : string * string) : bool :=
  let prefix := "MSSQL_" +:+ match1 (fst entry) +:+ "_" in
  Re.fullmatch multi_db_re (fst entry)
  && match truthy (or_else (prop (prefix +:+ "USER") env) (prop "MSSQL_USER" env)),
           truthy (or_else (prop (prefix +:+ "PASSWORD") env)
                     (prop "MSSQL_PASSWORD" env)),
           truthy (Some (snd entry)) with
     | Some _, Some _, Some _ => true
     | _, _, _ => false
     end.

(** Where a configuration of the multi-database loader comes from. *)
Definition loaded_from (env : list (string * string)) (kc : string * DbConfig)
  : Prop :=
  exists entry,
    In entry env /\ entry_complete env entry = true
    /\ fst kc = toLowerCase (match1 (fst entry))
    /\ database (snd kc) = snd entry
    /\ complete_config (snd kc) /\ port (snd kc) <> Some 0%Z.

(** [parseInt(text, 10)] on ASCII text: leading white space is skipped, a
    sign is read, then the decimal digits up to the first other
    character; without a digit the result is [NaN].  (The value is exact
    as long as a double holds it.)  The loaders take [parseInt] as a
    parameter; this one serves the examples. *)
Fixpoint leading_digits (s : string) : string :=
  match s with
  | "" => ""
  | String c s' => if is_digit c then String c (leading_digits s') else ""
  end.

Definition parseInt_decimal (text : string) : JsNum :=
  let t := trimStart text in
  let signed :=
    match t with
    | String "-" rest => (true, rest)
    | String "+" rest => (false, rest)
    | _ => (false, t)
    end in
  match leading_digits (snd signed) with
  | "" => NaN
  | digits =>
      match digits_value digits 0 with
      | Some z => Num (if fst signed then - z else z)
      | None => NaN
      end
  end.

Definition sample_env : list (string * string) :=
  [ ("PATH", "/usr/bin");
    ("MSSQL_USER", "sa");
    ("MSSQL_PASSWORD", "s3cret");
    ("MSSQL_MAINDB_DATABASE", "main");
    ("MSSQL_MAINDB_PORT", "1444");
    ("MSSQL_REPORTINGDB_DATABASE", "reports");
    ("MSSQL_REPORTINGDB_PASSWORD", "hunter2");
    ("MSSQL_OLD_DATABASE", "") ].

(* ===================================================================== *)
(** * 14e. The tool list and the tool dispatcher ([src/index.js]) *)
(* ===================================================================== *)

(** A tool of [listTools]: its name, its description, the string
    properties of its input schema with their descriptions, and the names
    the schema requires. *)
Record Tool : Type := mkTool {
  tool_name : string;
  tool_description : string;
  tool_properties : list (string * string);
  tool_required : list string
}.

Definition dbKey_description : string :=
  "The database key to use (e.g., 'maindb', 'reportingdb', etc.). "
  +:+ "Optional in single-db mode.".

Definition listTools : list Tool :=
  [ mkTool "execute_sql"
      "Execute an SQL query on the SQL Server (multi-database support)"
      [ ("query", "The SQL query to execute"); ("dbKey", dbKey_description) ]
      ["query"];
    mkTool "get_table_schema"
      "Retrieve the schema of a specified table (multi-database support)"
      [ ("table", "The name of the table"); ("dbKey", dbKey_description) ]
      ["table"];
    mkTool "list_databases"
      "List all configured databases in the application"
      [] [] ].

(** [request.params.arguments || {}]: the arguments the three tools
    read.  Each is a string or is absent. *)
Record ToolArgs : Type := mkToolArgs {
  arg_query : option string;
  arg_table : option string;
  arg_dbKey : option string
}.

(** [toolArgs[name]] *)
Definition arg (name : string) (toolArgs : ToolArgs) : option string :=
  if String.eqb name "query" then arg_query toolArgs
  else if String.eqb name "table" then arg_table toolArgs
  else if String.eqb name "dbKey" then arg_dbKey toolArgs
  else None.

(** What [validate] is given inside [executeSql] and [getTableSchema]
    when the first argument may be [undefined]: the merged schema then
    reports it as required, after the issues of the key. *)
Definition query_parse (query dbKey : option string)
  : list Issue + (option string * string) :=
  match query with
  | Some q =>
      match truthy dbKey with
      | Some k => dbKeyQuerySchema false (Some k) q
      | None => dbKeyQuerySchema true None q
      end
  | None =>
      inl (match truthy dbKey with
           | Some k => field_issues false "dbKey" dbKey_checks (Some k)
           | None => field_issues true "dbKey" dbKey_checks None
           end
           ++ field_issues false "query" sqlQuery_checks None)
  end.

Definition table_parse (table dbKey : option string)
  : list Issue + (option string * string) :=
  match table with
  | Some t =>
      match truthy dbKey with
      | Some k => dbKeyTableSchema false (Some k) t
      | None => dbKeyTableSchema true None t
      end
  | None =>
      inl (match truthy dbKey with
           | Some k => field_issues false "dbKey" dbKey_checks (Some k)
           | None => field_issues true "dbKey" dbKey_checks None
           end
           ++ field_issues false "table" tableName_checks None)
  end.

Section Dispatcher.
Context (drv : Driver) (dbConfigs : list (string * DbConfig))
        (env : gmap string string).

(** The body of [executeSql] from the outcome of the schema on *)
Definition executeSql_from
  (parse_result : list Issue + (option string * string))
  (dbKey : option string) : M ToolResult :=
  try_catch
    (let* validSchema := validate parse_result in
     let validQuery := snd validSchema in
     if negb (isSafeQuery env validQuery)
     then ret (error_result blocked_message)
     else
       let* pool := getPool drv dbConfigs dbKey in
       let* result := pool_query drv pool validQuery [] in
       let normalizedResult :=
         JObj [ ("message", JStr "Query executed successfully");
                ("rowsAffected",
                 json_of_option JNum (head (rowsAffected result)) JUndefined);
                ("recordset",
                 json_of_option (fun rs => JArr (map json_of_row rs))
                   (recordset result) JUndefined) ] in
       ret (mkToolResult (JSON_stringify normalizedResult) false))
    (fun error =>
       do modify (console_error
                    ("Error executing SQL query: " +:+ message error)) then
       ret (error_result (message error))).

(** The body of [getTableSchema] likewise; [shown] is the table argument
    as the log line prints it. *)
Definition getTableSchema_from
  (parse_result : list Issue + (option string * string))
  (shown : string) (dbKey : option string) : M ToolResult :=
  try_catch
    (let* validSchema := validate parse_result in
     let validTable := snd validSchema in
     let* pool := getPool drv dbConfigs dbKey in
     let* result := pool_query drv pool schema_sql [("tableName", validTable)] in
     match recordset result with
     | None => throw (Error undefined_length)
     | Some [] =>
         throw (Error ("Table '" +:+ validTable
                       +:+ "' not found or has no columns"))
     | Some columns =>
         let normalizedResult :=
           JObj [ ("table", JStr validTable);
                  ("columns", JArr (map json_of_row columns)) ] in
         ret (mkToolResult (JSON_stringify normalizedResult) false)
     end)
    (fun error =>
       do modify (console_error
                    ("Error retrieving schema for table '" +:+ shown +:+ "': "
                     +:+ message error)) then
       ret (error_result (message error))).

(** The handler of [CallToolRequestSchema] *)
Definition CallTool (name : string) (toolArgs : ToolArgs) : M ToolResult :=
  if String.eqb name "execute_sql"
  then executeSql_from (query_parse (arg_query toolArgs) (arg_dbKey toolArgs))
         (arg_dbKey toolArgs)
  else if String.eqb name "get_table_schema"
  then getTableSchema_from
         (table_parse (arg_table toolArgs) (arg_dbKey toolArgs))
         (prop_name (arg_table toolArgs)) (arg_dbKey toolArgs)
  else if String.eqb name "list_databases"
  then listDatabases dbConfigs
  else throw (Error ("Unknown tool: " +:+ name)).

End Dispatcher.

(* ===================================================================== *)
(** * 14f. [JSON.parse] *)
(* ===================================================================== *)

(** The routes of the HTTP server read the text of a tool result back
    with [JSON.parse].  The reader follows the JSON grammar on the texts
    of this development: code units below 256 and numbers that are
    integers.  It answers [None] where [JSON.parse] throws a
    [SyntaxError], and also on a fraction, an exponent or an escape of a
    code unit above 255, which no text written by [JSON_stringify]
    contains. *)
Definition is_json_ws (c : ascii) : bool :=
  match nat_of_ascii c with
  | 9 | 10 | 13 | 32 => true
  | _ => false
  end.

Fixpoint skip_ws (s : string) : string :=
  match s with
  | "" => ""
  | String c s' => if is_json_ws c then skip_ws s' else s
  end.

Definition hex_value (c : ascii) : option nat :=
  let n := nat_of_ascii c in
  if is_digit c then Some (n - 48)
  else if (97 <=? n)%nat && (n <=? 102)%nat then Some (n - 87)
  else if (65 <=? n)%nat && (n <=? 70)%nat then Some (n - 55)
  else None.

(** The character after a backslash, for the two-character escapes *)
Definition simple_escape (e : ascii) : option ascii :=
  if Ascii.eqb e dquote then Some dquote
  else if Ascii.eqb e backslash then Some backslash
  else if Ascii.eqb e "/" then Some "/"%char
  else if Ascii.eqb e "b" then Some "008"%char
  else if Ascii.eqb e "f" then Some "012"%char
  else if Ascii.eqb e "n" then Some "010"%char
  else if Ascii.eqb e "r" then Some "013"%char
  else if Ascii.eqb e "t" then Some "009"%char
  else None.

Definition cons_char (c : ascii) (r : option (string * string))
  : option (string * string) :=
  match r with
  | Some (str, rest) => Some (String c str, rest)
  | None => None
  end.

(** The characters of a string after its opening quote, up to the
    closing quote, and the text after it *)
Fixpoint parse_chars (s : string) : option (string * string) :=
  match s with
  | "" => None
  | String c s' =>
      if Ascii.eqb c dquote then Some ("", s')
      else if Ascii.eqb c backslash
      then match s' with
           | "" => None
           | String e s'' =>
               match simple_escape e with
               | Some x => cons_char x (parse_chars s'')
               | None =>
                   if Ascii.eqb e "u"
                   then match s'' with
                        | String h1 (String h2 (String h3 (String h4 s3))) =>
                            match hex_value h1, hex_value h2,
                                  hex_value h3, hex_value h4 with
                            | Some a, Some b, Some c0, Some d =>
                                let n := (4096 * a + 256 * b + 16 * c0 + d)%nat in
                                if (n <? 256)%nat
                                then cons_char (ascii_of_nat n) (parse_chars s3)
                                else None
                            | _, _, _, _ => None
                            end
                        | _ => None
                        end
                   else None
               end
           end
      else if (nat_of_ascii c <? 32)%nat then None
      else cons_char c (parse_chars s')
  end.

(** The longest prefix of digits, and the rest *)
Fixpoint span_digits (s : string) : string * string :=
  match s with
  | "" => ("", "")
  | String c s' =>
      if is_digit c
      then (String c (fst (span_digits s')), snd (span_digits s'))
      else ("", s)
  end.

Definition head_is (c : ascii) (s : string) : bool :=
  match s with
  | String x _ => Ascii.eqb x c
  | "" => false
  end.

(** A number: an optional minus sign and digits without a leading
    zero *)
Definition parse_number (s : string) : option (Z * string) :=
  let sign := if head_is "-" s then "-" else "" in
  let ds := fst (span_digits (if head_is "-" s then slice 1 s else s)) in
  let rest := snd (span_digits (if head_is "-" s then slice 1 s else s)) in
  if (String.length ds =? 0)%nat then None
  else if head_is "0" ds && (1 <? String.length ds)%nat then None
  else if head_is "." rest || head_is "e" rest || head_is "E" rest then None
  else match NilZero.int_of_string (sign +:+ ds) with
       | Some d => Some (Z.of_int d, rest)
       | None => None
       end.

(** A value at the head of the text; the members of an object where a
    member name is due; the elements of an array where an element is
    due.  A member name that occurs again replaces the value. *)
Fixpoint parse_value (fuel : nat) (s : string) : option (json * string) :=
  match fuel with
  | O => None
  | S fuel' =>
      if head_is "{" s
      then if head_is "}" (skip_ws (slice 1 s))
           then Some (JObj [], slice 1 (skip_ws (slice 1 s)))
           else match parse_members fuel' [] (skip_ws (slice 1 s)) with
                | Some (members, rest) => Some (JObj members, rest)
                | None => None
                end
      else if head_is "[" s
      then if head_is "]" (skip_ws (slice 1 s))
           then Some (JArr [], slice 1 (skip_ws (slice 1 s)))
           else match parse_elements fuel' [] (skip_ws (slice 1 s)) with
                | Some (elements, rest) => Some (JArr elements, rest)
                | None => None
                end
      else if head_is dquote s
      then match parse_chars (slice 1 s) with
           | Some (str, rest) => Some (JStr str, rest)
           | None => None
           end
      else if startsWith "true" s then Some (JBool true, slice 4 s)
      else if startsWith "false" s then Some (JBool false, slice 5 s)
      else if startsWith "null" s then Some (JNull, slice 4 s)
      else match parse_number s with
           | Some (z, rest) => Some (JNum z, rest)
           | None => None
           end
  end
with parse_members (fuel : nat) (acc : list (string * json)) (s : string)
  : option (list (string * json) * string) :=
  match fuel with
  | O => None
  | S fuel' =>
      if head_is dquote s
      then match parse_chars (slice 1 s) with
           | Some (key, rest) =>
               if head_is ":" (skip_ws rest)
               then match parse_value fuel' (skip_ws (slice 1 (skip_ws rest))) with
                    | Some (v, rest') =>
                        if head_is "," (skip_ws rest')
                        then parse_members fuel' (set_prop key v acc)
                               (skip_ws (slice 1 (skip_ws rest')))
                        else if head_is "}" (skip_ws rest')
                        then Some (set_prop key v acc, slice 1 (skip_ws rest'))
                        else None
                    | None => None
                    end
               else None
           | None => None
           end
      else None
  end
with parse_elements (fuel : nat) (acc : list json) (s : string)
  : option (list json * string) :=
  match fuel with
  | O => None
  | S fuel' =>
      match parse_value fuel' s with
      | Some (v, rest) =>
          if head_is "," (skip_ws rest)
          then parse_elements fuel' (acc ++ [v]) (skip_ws (slice 1 (skip_ws rest)))
          else if head_is "]" (skip_ws rest)
          then Some (acc ++ [v], slice 1 (skip_ws rest))
          else None
      | None => None
      end
  end.

(** [JSON.parse(text)] *)
Definition JSON_parse (text : string) : option json :=
  match parse_value (S (String.length text)) (skip_ws text) with
  | Some (v, rest) => if Re.all_in is_json_ws rest then Some v else None
  | None => None
  end.

(** What [JSON.parse(JSON.stringify(v, null, 2))] is: [undefined] is
    dropped from objects and is null elsewhere. *)
Fixpoint normalize (v : json) : json :=
  match v with
  | JUndefined => JNull
  | JArr l => JArr (map normalize l)
  | JObj l =>
      JObj ((fix go (l : list (string * json)) : list (string * json) :=
               match l with
               | [] => []
               | (k, JUndefined) :: l' => go l'
               | (k, w) :: l' => (k, normalize w) :: go l'
               end) l)
  | _ => v
  end.

(** [String(v)], the message of [new Error(v)] *)
Fixpoint String_of_json (v : json) : string :=
  match v with
  | JNull => "null"
  | JUndefined => "undefined"
  | JBool true => "true"
  | JBool false => "false"
  | JNum z => Z_to_string z
  | JStr s => s
  | JArr l =>
      join "," (map (fun x => match x with
                              | JNull | JUndefined => ""
                              | _ => String_of_json x
                              end) l)
  | JObj _ => "[object Object]"
  end.

(** ** Words for the statements about reading JSON back *)

(** The members that [JSON.stringify] writes: those whose value is not
    [undefined] *)
Fixpoint defined (l : list (string * json)) : list (string * json) :=
  match l with
  | [] => []
  | (k, JUndefined) :: l' => defined l'
  | kv :: l' => kv :: defined l'
  end.

(** A value as JavaScript has it: the keys of an object are distinct. *)
Fixpoint wf_json (v : json) : Prop :=
  match v with
  | JArr l =>
      (fix all (l : list json) : Prop :=
         match l with
         | [] => True
         | x :: l' => wf_json x /\ all l'
         end) l
  | JObj l =>
      NoDup (Object_keys l)
      /\ (fix all (l : list (string * json)) : Prop :=
            match l with
            | [] => True
            | (_, w) :: l' => wf_json w /\ all l'
            end) l
  | _ => True
  end.

(** Fuel that suffices to read a value back *)
Fixpoint cost (v : json) : nat :=
  match v with
  | JArr l =>
      S ((fix sum (l : list json) : nat :=
            match l with
            | [] => 0
            | x :: l' => S (cost x + sum l')
            end) l)
  | JObj l =>
      S ((fix sum (l : list (string * json)) : nat :=
            match l with
            | [] => 0
            | (_, JUndefined) :: l' => sum l'
            | (_, w) :: l' => S (cost w + sum l')
            end) l)
  | _ => 1
  end.

(** What follows a value inside a text written by [JSON.stringify]:
    nothing, a comma or a line feed *)
Definition delimited (rest : string) : bool :=
  match rest with
  | "" => true
  | String c _ => Ascii.eqb c "," || Ascii.eqb c LF
  end.

(** The first character of a value *)
Definition starts_value (s : string) : bool :=
  match s with
  | "" => false
  | String c _ =>
      negb (is_json_ws c) && negb (Ascii.eqb c "]") && negb (Ascii.eqb c "}")
  end.

(** What the induction gives for a value: its text reads back, at every
    indentation, before every delimited rest, with enough fuel. *)
Definition reads_back (v : json) : Prop :=
  forall (ind rest : string) (f : nat),
    Re.all_in is_json_ws ind = true -> delimited rest = true ->
    (cost v <= f)%nat ->
    parse_value f (stringify ind v +:+ rest) = Some (normalize v, rest).

(** The text of a member of an object, and the separator of members and
    elements, at the inner indentation *)
Definition member_text (ind' : string) (kv : string * json) : string :=
  json_quote (fst kv) +:+ ": " +:+ stringify ind' (snd kv).

Definition separator (ind' : string) : string := "," +:+ newline +:+ ind'.

(* ===================================================================== *)
(** * 14g. The tool routes of the HTTP server *)
(* ===================================================================== *)

(** A POST request that carries a JSON body: the body's [query], [table]
    and [dbKey], each possibly absent, and the [dbKey] of the query
    string. *)
Record PostRequest : Type := mkPostRequest {
  post_path : string;
  post_query_dbKey : option string;
  post_body : ToolArgs
}.

(** The request as the middleware and the error handler see it *)
Definition as_Request (req : PostRequest) : Request :=
  mkRequest (post_path req) None (post_query_dbKey req)
    (arg_dbKey (post_body req)).

Section ToolRoutes.
Context (drv : Driver) (dbConfigs : list (string * DbConfig))
        (env : gmap string string) (now : string).
(** The exceptions of the engine: the [SyntaxError] of [JSON.parse] on a
    text, and the [TypeError] of reading a property of null *)
Context (SyntaxError : string -> JsError) (TypeError : JsError).

(** The block that the three routes share word for word: an error result
    becomes an [Error] with status 500 whose message is the [error]
    member of the parsed text, any other result is parsed and sent. *)
Definition answer_tool_result (req : Request) (result : ToolResult)
  : M Response :=
  if isError result
  then match JSON_parse (text result) with
       | None => throw (SyntaxError (text result))
       | Some JNull => throw TypeError
       | Some (JObj members) =>
           errorHandler now req
             (mkJsError (match prop "error" members with
                         | Some v => String_of_json v
                         | None => ""
                         end) (Some 500))
       | Some _ => errorHandler now req (mkJsError "" (Some 500))
       end
  else match JSON_parse (text result) with
       | None => throw (SyntaxError (text result))
       | Some parsedResult => ret (mkResponse 200 (BJson parsedResult))
       end.

(** The handler of [GET /databases] *)
Definition databases_handler (req : Request) : M Response :=
  try_catch
    (let* result := listDatabases dbConfigs in
     answer_tool_result req result)
    (errorHandler now req).

(** The handler of [POST /execute-sql] *)
Definition execute_sql_handler (req : PostRequest) : M Response :=
  let query := arg_query (post_body req) in
  let dbKey := arg_dbKey (post_body req) in
  match truthy query with
  | None =>
      errorHandler now (as_Request req)
        (mkJsError "Parameter 'query' is required" (Some 400))
  | Some query =>
      try_catch
        (let* result := executeSql drv dbConfigs env query dbKey in
         answer_tool_result (as_Request req) result)
        (errorHandler now (as_Request req))
  end.

(** The handler of [POST /get-table-schema] *)
Definition get_table_schema_handler (req : PostRequest) : M Response :=
  let table := arg_table (post_body req) in
  let dbKey := arg_dbKey (post_body req) in
  match truthy table with
  | None =>
      errorHandler now (as_Request req)
        (mkJsError "Parameter 'table' is required" (Some 400))
  | Some table =>
      try_catch
        (let* result := getTableSchema drv dbConfigs table dbKey in
         answer_tool_result (as_Request req) result)
        (errorHandler now (as_Request req))
  end.

Definition GET_databases (req : Request) : M Response :=
  validateDbKey now req (databases_handler req).

Definition POST_execute_sql (req : PostRequest) : M Response :=
  validateDbKey now (as_Request req) (execute_sql_handler req).

Definition POST_get_table_schema (req : PostRequest) : M Response :=
  validateDbKey now (as_Request req) (get_table_schema_handler req).

End ToolRoutes.

(* ===================================================================== *)
(** * 15. Facts about strings *)
(* ===================================================================== *)

Lemma append_nil_r (s : string) : s +:+ "" = s.
Proof. induction s as [|c s IH]; simpl; [reflexivity | now rewrite IH]. Qed.

Lemma append_assoc (s t u : string) : (s +:+ t) +:+ u = s +:+ t +:+ u.
Proof. induction s as [|c s IH]; simpl; [reflexivity | now rewrite IH]. Qed.

Lemma append_eq_nil (s t : string) : s +:+ t = "" -> s = "" /\ t = "".
Proof. destruct s; simpl; [auto | discriminate]. Qed.

(** Splitting [String c w] as a concatenation. *)
Lemma append_eq_cons (u v : string) (c : ascii) (w : string) :
  u +:+ v = String c w ->
  (u = "" /\ v = String c w) \/ (exists u', u = String c u' /\ w = u' +:+ v).
Proof.
  destruct u as [|a u]; simpl; intros H.
  - left; auto.
  - right. injection H as -> <-. eauto.
Qed.


Lemma length_append (s t : string) :
  String.length (s +:+ t) = (String.length s + String.length t)%nat.
Proof. induction s; simpl; auto. Qed.

Lemma ascii_eqb_refl (c : ascii) : Ascii.eqb c c = true.
Proof. apply Ascii.eqb_eq; reflexivity. Qed.

Lemma toUpperChar_idem (c : ascii) : toUpperChar (toUpperChar c) = toUpperChar c.
Proof. destruct c as [[] [] [] [] [] [] [] []]; reflexivity. Qed.

Lemma toUpperCase_idem (s : string) : toUpperCase (toUpperCase s) = toUpperCase s.
Proof.
  induction s as [|c s IH]; simpl; [reflexivity|].
  now rewrite toUpperChar_idem, IH.
Qed.


(** An upper-cased text splits into upper-cased pieces. *)
Lemma toUpperCase_split (s u v : string) :
  toUpperCase s = u +:+ v -> toUpperCase u = u /\ toUpperCase v = v.
Proof.
  revert u; induction s as [|c s IH]; simpl; intros u H.
  - symmetry in H. apply append_eq_nil in H as [-> ->]. auto.
  - symmetry in H. apply append_eq_cons in H as [[-> ->] | (u' & -> & H)].
    + simpl. rewrite toUpperChar_idem, toUpperCase_idem. auto.
    + apply IH in H as [Hu Hv]. simpl.
      rewrite toUpperChar_idem, Hu. auto.
Qed.

Lemma startsWith_spec (p s : string) :
  startsWith p s = true <-> exists rest, s = p +:+ rest.
Proof.
  revert s; induction p as [|a p IH]; intros s; simpl.
  - split; eauto.
  - destruct s as [|b s].
    + split; [discriminate | intros [r Hr]; discriminate].
    + rewrite andb_true_iff, Ascii.eqb_eq, IH. split.
      * intros [-> [r ->]]. eauto.
      * intros [r Hr]. injection Hr as -> ->. eauto.
Qed.

(** [includes] finds an occurrence exactly when there is one. *)
Lemma includes_spec (p s : string) :
  includes p s = true <-> exists pre post, s = pre +:+ p +:+ post.
Proof.
  induction s as [|c s IH].
  - simpl. destruct (startsWith p "") eqn:E.
    + split; [intros _ | reflexivity].
      apply startsWith_spec in E as [r Hr]. exists "", r. exact Hr.
    + split; [discriminate|]. intros (pre & post & H).
      symmetry in H. apply append_eq_nil in H as [-> H].
      simpl in H. assert (startsWith p "" = true) as E'
        by (apply startsWith_spec; exists post; now rewrite H).
      congruence.
  - simpl. destruct (startsWith p (String c s)) eqn:E.
    + split; [intros _ | reflexivity].
      apply startsWith_spec in E as [r Hr]. exists "", r. exact Hr.
    + rewrite IH. split.
      * intros (pre & post & ->). exists (String c pre), post. reflexivity.
      * intros (pre & post & H). destruct pre as [|a pre].
        -- simpl in H. assert (startsWith p (String c s) = true) as E'
             by (apply startsWith_spec; exists post; exact H).
           congruence.
        -- simpl in H. injection H as _ ->. eauto.
Qed.

Lemma includes_false (p s pre post : string) :
  includes p s = false -> s <> pre +:+ p +:+ post.
Proof.
  intros H E. assert (includes p s = true) by (apply includes_spec; eauto).
  congruence.
Qed.

Lemma trimStart_spec (s : string) :
  exists a, s = a +:+ trimStart s /\ all_ws a = true.
Proof.
  induction s as [|c s (a & IH & Ha)]; simpl.
  - exists "". auto.
  - destruct (is_ws c) eqn:E.
    + exists (String c a). simpl. rewrite E, Ha. split; [congruence | auto].
    + exists "". auto.
Qed.

Lemma trimEnd_spec (s : string) :
  exists b, s = trimEnd s +:+ b /\ all_ws b = true.
Proof.
  induction s as [|c s (b & IH & Hb)].
  - exists "". auto.
  - cbn [trimEnd]. destruct (all_ws (String c s)) eqn:E.
    + exists (String c s). auto.
    + exists b. simpl. split; [congruence | assumption].
Qed.



(* ===================================================================== *)
(** * 15b. Facts about objects *)
(* ===================================================================== *)

Lemma existsb_eqb_In (k : string) (l : list string) :
  existsb (String.eqb k) l = true <-> In k l.
Proof.
  rewrite existsb_exists. split.
  - intros (x & Hx & E). apply String.eqb_eq in E. now subst.
  - intros H. exists k. split; [assumption | apply String.eqb_refl].
Qed.

Lemma distinct_NoDup (keys : list string) :
  distinct keys = true -> NoDup keys.
Proof.
  induction keys as [|k keys IH]; cbn [distinct]; intros H.
  - apply NoDup_nil_2.
  - apply andb_true_iff in H as [H1 H2]. apply NoDup_cons. split; [|auto].
    intros Hin. apply list_elem_of_In, existsb_eqb_In in Hin.
    rewrite Hin in H1. discriminate.
Qed.

Lemma own_keys_facts (keys : list string) :
  own_keys keys = true ->
  NoDup keys /\ enumeration_order keys = true /\ ~ In "__proto__" keys.
Proof.
  unfold own_keys. intros H.
  apply andb_true_iff in H as [H H3]. apply andb_true_iff in H as [H1 H2].
  split; [now apply distinct_NoDup|]. split; [assumption|].
  intros Hin. apply existsb_eqb_In in Hin. rewrite Hin in H3. discriminate.
Qed.

(** In an object, a key has the value it is listed with. *)
Lemma prop_of_In {A} (k : string) (v : A) (obj : list (string * A)) :
  NoDup (Object_keys obj) -> In (k, v) obj -> prop k obj = Some v.
Proof.
  induction obj as [|[k0 w] obj IH]; intros Hnd Hin; [destruct Hin|].
  cbn [Object_keys map fst] in Hnd. apply NoDup_cons in Hnd as [Hk Hnd].
  cbn [prop]. destruct Hin as [E|Hin].
  - injection E as -> ->. now rewrite String.eqb_refl.
  - destruct (String.eqb k0 k) eqn:E; [|now apply IH].
    apply String.eqb_eq in E. subst k0. exfalso. apply Hk.
    apply list_elem_of_In. change k with (fst (k, v)). now apply in_map.
Qed.

Lemma Forall2_In_combine {A B} (R : A -> B -> Prop) (l : list A) (l' : list B)
  (a : A) (b : B) :
  Forall2 R l l' -> In (a, b) (combine l l') -> R a b.
Proof.
  induction 1 as [|x y l l' HR _ IH]; intros Hin; [destruct Hin|].
  destruct Hin as [E|Hin]; [injection E as <- <-; exact HR | auto].
Qed.

Lemma Forall2_with_In {A B} (R : A -> B -> Prop) (l : list A) (l' : list B) :
  Forall2 R l l' ->
  Forall2 (fun a b => R a b /\ In (a, b) (combine l l')) l l'.
Proof.
  induction 1 as [|a b l l' HR _ IH]; [constructor|].
  constructor; [split; [assumption | now left]|].
  eapply Forall2_impl; [exact IH|].
  intros x y [Hxy Hin]. split; [assumption | now right].
Qed.

Lemma combine_map_snd {A B} (l : list A) (l' : list B) :
  length l = length l' -> map snd (combine l l') = l'.
Proof.
  revert l'; induction l as [|a l IH]; intros [|b l'] H; simpl in *;
    try discriminate; [reflexivity|]. f_equal. apply IH. lia.
Qed.

Lemma combine_map_fst {A B} (l : list A) (l' : list B) :
  length l = length l' -> map fst (combine l l') = l.
Proof.
  revert l'; induction l as [|a l IH]; intros [|b l'] H; simpl in *;
    try discriminate; [reflexivity|]. f_equal. apply IH. lia.
Qed.

(* ===================================================================== *)
(** * 16. The matcher decides the language of a pattern *)
(* ===================================================================== *)

Module ReFacts.
Import Re.

Create HintDb re.
#[local] Hint Constructors Matches : re.

Lemma nullable_spec (r : t) : nullable r = true <-> Matches r "".
Proof.
  split.
  - induction r; simpl; intros H; try discriminate; auto with re.
    + apply andb_true_iff in H as [H1 H2].
      change "" with ("" +:+ ""). auto with re.
    + apply orb_true_iff in H as [H|H]; auto with re.
  - intros H. remember "" as w eqn:E.
    induction H; simpl; try discriminate; auto.
    + apply append_eq_nil in E as [-> ->]. rewrite IHMatches1, IHMatches2; auto.
    + rewrite IHMatches; auto.
    + rewrite IHMatches; auto using orb_true_r.
Qed.

Lemma deriv_sound (c : ascii) (r : t) (w : string) :
  Matches (deriv c r) w -> Matches r (String c w).
Proof.
  revert w; induction r as [| |f|a IHa b IHb|a IHa b IHb|a IHa];
    simpl; intros w H.
  - inversion H.
  - inversion H.
  - destruct (f c) eqn:E; inversion H; subst. now constructor.
  - destruct (nullable a) eqn:N.
    + inversion H as [| | | ? ? ? H1 | ? ? ? H1 | |]; subst.
      * inversion H1; subst.
        change (String c (u +:+ v)) with (String c u +:+ v). auto with re.
      * apply nullable_spec in N.
        change (String c w) with ("" +:+ String c w). auto with re.
    + inversion H; subst.
      change (String c (u +:+ v)) with (String c u +:+ v). auto with re.
  - inversion H; subst; auto with re.
  - inversion H; subst.
    change (String c (u +:+ v)) with (String c u +:+ v). auto with re.
Qed.

Lemma deriv_complete (r : t) (s : string) :
  Matches r s -> forall c w, s = String c w -> Matches (deriv c r) w.
Proof.
  induction 1 as [|f x Hf|a b u v Ha IHa Hb IHb|a b u Ha IHa|a b u Hb IHb
                 |a|a u v Ha IHa Hs IHs]; intros c w E; simpl.
  - discriminate.
  - injection E as -> <-. rewrite Hf. constructor.
  - apply append_eq_cons in E as [[-> ->] | (u' & -> & ->)].
    + apply nullable_spec in Ha. rewrite Ha. apply MAltR. now apply IHb.
    + destruct (nullable a).
      * apply MAltL. constructor; [now apply IHa | assumption].
      * constructor; [now apply IHa | assumption].
  - apply MAltL; auto.
  - apply MAltR; auto.
  - discriminate.
  - apply append_eq_cons in E as [[-> ->] | (u' & -> & ->)].
    + now apply IHs.
    + constructor; [now apply IHa | assumption].
Qed.

Lemma deriv_spec (c : ascii) (r : t) (w : string) :
  Matches (deriv c r) w <-> Matches r (String c w).
Proof.
  split; [apply deriv_sound | intros H; eapply deriv_complete; eauto].
Qed.

Lemma fullmatch_spec (r : t) (s : string) :
  fullmatch r s = true <-> Matches r s.
Proof.
  revert r; induction s as [|c s IH]; intros r; simpl.
  - apply nullable_spec.
  - rewrite IH. apply deriv_spec.
Qed.

Lemma prefixmatch_spec (r : t) (s : string) :
  prefixmatch r s = true <-> exists u v, s = u +:+ v /\ Matches r u.
Proof.
  revert r; induction s as [|c s IH]; intros r; simpl.
  - destruct (nullable r) eqn:N.
    + split; [intros _ | reflexivity]. exists "", "".
      split; [reflexivity | now apply nullable_spec].
    + split; [discriminate|]. intros (u & v & E & H).
      symmetry in E. apply append_eq_nil in E as [-> _].
      apply nullable_spec in H. congruence.
  - destruct (nullable r) eqn:N.
    + split; [intros _ | reflexivity]. exists "", (String c s).
      split; [reflexivity | now apply nullable_spec].
    + rewrite IH. split.
      * intros (u & v & -> & H). exists (String c u), v.
        split; [reflexivity | now apply deriv_spec].
      * intros (u & v & E & H). symmetry in E.
        apply append_eq_cons in E as [[-> _] | (u' & -> & ->)].
        -- apply nullable_spec in H. congruence.
        -- exists u', v. split; [reflexivity | now apply deriv_spec].
Qed.

(** [test] answers [true] exactly when some part of the text matches. *)
Lemma test_spec (r : t) (s : string) :
  test r s = true <->
  exists pre u post, s = pre +:+ u +:+ post /\ Matches r u.
Proof.
  induction s as [|c s IH]; cbn [test].
  - destruct (prefixmatch r "") eqn:P.
    + split; [intros _ | reflexivity].
      apply prefixmatch_spec in P as (u & v & E & H). exists "", u, v. auto.
    + split; [discriminate|]. intros (pre & u & post & E & H).
      symmetry in E. apply append_eq_nil in E as [-> E]. simpl in E.
      assert (prefixmatch r "" = true) as P'
        by (apply prefixmatch_spec; exists u, post; auto).
      congruence.
  - destruct (prefixmatch r (String c s)) eqn:P.
    + split; [intros _ | reflexivity].
      apply prefixmatch_spec in P as (u & v & E & H). exists "", u, v. auto.
    + rewrite IH. split.
      * intros (pre & u & post & -> & H). exists (String c pre), u, post. auto.
      * intros (pre & u & post & E & H). destruct pre as [|a pre].
        -- simpl in E.
           assert (prefixmatch r (String c s) = true) as P'
             by (apply prefixmatch_spec; exists u, post; auto).
           congruence.
        -- simpl in E. injection E as _ ->. eauto.
Qed.

(** A literal under [/i] matches the texts equal to it up to case. *)
Lemma lit_i_spec (kw w : string) :
  Matches (lit_i kw) w <-> toUpperCase w = toUpperCase kw.
Proof.
  revert w; induction kw as [|c kw IH]; intros w; simpl.
  - split.
    + intros H; inversion H; reflexivity.
    + destruct w; [constructor | discriminate].
  - split.
    + intros H. inversion H as [| |? ? u v H1 H2| | | |]; subst.
      inversion H1 as [|? x Hx| | | | |]; subst.
      apply Ascii.eqb_eq in Hx. apply IH in H2. simpl. congruence.
    + destruct w as [|x w]; [discriminate|]. simpl. intros E.
      injection E as Ex Ew.
      change (String x w) with (String x "" +:+ w).
      constructor; [|now apply IH].
      constructor. now apply Ascii.eqb_eq.
Qed.

Lemma lit_spec (kw w : string) : Matches (lit kw) w <-> w = kw.
Proof.
  revert w; induction kw as [|c kw IH]; intros w; simpl.
  - split.
    + intros H; inversion H; reflexivity.
    + intros ->. constructor.
  - split.
    + intros H. inversion H as [| |? ? u v H1 H2| | | |]; subst.
      inversion H1 as [|? x Hx| | | | |]; subst.
      apply Ascii.eqb_eq in Hx. apply IH in H2. simpl. congruence.
    + intros ->. change (String c kw) with (String c "" +:+ kw).
      constructor; [|now apply IH].
      constructor. apply ascii_eqb_refl.
Qed.

(** [Star (Cls f)] matches the texts made of characters of the class. *)
Lemma star_cls_spec (f : ascii -> bool) (w : string) :
  Matches (Star (Cls f)) w <-> all_in f w = true.
Proof.
  split.
  - intros H. remember (Star (Cls f)) as r eqn:E.
    induction H; try discriminate; [reflexivity|].
    injection E as ->. inversion H as [|? x Hx| | | | |]; subst. simpl.
    rewrite IHMatches2 by reflexivity. now rewrite Hx.
  - induction w as [|c w IH]; simpl; intros H; [constructor|].
    apply andb_true_iff in H as [Hc Hw].
    change (String c w) with (String c "" +:+ w).
    constructor; [now constructor | auto].
Qed.

Lemma plus_cls_spec (f : ascii -> bool) (w : string) :
  Matches (Plus (Cls f)) w <-> all_in f w = true /\ w <> "".
Proof.
  unfold Plus. split.
  - intros H. inversion H as [| |? ? u v H1 H2| | | |]; subst.
    inversion H1 as [|? x Hx| | | | |]; subst. apply star_cls_spec in H2.
    simpl. rewrite H2, Hx. split; [reflexivity | discriminate].
  - intros [H Hne]. destruct w as [|c w]; [congruence|].
    simpl in H. apply andb_true_iff in H as [Hc Hw].
    change (String c w) with (String c "" +:+ w).
    constructor; [now constructor | now apply star_cls_spec].
Qed.

Lemma all_in_ws (s : string) : all_in is_ws s = all_ws s.
Proof.
  induction s as [|c s IH]; simpl; [reflexivity|].
  rewrite IH. now destruct (is_ws c).
Qed.

End ReFacts.

(* ===================================================================== *)
(** * 17. The classifier: what each deny pattern finds *)
(* ===================================================================== *)

Section Classifier.
Import Re ReFacts.

Lemma seq_inv (a b : t) (w : string) :
  Matches (Seq a b) w <->
  exists u v, w = u +:+ v /\ Matches a u /\ Matches b v.
Proof.
  split.
  - intros H; inversion H; subst; eauto.
  - intros (u & v & -> & Ha & Hb). now constructor.
Qed.

Lemma alt_inv (a b : t) (w : string) :
  Matches (Alt a b) w <-> Matches a w \/ Matches b w.
Proof.
  split.
  - intros H; inversion H; subst; auto.
  - intros [H|H]; [now apply MAltL | now apply MAltR].
Qed.

Lemma ws_star_spec (w : string) : Matches (Star ws) w <-> all_ws w = true.
Proof. unfold ws. rewrite star_cls_spec. now rewrite all_in_ws. Qed.

Lemma ws_plus_spec (w : string) :
  Matches (Plus ws) w <->
  exists c w', w = String c w' /\ is_ws c = true /\ all_ws w' = true.
Proof.
  unfold ws. rewrite plus_cls_spec, all_in_ws. split.
  - intros [H Hne]. destruct w as [|c w']; [congruence|].
    simpl in H. destruct (is_ws c) eqn:Hc; [|discriminate]. exists c, w'. auto.
  - intros (c & w' & -> & Hc & Hw). simpl. rewrite Hc, Hw.
    split; [reflexivity | discriminate].
Qed.

Lemma chr_i_paren (w : string) : Matches (chr_i "(") w <-> w = "(".
Proof.
  unfold chr_i. split.
  - intros H. inversion H as [|? x Hx| | | | |]; subst.
    apply Ascii.eqb_eq in Hx.
    destruct x as [[] [] [] [] [] [] [] []]; try reflexivity; discriminate Hx.
  - intros ->. constructor. reflexivity.
Qed.

(** The leading [\s*] of a pattern does not change what [test] finds. *)
Lemma test_skip_ws (r : t) (T : string) :
  test (Seq (Star ws) r) T = true <-> test r T = true.
Proof.
  rewrite !test_spec. split.
  - intros (pre & u & post & -> & H).
    apply seq_inv in H as (a & v & -> & _ & Hv).
    exists (pre +:+ a), v, post. split; [|assumption].
    now rewrite !append_assoc.
  - intros (pre & u & post & -> & H). exists pre, u, post.
    split; [reflexivity|]. change u with ("" +:+ u).
    constructor; [constructor | assumption].
Qed.

(** In an upper-cased text, a part that matches a literal under [/i] is
    the upper-cased literal. *)
Lemma lit_i_in_upper (kw T pre K post : string) :
  toUpperCase T = T -> T = pre +:+ K +:+ post ->
  Matches (lit_i kw) K -> K = toUpperCase kw.
Proof.
  intros HT E HK. apply lit_i_spec in HK. rewrite <- HK.
  rewrite E in HT. apply toUpperCase_split in HT as [_ HT].
  apply toUpperCase_split in HT as [HT _]. congruence.
Qed.

Lemma test_kw_then_ws (kw T : string) :
  toUpperCase T = T ->
  test (kw_then_ws kw) T = true <->
  exists pre c post,
    T = pre +:+ toUpperCase kw +:+ String c post /\ is_ws c = true.
Proof.
  intros HT. unfold kw_then_ws. rewrite test_skip_ws, test_spec. split.
  - intros (pre & u & post & E & H).
    apply seq_inv in H as (K & b & -> & HK & Hb).
    apply ws_plus_spec in Hb as (c & b' & -> & Hc & _).
    rewrite append_assoc in E.
    pose proof (lit_i_in_upper _ _ _ _ _ HT E HK) as ->.
    exists pre, c, (b' +:+ post). split; [|assumption].
    rewrite E. reflexivity.
  - intros (pre & c & post & E & Hc).
    exists pre, (toUpperCase kw +:+ String c ""), post. split.
    + rewrite E, append_assoc. reflexivity.
    + constructor.
      * apply lit_i_spec. apply toUpperCase_idem.
      * apply ws_plus_spec. exists c, "". auto.
Qed.

Lemma test_kw2_then_ws (kw1 kw2 T : string) :
  toUpperCase T = T ->
  test (kw2_then_ws kw1 kw2) T = true <->
  exists pre w c post,
    T = pre +:+ toUpperCase kw1 +:+ w +:+ toUpperCase kw2 +:+ String c post
    /\ all_ws w = true /\ w <> "" /\ is_ws c = true.
Proof.
  intros HT. unfold kw2_then_ws. rewrite test_skip_ws, test_spec. split.
  - intros (pre & u & post & E & H).
    apply seq_inv in H as (K1 & r1 & -> & HK1 & H).
    apply seq_inv in H as (w & r2 & -> & Hw & H).
    apply seq_inv in H as (K2 & b & -> & HK2 & Hb).
    apply ws_plus_spec in Hb as (c & b' & -> & Hc & _).
    apply ws_plus_spec in Hw as (d & w' & -> & Hd & Hw').
    rewrite !append_assoc in E.
    pose proof (lit_i_in_upper _ _ _ _ _ HT E HK1) as ->.
    assert (T = (pre +:+ toUpperCase kw1 +:+ String d w') +:+ K2
                +:+ String c (b' +:+ post)) as E2
      by (rewrite E, !append_assoc; reflexivity).
    pose proof (lit_i_in_upper _ _ _ _ _ HT E2 HK2) as ->.
    exists pre, (String d w'), c, (b' +:+ post).
    repeat split; try assumption; try discriminate.
    simpl. now rewrite Hd, Hw'.
  - intros (pre & w & c & post & E & Hw & Hne & Hc).
    exists pre,
      (toUpperCase kw1 +:+ w +:+ toUpperCase kw2 +:+ String c ""), post.
    split.
    + rewrite E, !append_assoc. reflexivity.
    + constructor; [apply lit_i_spec, toUpperCase_idem|].
      constructor.
      * apply ws_plus_spec. destruct w as [|d w']; [congruence|].
        simpl in Hw. destruct (is_ws d) eqn:Hd; [|discriminate].
        exists d, w'. auto.
      * constructor; [apply lit_i_spec, toUpperCase_idem|].
        apply ws_plus_spec. exists c, "". auto.
Qed.

Lemma test_kw_call (kw T : string) :
  toUpperCase T = T ->
  test (kw_call kw) T = true <->
  (exists pre c post,
     T = pre +:+ toUpperCase kw +:+ String c post /\ is_ws c = true)
  \/ (exists pre w post,
        T = pre +:+ toUpperCase kw +:+ w +:+ String "(" post
        /\ all_ws w = true).
Proof.
  intros HT. unfold kw_call. rewrite test_skip_ws, test_spec. split.
  - intros (pre & u & post & E & H).
    apply seq_inv in H as (K & b & -> & HK & Hb).
    rewrite append_assoc in E.
    pose proof (lit_i_in_upper _ _ _ _ _ HT E HK) as ->.
    apply alt_inv in Hb as [Hb|Hb].
    + apply ws_plus_spec in Hb as (c & b' & -> & Hc & _).
      left. exists pre, c, (b' +:+ post). split; [|assumption].
      rewrite E. reflexivity.
    + apply seq_inv in Hb as (w & p & -> & Hw & Hp).
      apply ws_star_spec in Hw. apply chr_i_paren in Hp as ->.
      right. exists pre, w, post. split; [|assumption].
      rewrite E, !append_assoc. reflexivity.
  - intros [(pre & c & post & E & Hc) | (pre & w & post & E & Hw)].
    + exists pre, (toUpperCase kw +:+ String c ""), post. split.
      * rewrite E, append_assoc. reflexivity.
      * constructor; [apply lit_i_spec, toUpperCase_idem|].
        apply MAltL, ws_plus_spec. exists c, "". auto.
    + exists pre, (toUpperCase kw +:+ w +:+ "("), post. split.
      * rewrite E, !append_assoc. reflexivity.
      * constructor; [apply lit_i_spec, toUpperCase_idem|].
        apply MAltR. constructor; [now apply ws_star_spec|].
        now apply chr_i_paren.
Qed.

Lemma test_kw_anywhere (kw T : string) :
  toUpperCase T = T ->
  test (kw_anywhere kw) T = true <->
  exists pre post, T = pre +:+ toUpperCase kw +:+ post.
Proof.
  intros HT. unfold kw_anywhere. rewrite test_skip_ws, test_spec. split.
  - intros (pre & K & post & E & HK).
    pose proof (lit_i_in_upper _ _ _ _ _ HT E HK) as ->. eauto.
  - intros (pre & post & E). exists pre, (toUpperCase kw), post.
    split; [assumption | apply lit_i_spec, toUpperCase_idem].
Qed.

(** [/\s*RECONFIGURE\s*/i]: the trailing [\s*] changes nothing either. *)
Lemma test_kw_anywhere_ws (kw T : string) :
  toUpperCase T = T ->
  test (Seq (kw_anywhere kw) (Star ws)) T = true <->
  exists pre post, T = pre +:+ toUpperCase kw +:+ post.
Proof.
  intros HT. rewrite <- (test_kw_anywhere kw T HT), !test_spec. split.
  - intros (pre & u & post & -> & H).
    apply seq_inv in H as (v & b & -> & Hv & _).
    exists pre, v, (b +:+ post). split; [|assumption].
    now rewrite !append_assoc.
  - intros (pre & u & post & -> & H). exists pre, u, post.
    split; [reflexivity|]. rewrite <- (append_nil_r u).
    constructor; [assumption | constructor].
Qed.

End Classifier.

Section ClassifierSpec.
Import Re ReFacts.

Ltac in_list := simpl; solve [repeat (first [left; reflexivity | right])].

(** Prove [test pattern T = true] for one pattern of the list from an
    occurrence in the context, or fail. *)
Ltac found HT :=
  first
    [ apply (proj2 (test_kw_then_ws _ _ HT)); do 3 eexists;
      split; [eassumption | assumption]
    | apply (proj2 (test_kw2_then_ws _ _ _ HT)); do 4 eexists;
      split; [eassumption | repeat split; assumption]
    | apply (proj2 (test_kw_call _ _ HT)); left; do 3 eexists;
      split; [eassumption | assumption]
    | apply (proj2 (test_kw_call _ _ HT)); right; do 3 eexists;
      split; [eassumption | assumption]
    | apply (proj2 (test_kw_anywhere _ _ HT)); do 2 eexists; eassumption
    | apply (proj2 (test_kw_anywhere_ws _ _ HT)); do 2 eexists; eassumption ].

Ltac search_patterns HT :=
  cbn [existsb app unsafePatterns_base unsafePatterns_readonly];
  repeat (apply orb_true_iff;
          first [ left; solve [found HT] | right ]).

Lemma first_match_existsb (patterns : list Re.t) (T : string) :
  first_match patterns T = existsb (fun pattern => test pattern T) patterns.
Proof.
  induction patterns as [|p ps IH]; simpl; [reflexivity|].
  rewrite IH. now destruct (test p T).
Qed.

Lemma existsb_base_readonly (f : Re.t -> bool) (env : gmap string string) :
  existsb f unsafePatterns_base = true ->
  existsb f (unsafePatterns env) = true.
Proof.
  intros H. unfold unsafePatterns. destruct (is_readonly env); [|exact H].
  rewrite existsb_app, H. reflexivity.
Qed.

(** The classifier answers [false] exactly on the texts that contain a
    denied occurrence. *)
Lemma isSafeQuery_spec (env : gmap string string) (q : string) :
  isSafeQuery env q = false <->
  Denied (is_readonly env) (toUpperCase (trim q)).
Proof.
  unfold isSafeQuery. rewrite first_match_existsb.
  pose proof (toUpperCase_idem (trim q)) as HT.
  remember (toUpperCase (trim q)) as T eqn:ET. clear ET.
  split.
  - destruct (existsb _ _) eqn:E; [intros _ | discriminate].
    unfold unsafePatterns in E.
    destruct (is_readonly env) eqn:RO;
      cbn [existsb app unsafePatterns_base unsafePatterns_readonly] in E;
      repeat (apply orb_true_iff in E as [E|E]); try discriminate E;
      first
        [ apply (test_kw_then_ws _ _ HT) in E as (pre & c & post & -> & Hc);
          first [ apply DeniedWord; [in_list | assumption]
                | apply DeniedWrite; [reflexivity | in_list | assumption] ]
        | apply (test_kw2_then_ws _ _ _ HT) in E
            as (pre & w & c & post & -> & Hw & Hne & Hc);
          apply DeniedPhrase; [in_list | assumption ..]
        | apply (test_kw_call _ _ HT) in E
            as [(pre & c & post & -> & Hc) | (pre & w & post & -> & Hw)];
          [ apply DeniedCallWs; [in_list | assumption]
          | apply DeniedCall; [in_list | assumption] ]
        | apply (test_kw_anywhere _ _ HT) in E as (pre & post & ->);
          apply DeniedAnywhere; in_list
        | apply (test_kw_anywhere_ws _ _ HT) in E as (pre & post & ->);
          apply DeniedAnywhere; in_list ].
  - intros D.
    enough (existsb (fun pattern => test pattern T) (unsafePatterns env) = true)
      as -> by reflexivity.
    inversion D as [kw pre c post Hin Hc E | kw1 kw2 pre w c post Hin Hw Hne Hc E
                   | kw pre c post Hin Hc E | kw pre w post Hin Hw E
                   | kw pre post Hin E | kw pre c post RO Hin Hc E];
      symmetry in E; rewrite <- E.
    + apply existsb_base_readonly.
      simpl in Hin. repeat destruct Hin as [<-|Hin]; try contradiction;
        search_patterns HT.
    + apply existsb_base_readonly.
      simpl in Hin.
      repeat destruct Hin as [Hin|Hin]; try contradiction;
        injection Hin as <- <-; search_patterns HT.
    + apply existsb_base_readonly.
      simpl in Hin. repeat destruct Hin as [<-|Hin]; try contradiction;
        search_patterns HT.
    + apply existsb_base_readonly.
      simpl in Hin. repeat destruct Hin as [<-|Hin]; try contradiction;
        search_patterns HT.
    + apply existsb_base_readonly.
      simpl in Hin. repeat destruct Hin as [<-|Hin]; try contradiction;
        search_patterns HT.
    + unfold unsafePatterns. rewrite RO.
      simpl in Hin. repeat destruct Hin as [<-|Hin]; try contradiction;
        search_patterns HT.
Qed.

End ClassifierSpec.

(* ===================================================================== *)
(** * 18. The classifier: the claims *)
(* ===================================================================== *)

Example isSafeQuery_drop_table :
  isSafeQuery env_rw "drop table foo" = false.
Proof. vm_compute. reflexivity. Qed.

Example isSafeQuery_delete_by_mode :
  isSafeQuery env_ro "  delete from t " = false
  /\ isSafeQuery env_rw "  delete from t " = true.
Proof. vm_compute. split; reflexivity. Qed.

Example isSafeQuery_exec_call : isSafeQuery env_rw "exec(1)" = false.
Proof. vm_compute. reflexivity. Qed.

Lemma Denied_readonly_mono (ro : bool) (T : string) :
  Denied false T -> Denied ro T.
Proof.
  intros D; destruct D; try discriminate;
    [ now apply DeniedWord | now apply DeniedPhrase | now apply DeniedCallWs
    | now apply DeniedCall | now apply DeniedAnywhere ].
Qed.















(* ===================================================================== *)
(** * 19. The connection pool cache *)
(* ===================================================================== *)

Section PoolCache.
Context (drv : Driver) (dbConfigs : list (string * DbConfig)).

(** [getPool] on a key whose configuration is [config]: the cached pool,
    or a new one when the driver connects. *)
Lemma getPool_resolved (dbKey : option string) (config : DbConfig) (st : State) :
  match prop (prop_name dbKey) dbConfigs with
  | Some c => Some c
  | None => head (Object_values dbConfigs)
  end = Some config ->
  let poolKey := default "default" (truthy dbKey) in
  getPool drv dbConfigs dbKey st =
  match pools st !! poolKey with
  | Some pool => (Return pool, st)
  | None =>
      let pool := mkPool (next_pool_id st) config poolKey in
      let st1 := after_connect config poolKey st in
      match drv_connect drv (trace st ++ [EvNew (next_pool_id st) config]) pool with
      | Some msg => (Throw (Error msg), st1)
      | None => (Return pool, set_pools (insert poolKey pool) st1)
      end
  end.
Proof.
  intros Hc poolKey. unfold getPool. rewrite Hc. fold poolKey.
  unfold bind, get. destruct (pools st !! poolKey) as [pool|] eqn:L.
  - reflexivity.
  - unfold new_pool, pool_connect, modify, ret. cbn.
    destruct (drv_connect drv _ _); reflexivity.
Qed.

(** [getPool] never touches the connection status table. *)
Lemma getPool_connectionStatus (dbKey : option string) (st : State) :
  connectionStatus (snd (getPool drv dbConfigs dbKey st)) = connectionStatus st.
Proof.
  destruct (match prop (prop_name dbKey) dbConfigs with
            | Some c => Some c
            | None => head (Object_values dbConfigs)
            end) as [config|] eqn:Hc.
  - rewrite (getPool_resolved _ _ _ Hc). cbv zeta.
    destruct (pools st !! _); [reflexivity|].
    destruct (drv_connect drv _ _); reflexivity.
  - unfold getPool. rewrite Hc. reflexivity.
Qed.

(** With at least one configuration, an unknown key is served from the
    first configuration: [getPool] raises no configuration error. *)
Lemma getPool_unknown_key (k : string) (first : string * DbConfig)
  (rest : list (string * DbConfig)) (st : State) :
  dbConfigs = first :: rest -> prop k dbConfigs = None ->
  match getPool drv dbConfigs (Some k) st with
  | (Return pool, _) =>
      pools st !! default "default" (truthy (Some k)) = Some pool
      \/ pool_config pool = snd first
  | (Throw e, st') =>
      Some (message e)
      = drv_connect drv (trace st ++ [EvNew (next_pool_id st) (snd first)])
          (mkPool (next_pool_id st) (snd first)
             (default "default" (truthy (Some k))))
  end.
Proof.
  intros Hd Hk.
  assert (match prop (prop_name (Some k)) dbConfigs with
          | Some c => Some c
          | None => head (Object_values dbConfigs)
          end = Some (snd first)) as Hc.
  { cbn [prop_name]. rewrite Hk, Hd. reflexivity. }
  rewrite (getPool_resolved _ _ _ Hc). cbv zeta.
  destruct (pools st !! _) as [pool|]; [left; reflexivity|].
  destruct (drv_connect drv _ _) as [msg|]; [reflexivity | right; reflexivity].
Qed.

Lemma pools_wf_initial : pools_wf (initial_state dbConfigs).
Proof. intros k p H. cbn in H. rewrite lookup_empty in H. discriminate. Qed.

Lemma pools_wf_getPool (dbKey : option string) (st : State) :
  pools_wf st -> pools_wf (snd (getPool drv dbConfigs dbKey st)).
Proof.
  intros W.
  destruct (match prop (prop_name dbKey) dbConfigs with
            | Some c => Some c
            | None => head (Object_values dbConfigs)
            end) as [config|] eqn:Hc.
  - rewrite (getPool_resolved _ _ _ Hc). cbv zeta.
    destruct (pools st !! _) as [pool|] eqn:L; [exact W|].
    destruct (drv_connect drv _ _).
    + intros k p H. cbn in H. apply W in H as [H1 H2]. cbn. split; [lia | exact H2].
    + intros k p H. cbn in H. cbn.
      destruct (decide (default "default" (truthy dbKey) = k)) as [<-|Hne].
      * rewrite lookup_insert_eq in H. injection H as <-. cbn. split; [lia | reflexivity].
      * rewrite lookup_insert_ne in H by exact Hne.
        apply W in H as [H1 H2]. split; [lia | exact H2].
  - unfold getPool. rewrite Hc. exact W.
Qed.

Lemma pools_wf_pool_close (p : Pool) (st : State) :
  pools_wf st -> pools_wf (snd (pool_close p st)).
Proof.
  intros W k q H. cbn in H.
  destruct (decide (pool_key p = k)) as [<-|Hne].
  - rewrite lookup_delete_eq in H. discriminate.
  - rewrite lookup_delete_ne in H by exact Hne. apply W in H. exact H.
Qed.

(** Every state reached from the initial one by acquiring and closing
    pools satisfies the invariant. *)
Lemma pools_wf_reachable (ops : list CacheOp) :
  pools_wf (fold_left (cache_step drv dbConfigs) ops (initial_state dbConfigs)).
Proof.
  assert (forall st, pools_wf st ->
                     pools_wf (fold_left (cache_step drv dbConfigs) ops st)) as H.
  { induction ops as [|op ops IH]; intros st W; [exact W|].
    cbn [fold_left]. apply IH. destruct op as [dbKey|p]; cbn [cache_step].
    - now apply pools_wf_getPool.
    - now apply pools_wf_pool_close. }
  apply H, pools_wf_initial.
Qed.

End PoolCache.

(** C1, the code at a key that is not configured: with [maindb] and
    [reportingdb] configured, [getPool] on the key nosuchdb raises no
    error.  It returns a new pool built from the first configuration
    and caches it under the unknown key, whereas the resolver
    [getDbConfig] of the configuration module rejects the same key.
    The connection status table is left as it was. *)
Theorem getPool_unknown_key_served_by_first_config :
  prop "nosuchdb" sample_dbConfigs = None
  /\ getDbConfig sample_dbConfigs (Some "nosuchdb")
     = Throw (Error "[config] Invalid dbKey 'nosuchdb'. Available: maindb, reportingdb")
  /\ exists pool st',
       getPool drv_up sample_dbConfigs (Some "nosuchdb")
         (initial_state sample_dbConfigs) = (Return pool, st')
       /\ head (Object_values sample_dbConfigs) = Some (pool_config pool)
       /\ pools st' !! "nosuchdb" = Some pool
       /\ connectionStatus st'
          = connectionStatus (initial_state sample_dbConfigs).
Proof.
  split; [reflexivity|]. split; [reflexivity|].
  assert (match prop (prop_name (Some "nosuchdb")) sample_dbConfigs with
          | Some c => Some c
          | None => head (Object_values sample_dbConfigs)
          end = Some (sample_config "main" "s3cret")) as Hc by reflexivity.
  rewrite (getPool_resolved drv_up sample_dbConfigs (Some "nosuchdb")
             (sample_config "main" "s3cret") _ Hc).
  cbn. rewrite lookup_empty. cbn.
  do 2 eexists. split; [reflexivity|]. cbn.
  rewrite lookup_insert_eq. repeat split; reflexivity.
Qed.

(** Under a key that is not inherited, [getPool_js] is [getPool]. *)
Lemma getPool_js_own (drv : Driver) (dbConfigs : list (string * DbConfig))
  (dbKey : option string) (st : State) :
  inherited (default "default" (truthy dbKey)) = false ->
  getPool_js drv dbConfigs dbKey st
  = match getPool drv dbConfigs dbKey st with
    | (Return pool, st') => (Return (Own pool), st')
    | (Throw e, st') => (Throw e, st')
    end.
Proof.
  intros H. unfold getPool_js. rewrite H. unfold bind.
  destruct (getPool drv dbConfigs dbKey st) as [[pool|e] st']; reflexivity.
Qed.

(** Under an inherited key without a pool of its own, [getPool_js]
    returns the inherited member and builds nothing, whatever is
    configured and whatever the driver would answer. *)
Lemma getPool_js_inherited (drv : Driver) (dbConfigs : list (string * DbConfig))
  (k : string) (st : State) :
  inherited k = true -> pools st !! k = None ->
  getPool_js drv dbConfigs (Some k) st = (Return (Inherited k), st).
Proof.
  intros H L. unfold getPool_js.
  replace (default "default" (truthy (Some k))) with k
    by (destruct k; [discriminate H | reflexivity]).
  rewrite H. unfold get. now rewrite L.
Qed.

(** The claim on the keys that are not inherited: for such a configured
    key and a state that satisfies the cache invariant, once the call has
    returned a pool,
    - the next call returns the same pool and changes nothing;
    - the patched [close] removes the cache entry and then runs the
      driver's close, in a state where the entry is already gone;
    - the call after that constructs a pool with a new identity from
      the same configuration, returns it when the driver connects, and
      raises the driver's error otherwise. *)
Lemma getPool_cached_until_closed
  (drv : Driver) (dbConfigs : list (string * DbConfig))
  (k : string) (config : DbConfig) (st st1 : State) (pool : Pool) :
  inherited k = false ->
  prop k dbConfigs = Some config ->
  pools_wf st ->
  getPool_js drv dbConfigs (Some k) st = (Return (Own pool), st1) ->
  let st2 := snd (pool_close pool st1) in
  let pool' := mkPool (next_pool_id st2) config (pool_key pool) in
  getPool_js drv dbConfigs (Some k) st1 = (Return (Own pool), st1)
  /\ pool_close pool st1 = driver_close pool (snd (evict pool st1))
  /\ pools (snd (evict pool st1)) !! pool_key pool = None
  /\ pools st2 !! pool_key pool = None
  /\ pool_id pool' <> pool_id pool
  /\ getPool_js drv dbConfigs (Some k) st2 =
     match drv_connect drv (trace st2 ++ [EvNew (pool_id pool') config]) pool' with
     | None =>
         (Return (Own pool'),
          set_pools (insert (pool_key pool) pool')
            (after_connect config (pool_key pool) st2))
     | Some msg =>
         (Throw (Error msg), after_connect config (pool_key pool) st2)
     end.
Proof.
  intros Hown Hk W H1 st2 pool'.
  assert (inherited (default "default" (truthy (Some k))) = false) as Hpk.
  { destruct k; [reflexivity | exact Hown]. }
  rewrite !(getPool_js_own drv dbConfigs (Some k)) by exact Hpk.
  rewrite (getPool_js_own drv dbConfigs (Some k) st Hpk) in H1.
  destruct (getPool drv dbConfigs (Some k) st) as [[p0|e0] st0] eqn:G;
    [|discriminate].
  injection H1 as -> ->. rename G into H1.
  assert (match prop (prop_name (Some k)) dbConfigs with
          | Some c => Some c
          | None => head (Object_values dbConfigs)
          end = Some config) as Hc by (cbn [prop_name]; now rewrite Hk).
  set (poolKey := default "default" (truthy (Some k))).
  (* the pool is cached under its own key in a well-formed state *)
  assert (pools st1 !! poolKey = Some pool /\ pool_key pool = poolKey
          /\ (pool_id pool < next_pool_id st1)%nat) as (L1 & Hkey & Hid).
  { pose proof (pools_wf_getPool drv dbConfigs (Some k) st W) as W1.
    rewrite H1 in W1. cbn [snd] in W1.
    rewrite (getPool_resolved drv dbConfigs (Some k) config _ Hc) in H1. cbv zeta in H1.
    fold poolKey in H1.
    assert (pools st1 !! poolKey = Some pool) as L1.
    { destruct (pools st !! poolKey) as [p0|] eqn:L.
      - injection H1 as <- <-. exact L.
      - destruct (drv_connect drv _ _); [discriminate|].
        injection H1 as <- <-. cbn. apply lookup_insert_eq. }
    destruct (W1 _ _ L1) as [? ?]. auto. }
  assert (pools st2 !! poolKey = None) as L2.
  { subst st2. cbn. rewrite Hkey. apply lookup_delete_eq. }
  assert (next_pool_id st2 = next_pool_id st1) as Hn by reflexivity.
  repeat split.
  - rewrite (getPool_resolved drv dbConfigs (Some k) config _ Hc). cbv zeta.
    fold poolKey. now rewrite L1.
  - cbn. rewrite Hkey. apply lookup_delete_eq.
  - rewrite Hkey. exact L2.
  - subst pool'. cbn [pool_id]. lia.
  - rewrite (getPool_resolved drv dbConfigs (Some k) config _ Hc). cbv zeta.
    fold poolKey. rewrite L2. subst pool'. rewrite Hkey.
    destruct (drv_connect drv _ _); reflexivity.
Qed.

Example getPool_cached_until_closed_maindb :
  let st := initial_state sample_dbConfigs in
  let pool := mkPool 0 (sample_config "main" "s3cret") "maindb" in
  let st1 := snd (getPool_js drv_up sample_dbConfigs (Some "maindb") st) in
  let st2 := snd (pool_close pool st1) in
  getPool_js drv_up sample_dbConfigs (Some "maindb") st = (Return (Own pool), st1)
  /\ getPool_js drv_up sample_dbConfigs (Some "maindb") st1
     = (Return (Own pool), st1)
  /\ pools st2 !! "maindb" = None
  /\ fst (getPool_js drv_up sample_dbConfigs (Some "maindb") st2)
     = Return (Own (mkPool 1 (sample_config "main" "s3cret") "maindb")).
Proof.
  intros st pool st1 st2.
  assert (getPool_js drv_up sample_dbConfigs (Some "maindb") st
          = (Return (Own pool), st1)) as H1.
  { subst st1. rewrite (getPool_js_own drv_up sample_dbConfigs (Some "maindb") st eq_refl).
    assert (match prop (prop_name (Some "maindb")) sample_dbConfigs with
            | Some c => Some c
            | None => head (Object_values sample_dbConfigs)
            end = Some (sample_config "main" "s3cret")) as Hc by reflexivity.
    rewrite (getPool_resolved drv_up sample_dbConfigs (Some "maindb")
               (sample_config "main" "s3cret") _ Hc).
    cbn. rewrite lookup_empty. reflexivity. }
  destruct (getPool_cached_until_closed drv_up sample_dbConfigs "maindb"
              (sample_config "main" "s3cret") st st1 pool eq_refl eq_refl
              (pools_wf_initial sample_dbConfigs) H1)
    as (T1 & _ & _ & T2 & _ & T3).
  split; [exact H1|]. split; [exact T1|]. split; [exact T2|].
  fold st2 in T3. rewrite T3. reflexivity.
Qed.

(** C2, the code at a configured key that every object inherits.  With a
    database configured under the key constructor (a key the schemas
    accept), [pools[poolKey]] is the inherited member of the empty cache
    and tests true.  So the first call builds no pool, asks the driver
    nothing, stores nothing and returns that member, which is no pool;
    the second call does the same.  The same configuration under the key
    maindb is pooled as the specification says. *)
Theorem getPool_inherited_key_is_never_pooled :
  let dbConfigs := [("constructor", sample_config "foo" "s3cret")] in
  let st := initial_state dbConfigs in
  prop "constructor" dbConfigs = Some (sample_config "foo" "s3cret")
  /\ dbKey_ok (Some "constructor") = true
  /\ getPool_js drv_up dbConfigs (Some "constructor") st
     = (Return (Inherited "constructor"), st)
  /\ pools st !! "constructor" = None /\ trace st = []
  /\ exists pool st1,
       getPool_js drv_up single_dbConfigs (Some "maindb")
         (initial_state single_dbConfigs)
       = (Return (Own pool), st1)
       /\ pools st1 !! "maindb" = Some pool
       /\ trace st1 = [EvNew 0 (sample_config "foo" "s3cret"); EvConnect 0].
Proof.
  cbv zeta. split; [reflexivity|]. split; [reflexivity|].
  split; [apply getPool_js_inherited; [reflexivity | apply lookup_empty]|].
  split; [apply lookup_empty|]. split; [reflexivity|].
  rewrite (getPool_js_own drv_up single_dbConfigs (Some "maindb") _ eq_refl).
  assert (match prop (prop_name (Some "maindb")) single_dbConfigs with
          | Some c => Some c
          | None => head (Object_values single_dbConfigs)
          end = Some (sample_config "foo" "s3cret")) as Hc by reflexivity.
  rewrite (getPool_resolved drv_up single_dbConfigs (Some "maindb")
             (sample_config "foo" "s3cret") _ Hc).
  cbn. rewrite lookup_empty. cbn.
  do 2 eexists. split; [reflexivity|]. cbn.
  rewrite lookup_insert_eq. split; reflexivity.
Qed.

(* ===================================================================== *)
(** * 20. Validation *)
(* ===================================================================== *)

Lemma truthy_Some (dbKey : option string) (k : string) :
  truthy dbKey = Some k -> dbKey = Some k /\ (1 <= String.length k)%nat.
Proof.
  destruct dbKey as [[|c s]|]; simpl; intros H; try discriminate.
  injection H as <-. split; [reflexivity | simpl; lia].
Qed.

Lemma word_plus_fullmatch (s : string) :
  Re.fullmatch word_plus s = Re.all_in is_word s && (1 <=? String.length s)%nat.
Proof.
  destruct (Re.fullmatch word_plus s) eqn:E.
  - apply ReFacts.fullmatch_spec, ReFacts.plus_cls_spec in E as [H Hne].
    rewrite H. destruct s; [congruence | reflexivity].
  - symmetry. apply not_true_is_false. intros H.
    apply andb_true_iff in H as [H1 H2].
    assert (Re.fullmatch word_plus s = true) as E'.
    { apply ReFacts.fullmatch_spec, ReFacts.plus_cls_spec.
      split; [assumption|]. destruct s; [discriminate | discriminate]. }
    congruence.
Qed.

Lemma validate_issues {A} (issues : list Issue) (a : A) (st : State) :
  match issues with
  | [] => validate (parsed issues a) st = (Return a, st)
  | _ => validate (parsed issues a) st
         = (Throw (Error ("Validation failed: "
                          +:+ join ", " (map issue_text issues))), st)
  end.
Proof. destruct issues; reflexivity. Qed.

Lemma map_eq_nil_iff {A B} (f : A -> B) (l : list A) : map f l = [] <-> l = [].
Proof. destruct l; simpl; split; intros H; congruence. Qed.

Lemma app_eq_nil_iff {A} (l1 l2 : list A) : l1 ++ l2 = [] <-> l1 = [] /\ l2 = [].
Proof.
  destruct l1; simpl; split; intros H; try tauto; try discriminate.
  destruct H; discriminate.
Qed.

Lemma dbKey_issues_ok (optional : bool) (k : string) :
  truthy (Some k) = Some k -> dbKey_ok (Some k) = true ->
  field_issues optional "dbKey" dbKey_checks (Some k) = [].
Proof.
  intros T H. unfold dbKey_ok in H. rewrite T in H.
  apply andb_true_iff in H as [Hlen Hre].
  apply truthy_Some in T as [_ Hne].
  unfold field_issues, string_issues, dbKey_checks. cbn [failed_checks check_issue].
  rewrite Hre.
  destruct (String.length k <? 1)%nat eqn:E1;
    [apply Nat.ltb_lt in E1; lia|].
  destruct (50 <? String.length k)%nat eqn:E2;
    [apply Nat.ltb_lt in E2; apply Nat.leb_le in Hlen; lia|].
  reflexivity.
Qed.

Lemma dbKey_issues_given (dbKey : option string) :
  dbKey_ok dbKey = true ->
  match truthy dbKey with
  | Some k => field_issues false "dbKey" dbKey_checks (Some k)
  | None => field_issues true "dbKey" dbKey_checks None
  end = [].
Proof.
  intros H. destruct (truthy dbKey) as [k|] eqn:T; [|reflexivity].
  apply truthy_Some in T as T'. destruct T' as [-> _].
  now apply dbKey_issues_ok.
Qed.

Lemma query_issues_ok (query : string) :
  query_ok query = true ->
  field_issues false "query" sqlQuery_checks (Some query) = [].
Proof.
  intros H. apply andb_true_iff in H as [H1 H2].
  apply Nat.leb_le in H1, H2.
  unfold field_issues, string_issues, sqlQuery_checks. cbn [failed_checks check_issue].
  destruct (String.length query <? 1)%nat eqn:E1;
    [apply Nat.ltb_lt in E1; lia|].
  destruct (10000 <? String.length query)%nat eqn:E2;
    [apply Nat.ltb_lt in E2; lia|].
  reflexivity.
Qed.

Lemma table_issues_ok (table : string) :
  table_ok table = true ->
  field_issues false "table" tableName_checks (Some table) = [].
Proof.
  intros H. apply andb_true_iff in H as [H Hre].
  apply andb_true_iff in H as [H1 H2]. apply Nat.leb_le in H1, H2.
  unfold field_issues, string_issues, tableName_checks.
  cbn [failed_checks check_issue]. rewrite Hre.
  destruct (String.length table <? 1)%nat eqn:E1;
    [apply Nat.ltb_lt in E1; lia|].
  destruct (128 <? String.length table)%nat eqn:E2;
    [apply Nat.ltb_lt in E2; lia|].
  reflexivity.
Qed.

(** Accepted inputs pass [validate] and come back unchanged. *)
Lemma validate_query_ok (query : string) (dbKey : option string) (st : State) :
  query_ok query = true -> dbKey_ok dbKey = true ->
  validate (match truthy dbKey with
            | Some k => dbKeyQuerySchema false (Some k) query
            | None => dbKeyQuerySchema true None query
            end) st = (Return (truthy dbKey, query), st).
Proof.
  intros Hq Hk. pose proof (dbKey_issues_given dbKey Hk) as Hi.
  pose proof (query_issues_ok query Hq) as Hj.
  unfold dbKeyQuerySchema.
  destruct (truthy dbKey) as [k|]; rewrite Hi, Hj; reflexivity.
Qed.

Lemma validate_table_ok (table : string) (dbKey : option string) (st : State) :
  table_ok table = true -> dbKey_ok dbKey = true ->
  validate (match truthy dbKey with
            | Some k => dbKeyTableSchema false (Some k) table
            | None => dbKeyTableSchema true None table
            end) st = (Return (truthy dbKey, table), st).
Proof.
  intros Hq Hk. pose proof (dbKey_issues_given dbKey Hk) as Hi.
  pose proof (table_issues_ok table Hq) as Hj.
  unfold dbKeyTableSchema.
  destruct (truthy dbKey) as [k|]; rewrite Hi, Hj; reflexivity.
Qed.

(** [validate] reads and writes no state, and what it accepts is the
    value the schema parsed. *)
Lemma validate_cases {A} (r : list Issue + A) (st : State) :
  (exists a, r = inr a /\ validate r st = (Return a, st))
  \/ (exists issues msg, r = inl issues /\ validate r st = (Throw (Error msg), st)).
Proof.
  destruct r as [issues|a]; [right | left; eauto].
  exists issues. destruct issues; eexists; split; reflexivity.
Qed.

Lemma validate_dbKey_if_given_ok (dbKey : option string) (st : State) :
  dbKey_ok dbKey = true ->
  validate_dbKey_if_given dbKey st = (Return tt, st).
Proof.
  intros H. unfold validate_dbKey_if_given.
  destruct (truthy dbKey) as [k|] eqn:T; [|reflexivity].
  apply truthy_Some in T as T'. destruct T' as [-> _].
  unfold dbKeySchema. rewrite (dbKey_issues_ok false k T H). reflexivity.
Qed.

Lemma validate_dbKey_if_given_cases (dbKey : option string) (st : State) :
  validate_dbKey_if_given dbKey st = (Return tt, st)
  \/ exists msg, validate_dbKey_if_given dbKey st = (Throw (Error msg), st).
Proof.
  unfold validate_dbKey_if_given. destruct (truthy dbKey) as [k|]; [|now left].
  unfold bind.
  destruct (validate_cases (dbKeySchema (Some k)) st)
    as [(a & _ & ->) | (i & msg & _ & ->)]; [now left | right; eauto].
Qed.

Lemma isSafeQuery_empty (env : gmap string string) : isSafeQuery env "" = true.
Proof.
  unfold isSafeQuery, unsafePatterns.
  destruct (is_readonly env); vm_compute; reflexivity.
Qed.

Lemma unsafe_query_nonempty (env : gmap string string) (query : string) :
  isSafeQuery env query = false -> (1 <= String.length query)%nat.
Proof.
  destruct query; [rewrite isSafeQuery_empty; discriminate | simpl; lia].
Qed.

(* ===================================================================== *)
(** * 21. [executeSql]: the safety check *)
(* ===================================================================== *)

Lemma dbKeyQuerySchema_inr (partial : bool) (dbKey : option string)
  (query : string) (a : option string * string) :
  dbKeyQuerySchema partial dbKey query = inr a -> a = (dbKey, query).
Proof.
  unfold dbKeyQuerySchema, parsed.
  destruct (_ ++ _); [intros H; now injection H | discriminate].
Qed.

Lemma dbKeyTableSchema_inr (partial : bool) (dbKey : option string)
  (table : string) (a : option string * string) :
  dbKeyTableSchema partial dbKey table = inr a -> a = (dbKey, table).
Proof.
  unfold dbKeyTableSchema, parsed.
  destruct (_ ++ _); [intros H; now injection H | discriminate].
Qed.





(* ===================================================================== *)
(** * 22. [getTableSchema]: a table without columns *)
(* ===================================================================== *)



(* ===================================================================== *)
(** * 23. [readResource]: the statement sent to the database *)
(* ===================================================================== *)

Lemma queries_app (a b : list Event) : queries (a ++ b) = queries a ++ queries b.
Proof.
  induction a as [|e a IH]; [reflexivity|].
  destruct e; simpl; now rewrite IH.
Qed.

(** Acquiring a pool sends no statement. *)
Lemma getPool_trace (drv : Driver) (dbConfigs : list (string * DbConfig))
  (dbKey : option string) (st : State) :
  exists evs,
    trace (snd (getPool drv dbConfigs dbKey st)) = trace st ++ evs
    /\ queries evs = [].
Proof.
  destruct (match prop (prop_name dbKey) dbConfigs with
            | Some c => Some c
            | None => head (Object_values dbConfigs)
            end) as [config|] eqn:Hc.
  - rewrite (getPool_resolved drv dbConfigs dbKey config st Hc). cbv zeta.
    destruct (pools st !! _).
    + exists []. cbn. now rewrite app_nil_r.
    + destruct (drv_connect drv _ _); cbn; rewrite <- app_assoc;
        eexists; split; reflexivity.
  - unfold getPool. rewrite Hc. exists []. cbn. now rewrite app_nil_r.
Qed.

(** Acquiring a pool writes neither to the console nor to the resource
    cache. *)
Lemma getPool_frame (drv : Driver) (dbConfigs : list (string * DbConfig))
  (dbKey : option string) (st : State) :
  console (snd (getPool drv dbConfigs dbKey st)) = console st
  /\ resourceCache (snd (getPool drv dbConfigs dbKey st)) = resourceCache st.
Proof.
  destruct (match prop (prop_name dbKey) dbConfigs with
            | Some c => Some c
            | None => head (Object_values dbConfigs)
            end) as [config|] eqn:Hc.
  - rewrite (getPool_resolved drv dbConfigs dbKey config st Hc). cbv zeta.
    destruct (pools st !! _); [split; reflexivity|].
    destruct (drv_connect drv _ _); split; reflexivity.
  - unfold getPool. rewrite Hc. split; reflexivity.
Qed.

(** The texts [resourceUriSchema] accepts. *)
Lemma resourceUri_spec (uri : string) :
  Re.fullmatch resourceUri_re uri = true <->
  exists t, uri = "mssql://" +:+ t +:+ "/data"
            /\ t <> "" /\ Re.all_in is_word t = true.
Proof.
  rewrite ReFacts.fullmatch_spec. unfold resourceUri_re. split.
  - intros H. apply seq_inv in H as (a & r & -> & Ha & H).
    apply seq_inv in H as (t & d & -> & Ht & Hd).
    apply ReFacts.lit_spec in Ha as ->. apply ReFacts.lit_spec in Hd as ->.
    apply ReFacts.plus_cls_spec in Ht as [Ht Hne].
    exists t. auto.
  - intros (t & -> & Hne & Ht).
    constructor; [now apply ReFacts.lit_spec|].
    constructor; [|now apply ReFacts.lit_spec].
    now apply ReFacts.plus_cls_spec.
Qed.

Lemma resourceUriSchema_cases (uri : string) :
  (Re.fullmatch resourceUri_re uri = true /\ resourceUriSchema uri = inr uri)
  \/ (Re.fullmatch resourceUri_re uri = false
      /\ exists i, resourceUriSchema uri = inl [i]).
Proof.
  unfold resourceUriSchema, string_issues, resourceUri_checks.
  cbn [failed_checks check_issue].
  destruct (Re.fullmatch resourceUri_re uri); [left | right]; cbn; eauto.
Qed.

Lemma is_word_not_slash (c : ascii) : is_word c = true -> Ascii.eqb c "/" = false.
Proof. destruct c as [[] [] [] [] [] [] [] []]; try reflexivity; discriminate. Qed.

(** [split("/")[0]] of a word followed by a slash is the word. *)
Lemma split_on_word (t rest : string) :
  Re.all_in is_word t = true ->
  fst (split_on "/" (t +:+ String "/" rest)) = t.
Proof.
  induction t as [|c t IH]; simpl; intros H.
  - destruct (split_on "/" rest). reflexivity.
  - apply andb_true_iff in H as [Hc Ht]. specialize (IH Ht).
    destruct (split_on "/" (t +:+ String "/" rest)) as [h tl].
    rewrite (is_word_not_slash c Hc). simpl in *. now rewrite IH.
Qed.

(** [readResource] on an accepted URI, once the pool is at hand: the
    table name is the word between the scheme and the suffix. *)
Lemma table_of_uri (t : string) :
  Re.all_in is_word t = true ->
  startsWith "mssql://" ("mssql://" +:+ t +:+ "/data") = true
  /\ fst (split_on "/" (slice 8 ("mssql://" +:+ t +:+ "/data"))) = t.
Proof.
  intros Ht. split; [reflexivity|].
  change (slice 8 ("mssql://" +:+ t +:+ "/data")) with (t +:+ String "/" "data").
  now apply split_on_word.
Qed.

(** On an accepted URI with a pool at hand, [readResource] asks the pool
    one thing: the statement that selects from the table of the URI. *)
Lemma readResource_accepted_trace
  (drv : Driver) (dbConfigs : list (string * DbConfig))
  (t : string) (dbKey : option string) (st st1 : State) (pool : Pool) :
  t <> "" -> Re.all_in is_word t = true -> dbKey_ok dbKey = true ->
  getPool drv dbConfigs dbKey st = (Return pool, st1) ->
  trace (snd (readResource drv dbConfigs ("mssql://" +:+ t +:+ "/data") dbKey st))
  = trace st1
    ++ [EvQuery (pool_id pool) ("SELECT TOP 100 * FROM [" +:+ t +:+ "]") []].
Proof.
  intros Hne Ht Hk Hp.
  unfold readResource, try_catch, bind.
  assert (Re.fullmatch resourceUri_re ("mssql://" +:+ t +:+ "/data") = true) as Hm
    by (apply resourceUri_spec; eauto).
  destruct (resourceUriSchema_cases ("mssql://" +:+ t +:+ "/data"))
    as [[_ ->] | [Hm' _]]; [|congruence].
  cbn [validate]. unfold ret at 1.
  rewrite (validate_dbKey_if_given_ok dbKey st Hk).
  destruct (table_of_uri t Ht) as [Hs Hf]. rewrite Hs, Hf. cbn [negb].
  rewrite Hp. unfold pool_query, select_top_100.
  destruct (drv_query drv _ _ _ _) as [msg|r]; [reflexivity|].
  destruct (recordset r); reflexivity.
Qed.

(** C10: whatever the URI, the key and the driver, [readResource] sends at
    most one statement; when it sends one, the URI is mssql://t/data for
    a non-empty [t] made of letters, digits and underscores, and the
    statement is the text SELECT TOP 100 * FROM [t], with that [t] between
    the brackets and with no inputs.  It does send this statement, to the
    pool it was given, whenever the URI has that form, the key is absent
    or valid and [getPool] returns a pool. *)
Theorem readResource_single_statement
  (drv : Driver) (dbConfigs : list (string * DbConfig))
  (uri : string) (dbKey : option string) (st : State) :
  exists evs,
    trace (snd (readResource drv dbConfigs uri dbKey st)) = trace st ++ evs
    /\ (queries evs = []
        \/ exists t,
             uri = "mssql://" +:+ t +:+ "/data"
             /\ t <> "" /\ Re.all_in is_word t = true
             /\ queries evs = [("SELECT TOP 100 * FROM [" +:+ t +:+ "]", [])])
    /\ (forall (t : string) (pool : Pool) (st1 : State),
          uri = "mssql://" +:+ t +:+ "/data" ->
          t <> "" -> Re.all_in is_word t = true -> dbKey_ok dbKey = true ->
          getPool drv dbConfigs dbKey st = (Return pool, st1) ->
          queries evs = [("SELECT TOP 100 * FROM [" +:+ t +:+ "]", [])]
          /\ trace (snd (readResource drv dbConfigs uri dbKey st))
             = trace st1
               ++ [EvQuery (pool_id pool)
                     ("SELECT TOP 100 * FROM [" +:+ t +:+ "]") []]).
Proof.
  assert (exists evs,
             trace (snd (readResource drv dbConfigs uri dbKey st)) = trace st ++ evs
             /\ (queries evs = []
                 \/ exists t,
                      uri = "mssql://" +:+ t +:+ "/data"
                      /\ t <> "" /\ Re.all_in is_word t = true
                      /\ queries evs
                         = [("SELECT TOP 100 * FROM [" +:+ t +:+ "]", [])]))
    as (evs & Htr & Hq).
  { unfold readResource, try_catch, bind.
    destruct (resourceUriSchema_cases uri) as [[Hm ->] | [Hm [i ->]]].
    - cbn [validate]. unfold ret at 1.
      destruct (validate_dbKey_if_given_cases dbKey st) as [-> | [msg ->]].
      + apply resourceUri_spec in Hm as (t & -> & Hne & Ht).
        destruct (table_of_uri t Ht) as [Hs Hf]. rewrite Hs, Hf. cbn [negb].
        destruct (getPool_trace drv dbConfigs dbKey st) as (evs0 & Htr & Hq0).
        destruct (getPool drv dbConfigs dbKey st) as [[pool|e] st1] eqn:G;
          cbn [snd] in Htr.
        * exists (evs0 ++ [EvQuery (pool_id pool) (select_top_100 t) []]).
          split.
          -- unfold pool_query.
             destruct (drv_query drv _ _ _ _) as [msg|r];
               [| destruct (recordset r)]; cbn; rewrite Htr, app_assoc;
               reflexivity.
          -- right. exists t. repeat split; try assumption.
             rewrite queries_app, Hq0. reflexivity.
        * exists evs0. split; [cbn; exact Htr | left; exact Hq0].
      + exists []. cbn. rewrite app_nil_r. auto.
    - exists []. cbn. rewrite app_nil_r. auto. }
  exists evs. split; [exact Htr|]. split; [exact Hq|].
  intros t pool st1 -> Hne Ht Hk G.
  pose proof (readResource_accepted_trace drv dbConfigs t dbKey st st1 pool
                Hne Ht Hk G) as Hsent.
  split; [|exact Hsent].
  destruct (getPool_trace drv dbConfigs dbKey st) as (evs0 & Htr0 & Hq0).
  rewrite G in Htr0. cbn [snd] in Htr0.
  rewrite Hsent, Htr0, <- app_assoc in Htr. apply app_inv_head in Htr.
  rewrite <- Htr, queries_app, Hq0. reflexivity.
Qed.

Lemma readResource_single_statement_witness :
  trace (snd (readResource drv_rows single_dbConfigs "mssql://Orders/data"
                None (initial_state single_dbConfigs)))
  = [ EvNew 0 (sample_config "foo" "s3cret"); EvConnect 0;
      EvQuery 0 "SELECT TOP 100 * FROM [Orders]" [] ].
Proof.
  destruct (readResource_single_statement drv_rows single_dbConfigs
              "mssql://Orders/data" None (initial_state single_dbConfigs))
    as (evs & _ & _ & H).
  assert (match prop (prop_name None) single_dbConfigs with
          | Some c => Some c
          | None => head (Object_values single_dbConfigs)
          end = Some (sample_config "foo" "s3cret")) as Hc by reflexivity.
  set (pool := mkPool 0 (sample_config "foo" "s3cret") "default").
  assert (getPool drv_rows single_dbConfigs None (initial_state single_dbConfigs)
          = (Return pool,
             set_pools (insert "default" pool)
               (after_connect (sample_config "foo" "s3cret") "default"
                  (initial_state single_dbConfigs)))) as G.
  { rewrite (getPool_resolved drv_rows single_dbConfigs None
               (sample_config "foo" "s3cret")
               (initial_state single_dbConfigs) Hc).
    cbn. rewrite lookup_empty. reflexivity. }
  destruct (H "Orders" _ _ eq_refl ltac:(discriminate) eq_refl eq_refl G)
    as [_ T].
  rewrite T. reflexivity.
Defined.

(** The same run, evaluated. *)
Example readResource_sends_statement :
  trace (snd (readResource drv_rows single_dbConfigs "mssql://Orders/data"
                None (initial_state single_dbConfigs)))
  = [ EvNew 0 (sample_config "foo" "s3cret"); EvConnect 0;
      EvQuery 0 "SELECT TOP 100 * FROM [Orders]" [] ].
Proof. vm_compute. reflexivity. Qed.

(* ===================================================================== *)
(** * 25. CSV: what is written reads back *)
(* ===================================================================== *)

Section CsvRoundTrip.





















End CsvRoundTrip.


















(* ===================================================================== *)
(** * 26. Failures inside the operations *)
(* ===================================================================== *)

Section Failures.
Context (drv : Driver) (dbConfigs : list (string * DbConfig))
        (env : gmap string string).

Lemma try_catch_never_throws {A} (m : M A) (h : JsError -> M A) :
  (forall e, never_throws (h e)) -> never_throws (try_catch m h).
Proof.
  intros H st. unfold try_catch. destruct (m st) as [[a|e] st1]; [eauto|].
  apply H.
Qed.

Lemma log_then_ret_never_throws {A} (line : string) (a : A) :
  never_throws (do modify (console_error line) then ret a).
Proof. intros st. do 2 eexists. reflexivity. Qed.

Lemma executeSql_never_throws (query : string) (dbKey : option string) :
  never_throws (executeSql drv dbConfigs env query dbKey).
Proof.
  apply try_catch_never_throws. intros e. apply log_then_ret_never_throws.
Qed.

Lemma getTableSchema_never_throws (table : string) (dbKey : option string) :
  never_throws (getTableSchema drv dbConfigs table dbKey).
Proof.
  apply try_catch_never_throws. intros e. apply log_then_ret_never_throws.
Qed.

Lemma listResources_never_throws (dbKey : option string) :
  never_throws (listResources drv dbConfigs dbKey).
Proof.
  intros st. unfold listResources, bind, get.
  destruct (resourceCache st !! _); [do 2 eexists; reflexivity|].
  apply try_catch_never_throws. intros e. apply log_then_ret_never_throws.
Qed.

(** [readResource] throws nothing but its own wrapped error. *)
Lemma readResource_throws_wrapped (uri : string) (dbKey : option string)
  (st st' : State) (e : JsError) :
  readResource drv dbConfigs uri dbKey st = (Throw e, st') ->
  exists msg, e = Error ("Database error: " +:+ msg).
Proof.
  unfold readResource, try_catch.
  match goal with
  | |- match ?x with _ => _ end = _ -> _ => destruct x as [[a|e0] st1]
  end; [discriminate|].
  cbn. intros H. injection H as <- _. eauto.
Qed.





End Failures.

Lemma validateDbKey_ok (now : string) (req : Request) (next : M Response)
  (st : State) :
  dbKey_ok (query_dbKey req) = true -> body_dbKey req = None ->
  validateDbKey now req next st = next st.
Proof.
  intros Hk Hb. unfold validateDbKey. rewrite Hb. cbn [truthy].
  destruct (truthy (query_dbKey req)) as [k|] eqn:T; [|reflexivity].
  apply truthy_Some in T as T'. destruct T' as [Hq _]. rewrite Hq in Hk, T.
  unfold bind, try_catch, dbKeySchema.
  rewrite (dbKey_issues_ok false k T Hk). reflexivity.
Qed.

(** With a key that is absent or valid, the middleware hands the request
    to the route. *)
Lemma validateDbKey_passes (now : string) (req : Request) (next : M Response)
  (st : State) :
  dbKey_ok (requested_dbKey req) = true ->
  validateDbKey now req next st = next st.
Proof.
  unfold validateDbKey, requested_dbKey. intros Hk.
  destruct (match truthy (query_dbKey req) with
            | Some k => Some k
            | None => truthy (body_dbKey req)
            end) as [k|] eqn:T; [|reflexivity].
  assert (truthy (Some k) = Some k) as Tk.
  { destruct (truthy (query_dbKey req)) as [k'|] eqn:Tq.
    - injection T as ->. apply truthy_Some in Tq as [_ Hl].
      destruct k; [simpl in Hl; lia | reflexivity].
    - apply truthy_Some in T as [_ Hl].
      destruct k; [simpl in Hl; lia | reflexivity]. }
  unfold bind, try_catch, dbKeySchema.
  rewrite (dbKey_issues_ok false k Tk Hk). reflexivity.
Qed.

Lemma errorHandler_never_throws (now : string) (req : Request) (e : JsError) :
  never_throws (errorHandler now req e).
Proof. intros st. do 2 eexists. reflexivity. Qed.

Lemma validateDbKey_never_throws (now : string) (req : Request)
  (next : M Response) :
  never_throws next -> never_throws (validateDbKey now req next).
Proof.
  intros Hn st. unfold validateDbKey.
  destruct (match truthy (query_dbKey req) with
            | Some k => Some k
            | None => truthy (body_dbKey req)
            end) as [k|]; [|apply Hn].
  unfold bind, try_catch.
  destruct (validate_cases (dbKeySchema (Some k)) st)
    as [(a & _ & ->) | (i & msg & _ & ->)]; cbn.
  - apply Hn.
  - do 2 eexists. reflexivity.
Qed.

Lemma GET_resources_never_throws (drv : Driver)
  (dbConfigs : list (string * DbConfig)) (now : string) (req : Request) :
  never_throws (GET_resources drv dbConfigs now req).
Proof.
  apply validateDbKey_never_throws, try_catch_never_throws.
  intros e. apply errorHandler_never_throws.
Qed.





(* ===================================================================== *)
(** * 27. The classifier: case, padding and the read-only flag *)
(* ===================================================================== *)

Lemma trimEnd_all_ws (b : string) : all_ws b = true -> trimEnd b = "".
Proof. destruct b as [|c b]; [reflexivity|]. intros H. cbn [trimEnd]. now rewrite H. Qed.

Lemma all_ws_append (s b : string) :
  all_ws (s +:+ b) = all_ws s && all_ws b.
Proof.
  induction s as [|c s IH]; [reflexivity|]. simpl.
  destruct (is_ws c); [exact IH | reflexivity].
Qed.

Lemma trimEnd_append_ws (s b : string) :
  all_ws b = true -> trimEnd (s +:+ b) = trimEnd s.
Proof.
  intros Hb. induction s as [|c s IH]; [now apply trimEnd_all_ws|].
  change (String c s +:+ b) with (String c (s +:+ b)). cbn [trimEnd].
  change (String c (s +:+ b)) with (String c s +:+ b) at 1.
  rewrite all_ws_append, Hb, andb_true_r, IH. reflexivity.
Qed.

Lemma trimStart_ws_append (a s : string) :
  all_ws a = true -> trimStart (a +:+ s) = trimStart s.
Proof.
  induction a as [|c a IH]; [reflexivity|]. simpl.
  destruct (is_ws c); [exact IH | discriminate].
Qed.

Lemma trimStart_append_ws (s b : string) :
  all_ws b = true ->
  exists b', trimStart (s +:+ b) = trimStart s +:+ b' /\ all_ws b' = true.
Proof.
  intros Hb. induction s as [|c s (b' & IH & Hb')].
  - exists "". simpl. split; [|reflexivity].
    destruct (trimStart_spec b) as (x & Hx & _).
    destruct (trimEnd_spec (trimStart b)) as (y & Hy & _).
    clear Hx Hy x y. induction b as [|d b IHb]; [reflexivity|].
    simpl in *. destruct (is_ws d); [now apply IHb | discriminate].
  - simpl. destruct (is_ws c).
    + exists b'. auto.
    + exists b. auto.
Qed.

(** White space around a query does not reach the patterns. *)
Lemma trim_padding (a q b : string) :
  all_ws a = true -> all_ws b = true -> trim (a +:+ q +:+ b) = trim q.
Proof.
  intros Ha Hb. unfold trim. rewrite (trimStart_ws_append a _ Ha).
  destruct (trimStart_append_ws q b Hb) as (b' & -> & Hb').
  now apply trimEnd_append_ws.
Qed.

Lemma is_ws_toUpperChar (c : ascii) : is_ws (toUpperChar c) = is_ws c.
Proof. destruct c as [[] [] [] [] [] [] [] []]; reflexivity. Qed.

Lemma is_ws_toLowerChar (c : ascii) : is_ws (toLowerChar c) = is_ws c.
Proof. destruct c as [[] [] [] [] [] [] [] []]; reflexivity. Qed.

Lemma toUpperChar_toLowerChar (c : ascii) :
  toUpperChar (toLowerChar c) = toUpperChar c.
Proof. destruct c as [[] [] [] [] [] [] [] []]; reflexivity. Qed.

Lemma toUpperCase_toLowerCase (s : string) :
  toUpperCase (toLowerCase s) = toUpperCase s.
Proof.
  induction s as [|c s IH]; simpl; [reflexivity|].
  now rewrite toUpperChar_toLowerChar, IH.
Qed.

Lemma all_ws_toUpperCase (s : string) : all_ws (toUpperCase s) = all_ws s.
Proof.
  induction s as [|c s IH]; simpl; [reflexivity|].
  now rewrite is_ws_toUpperChar, IH.
Qed.

Lemma trimStart_toUpperCase (s : string) :
  trimStart (toUpperCase s) = toUpperCase (trimStart s).
Proof.
  induction s as [|c s IH]; simpl; [reflexivity|].
  rewrite is_ws_toUpperChar. destruct (is_ws c); [exact IH | reflexivity].
Qed.

Lemma trimEnd_toUpperCase (s : string) :
  trimEnd (toUpperCase s) = toUpperCase (trimEnd s).
Proof.
  induction s as [|c s IH]; [reflexivity|].
  change (toUpperCase (String c s)) with (String (toUpperChar c) (toUpperCase s)).
  cbn [trimEnd].
  change (String (toUpperChar c) (toUpperCase s)) with (toUpperCase (String c s)).
  rewrite all_ws_toUpperCase.
  destruct (all_ws (String c s)); [reflexivity|].
  simpl. now rewrite IH.
Qed.

(** Upper-casing and trimming commute. *)
Lemma trim_toUpperCase (s : string) :
  trim (toUpperCase s) = toUpperCase (trim s).
Proof. unfold trim. now rewrite trimStart_toUpperCase, trimEnd_toUpperCase. Qed.

Lemma upper_trim_of_upper (s t : string) :
  toUpperCase s = toUpperCase t ->
  toUpperCase (trim s) = toUpperCase (trim t).
Proof. intros H. now rewrite <- !trim_toUpperCase, H. Qed.

(** X1: for a query of ASCII characters, the verdict of [isSafeQuery]
    depends neither on the case of its letters nor on white space (TAB,
    LF, VT, FF, CR, SPACE) around it. *)
Theorem isSafeQuery_ignores_case_and_padding
  (env : gmap string string) (q a b : string) :
  ascii_text q = true ->
  all_ws a = true -> all_ws b = true ->
  isSafeQuery env (a +:+ q +:+ b) = isSafeQuery env q
  /\ isSafeQuery env (toLowerCase q) = isSafeQuery env q
  /\ isSafeQuery env (toUpperCase q) = isSafeQuery env q.
Proof.
  intros _ Ha Hb. unfold isSafeQuery. split; [|split].
  - now rewrite (trim_padding a q b Ha Hb).
  - now rewrite (upper_trim_of_upper (toLowerCase q) q (toUpperCase_toLowerCase q)).
  - now rewrite (upper_trim_of_upper (toUpperCase q) q (toUpperCase_idem q)).
Qed.

Lemma isSafeQuery_ignores_case_and_padding_witness :
  ascii_text "Drop Table t" = true
  /\ isSafeQuery env_rw ("  " +:+ "Drop Table t" +:+ newline) = false
  /\ isSafeQuery env_rw (toLowerCase "Drop Table t") = false.
Proof.
  destruct (isSafeQuery_ignores_case_and_padding env_rw "Drop Table t"
              "  " newline eq_refl eq_refl eq_refl) as (H1 & H2 & _).
  split; [reflexivity|].
  rewrite H1, H2. vm_compute. split; reflexivity.
Defined.

(** X2: the read-only flag only adds deny patterns: a query that is safe
    in read-only mode is safe in the other mode as well. *)
Theorem isSafeQuery_readonly_is_stricter
  (env_strict env_lax : gmap string string) (q : string) :
  is_readonly env_lax = false ->
  isSafeQuery env_strict q = true -> isSafeQuery env_lax q = true.
Proof.
  intros Hl Hs. destruct (isSafeQuery env_lax q) eqn:E; [reflexivity|].
  apply isSafeQuery_spec in E. rewrite Hl in E.
  apply (Denied_readonly_mono (is_readonly env_strict)) in E.
  apply isSafeQuery_spec in E. congruence.
Qed.

Lemma isSafeQuery_readonly_is_stricter_witness :
  isSafeQuery env_ro "SELECT 1" = true /\ isSafeQuery env_rw "SELECT 1" = true.
Proof.
  assert (isSafeQuery env_ro "SELECT 1" = true) as H by (vm_compute; reflexivity).
  split; [exact H|].
  exact (isSafeQuery_readonly_is_stricter env_ro env_rw "SELECT 1" eq_refl H).
Defined.

(* ===================================================================== *)
(** * 28. Validation: what exactly is accepted *)
(* ===================================================================== *)

(** The three checks of an identifier schema fail on nothing exactly when
    the text is an identifier of the allowed length. *)
Lemma ident_checks (max : nat) (m1 m2 m3 : string) (s : string) :
  failed_checks s [Min 1 m1; Max max m2; Regex word_plus m3] = []
  <-> ident_ok max s = true.
Proof.
  unfold ident_ok. cbn [failed_checks check_issue].
  rewrite word_plus_fullmatch.
  destruct (String.length s <? 1)%nat eqn:E1;
    destruct (max <? String.length s)%nat eqn:E2;
    destruct (Re.all_in is_word s) eqn:E3;
    destruct (1 <=? String.length s)%nat eqn:E4;
    destruct (String.length s <=? max)%nat eqn:E5;
    cbn; split; intros H; try discriminate H; try reflexivity;
    repeat match goal with
           | E : (_ <? _)%nat = true |- _ => apply Nat.ltb_lt in E
           | E : (_ <? _)%nat = false |- _ => apply Nat.ltb_ge in E
           | E : (_ <=? _)%nat = true |- _ => apply Nat.leb_le in E
           | E : (_ <=? _)%nat = false |- _ => apply Nat.leb_gt in E
           end; lia.
Qed.

Lemma query_checks (s : string) :
  failed_checks s sqlQuery_checks = [] <-> query_ok s = true.
Proof.
  unfold query_ok, sqlQuery_checks. cbn [failed_checks check_issue].
  destruct (String.length s <? 1)%nat eqn:E1;
    destruct (10000 <? String.length s)%nat eqn:E2;
    destruct (1 <=? String.length s)%nat eqn:E4;
    destruct (String.length s <=? 10000)%nat eqn:E5;
    cbn; split; intros H; try discriminate H; try reflexivity;
    repeat match goal with
           | E : (_ <? _)%nat = true |- _ => apply Nat.ltb_lt in E
           | E : (_ <? _)%nat = false |- _ => apply Nat.ltb_ge in E
           | E : (_ <=? _)%nat = true |- _ => apply Nat.leb_le in E
           | E : (_ <=? _)%nat = false |- _ => apply Nat.leb_gt in E
           end; lia.
Qed.

(** X3: [validate] with the merged schemas accepts exactly a database key
    of 1 to 50 and a table name of 1 to 128 letters, digits and
    underscores, and a query of 1 to 10000 characters.  What it accepts
    comes back unchanged; anything else is thrown as an error whose
    message starts with Validation failed; the state is never touched. *)
Theorem validate_accepts_exactly (k table query : string) (st : State) :
  (if ident_ok 50 k && ident_ok 128 table
   then validate (dbKeyTableSchema false (Some k) table) st
        = (Return (Some k, table), st)
   else exists msg,
          validate (dbKeyTableSchema false (Some k) table) st
          = (Throw (Error ("Validation failed: " +:+ msg)), st))
  /\ (if ident_ok 50 k && query_ok query
      then validate (dbKeyQuerySchema false (Some k) query) st
           = (Return (Some k, query), st)
      else exists msg,
             validate (dbKeyQuerySchema false (Some k) query) st
             = (Throw (Error ("Validation failed: " +:+ msg)), st)).
Proof.
  pose proof (ident_checks 50 "Database key cannot be empty"
                "Database key is too long"
                "Database key can only contain alphanumeric characters and underscores"
                k) as Hk.
  pose proof (ident_checks 128 "Table name cannot be empty"
                "Table name is too long"
                "Table name can only contain alphanumeric characters and underscores"
                table) as Ht.
  pose proof (query_checks query) as Hq.
  split.
  - unfold dbKeyTableSchema.
    pose proof (validate_issues
                  (field_issues false "dbKey" dbKey_checks (Some k)
                   ++ field_issues false "table" tableName_checks (Some table))
                  (Some k, table) st) as V.
    destruct (ident_ok 50 k && ident_ok 128 table) eqn:E.
    + apply andb_true_iff in E as [E1 E2]. apply Hk in E1. apply Ht in E2.
      unfold field_issues, string_issues, dbKey_checks, tableName_checks in *.
      rewrite E1, E2 in *. exact V.
    + destruct (_ ++ _) as [|i l] eqn:I; [|eexists; exact V].
      exfalso. apply app_eq_nil_iff in I as [I1 I2].
      unfold field_issues, string_issues in I1, I2.
      apply map_eq_nil_iff in I1, I2. apply Hk in I1. apply Ht in I2.
      rewrite I1, I2 in E. discriminate.
  - unfold dbKeyQuerySchema.
    pose proof (validate_issues
                  (field_issues false "dbKey" dbKey_checks (Some k)
                   ++ field_issues false "query" sqlQuery_checks (Some query))
                  (Some k, query) st) as V.
    destruct (ident_ok 50 k && query_ok query) eqn:E.
    + apply andb_true_iff in E as [E1 E2]. apply Hk in E1. apply Hq in E2.
      unfold field_issues, string_issues, dbKey_checks in *.
      rewrite E1, E2 in *. exact V.
    + destruct (_ ++ _) as [|i l] eqn:I; [|eexists; exact V].
      exfalso. apply app_eq_nil_iff in I as [I1 I2].
      unfold field_issues, string_issues in I1, I2.
      apply map_eq_nil_iff in I1, I2. apply Hk in I1. apply Hq in I2.
      rewrite I1, I2 in E. discriminate.
Qed.

Example validate_rejects_bracket :
  fst (validate (dbKeyTableSchema false (Some "maindb") "Orders]; DROP TABLE x") 
         (initial_state single_dbConfigs))
  = Throw (Error ("Validation failed: table: Table name can only contain "
                  +:+ "alphanumeric characters and underscores")).
Proof. vm_compute. reflexivity. Qed.

(* ===================================================================== *)
(** * 29. The tools: what reaches the driver, and pool reuse *)
(* ===================================================================== *)

Lemma dbKey_issues_nil (dbKey : option string) :
  match truthy dbKey with
  | Some k => field_issues false "dbKey" dbKey_checks (Some k)
  | None => field_issues true "dbKey" dbKey_checks None
  end = [] ->
  dbKey_ok dbKey = true.
Proof.
  unfold dbKey_ok. destruct (truthy dbKey) as [k|]; [|reflexivity].
  unfold field_issues, string_issues, dbKey_checks. intros H.
  apply map_eq_nil_iff, ident_checks in H. unfold ident_ok in H.
  apply andb_true_iff in H as [H H3]. apply andb_true_iff in H as [H1 H2].
  rewrite word_plus_fullmatch, H1, H2, H3. reflexivity.
Qed.

(** What [executeSql] has checked when its validation returns. *)
Lemma query_schema_accepts (dbKey : option string) (query : string)
  (a : option string * string) :
  match truthy dbKey with
  | Some k => dbKeyQuerySchema false (Some k) query
  | None => dbKeyQuerySchema true None query
  end = inr a ->
  snd a = query /\ query_ok query = true /\ dbKey_ok dbKey = true.
Proof.
  intros H.
  assert (match truthy dbKey with
          | Some k => field_issues false "dbKey" dbKey_checks (Some k)
          | None => field_issues true "dbKey" dbKey_checks None
          end ++ field_issues false "query" sqlQuery_checks (Some query) = []
          /\ snd a = query) as [I Ha].
  { unfold dbKeyQuerySchema, parsed in H.
    destruct (truthy dbKey); destruct (_ ++ _); try discriminate;
      injection H as <-; auto. }
  apply app_eq_nil_iff in I as [I1 I2].
  split; [exact Ha|]. split; [|now apply dbKey_issues_nil].
  unfold field_issues, string_issues in I2.
  now apply map_eq_nil_iff, query_checks in I2.
Qed.

Lemma table_schema_accepts (dbKey : option string) (table : string)
  (a : option string * string) :
  match truthy dbKey with
  | Some k => dbKeyTableSchema false (Some k) table
  | None => dbKeyTableSchema true None table
  end = inr a ->
  snd a = table /\ table_ok table = true /\ dbKey_ok dbKey = true.
Proof.
  intros H.
  assert (match truthy dbKey with
          | Some k => field_issues false "dbKey" dbKey_checks (Some k)
          | None => field_issues true "dbKey" dbKey_checks None
          end ++ field_issues false "table" tableName_checks (Some table) = []
          /\ snd a = table) as [I Ha].
  { unfold dbKeyTableSchema, parsed in H.
    destruct (truthy dbKey); destruct (_ ++ _); try discriminate;
      injection H as <-; auto. }
  apply app_eq_nil_iff in I as [I1 I2].
  split; [exact Ha|]. split; [|now apply dbKey_issues_nil].
  unfold field_issues, string_issues, tableName_checks in I2.
  apply map_eq_nil_iff, ident_checks in I2. unfold ident_ok in I2.
  apply andb_true_iff in I2 as [I2 H3]. apply andb_true_iff in I2 as [H1 H2].
  unfold table_ok. rewrite word_plus_fullmatch, H1, H2, H3. reflexivity.
Qed.

(** X4: whatever its arguments, [executeSql] sends at most one statement
    to the driver; when it sends one, it is the caller's query, character
    for character and without inputs, and that query has passed the length
    check and the safety classifier. *)
Theorem executeSql_sends_only_the_checked_query
  (drv : Driver) (dbConfigs : list (string * DbConfig))
  (env : gmap string string) (query : string) (dbKey : option string)
  (st : State) :
  exists evs,
    trace (snd (executeSql drv dbConfigs env query dbKey st)) = trace st ++ evs
    /\ (queries evs = []
        \/ (queries evs = [(query, [])]
            /\ isSafeQuery env query = true
            /\ query_ok query = true /\ dbKey_ok dbKey = true)).
Proof.
  unfold executeSql, try_catch, bind.
  destruct (validate_cases
              (match truthy dbKey with
               | Some k => dbKeyQuerySchema false (Some k) query
               | None => dbKeyQuerySchema true None query
               end) st) as [(a & Ha & ->) | (issues & msg & Hi & ->)].
  - apply query_schema_accepts in Ha as (-> & Hq & Hk).
    destruct (isSafeQuery env query) eqn:S; cbn [negb].
    + destruct (getPool_trace drv dbConfigs dbKey st) as (evs0 & Htr & Hq0).
      destruct (getPool drv dbConfigs dbKey st) as [[pool|e] st1] eqn:G;
        cbn [snd] in Htr.
      * exists (evs0 ++ [EvQuery (pool_id pool) query []]). split.
        -- unfold pool_query.
           destruct (drv_query drv _ _ _ _) as [m|r]; cbn;
             rewrite Htr, app_assoc; reflexivity.
        -- right. rewrite queries_app, Hq0. auto.
      * exists evs0. split; [cbn; exact Htr | left; exact Hq0].
    + exists []. cbn. rewrite app_nil_r. auto.
  - exists []. cbn. rewrite app_nil_r. auto.
Qed.

(** X5: whatever its arguments, [getTableSchema] sends at most one
    statement; when it sends one, it is the fixed column query, and the
    table name travels as the input [tableName], never inside the SQL
    text; that name has passed the identifier check. *)
Theorem getTableSchema_sends_fixed_statement
  (drv : Driver) (dbConfigs : list (string * DbConfig))
  (table : string) (dbKey : option string) (st : State) :
  exists evs,
    trace (snd (getTableSchema drv dbConfigs table dbKey st)) = trace st ++ evs
    /\ (queries evs = []
        \/ (queries evs = [(schema_sql, [("tableName", table)])]
            /\ table_ok table = true /\ dbKey_ok dbKey = true)).
Proof.
  unfold getTableSchema, try_catch, bind.
  destruct (validate_cases
              (match truthy dbKey with
               | Some k => dbKeyTableSchema false (Some k) table
               | None => dbKeyTableSchema true None table
               end) st) as [(a & Ha & ->) | (issues & msg & Hi & ->)].
  - apply table_schema_accepts in Ha as (-> & Ht & Hk).
    destruct (getPool_trace drv dbConfigs dbKey st) as (evs0 & Htr & Hq0).
    destruct (getPool drv dbConfigs dbKey st) as [[pool|e] st1] eqn:G;
      cbn [snd] in Htr.
    + exists (evs0 ++ [EvQuery (pool_id pool) schema_sql [("tableName", table)]]).
      split.
      * unfold pool_query.
        destruct (drv_query drv _ _ _ _) as [m|r];
          [| destruct (recordset r) as [[|c cs]|]]; cbn;
          rewrite Htr, app_assoc; reflexivity.
      * right. rewrite queries_app, Hq0. auto.
    + exists evs0. split; [cbn; exact Htr | left; exact Hq0].
  - exists []. cbn. rewrite app_nil_r. auto.
Qed.

Lemma getPool_unresolved (drv : Driver) (dbConfigs : list (string * DbConfig))
  (dbKey : option string) (st : State) :
  match prop (prop_name dbKey) dbConfigs with
  | Some c => Some c
  | None => head (Object_values dbConfigs)
  end = None ->
  dbConfigs = []
  /\ getPool drv dbConfigs dbKey st
     = (Throw (Error "No database configuration found."), st).
Proof.
  intros H. split.
  - destruct (prop (prop_name dbKey) dbConfigs); [discriminate|].
    destruct dbConfigs; [reflexivity | discriminate].
  - unfold getPool. rewrite H. reflexivity.
Qed.

(** A pool that [getPool] returns is the one in the cache. *)
Lemma getPool_Return_cached (drv : Driver) (dbConfigs : list (string * DbConfig))
  (dbKey : option string) (st st' : State) (pool : Pool) :
  getPool drv dbConfigs dbKey st = (Return pool, st') ->
  pools st' !! default "default" (truthy dbKey) = Some pool
  /\ exists config,
       match prop (prop_name dbKey) dbConfigs with
       | Some c => Some c
       | None => head (Object_values dbConfigs)
       end = Some config.
Proof.
  intros H.
  destruct (match prop (prop_name dbKey) dbConfigs with
            | Some c => Some c
            | None => head (Object_values dbConfigs)
            end) as [config|] eqn:Hc.
  - split; [|eauto].
    rewrite (getPool_resolved drv dbConfigs dbKey config st Hc) in H.
    cbv zeta in H.
    destruct (pools st !! _) as [p0|] eqn:L.
    + injection H as <- <-. exact L.
    + destruct (drv_connect drv _ _); [discriminate|].
      injection H as <- <-. cbn. apply lookup_insert_eq.
  - destruct (getPool_unresolved drv dbConfigs dbKey st Hc) as [_ E].
    rewrite E in H. discriminate.
Qed.

(** With the pool in the cache, [getPool] returns it and does nothing. *)
Lemma getPool_hit (drv : Driver) (dbConfigs : list (string * DbConfig))
  (dbKey : option string) (config : DbConfig) (st : State) (pool : Pool) :
  match prop (prop_name dbKey) dbConfigs with
  | Some c => Some c
  | None => head (Object_values dbConfigs)
  end = Some config ->
  pools st !! default "default" (truthy dbKey) = Some pool ->
  getPool drv dbConfigs dbKey st = (Return pool, st).
Proof.
  intros Hc L. rewrite (getPool_resolved drv dbConfigs dbKey config st Hc).
  cbv zeta. now rewrite L.
Qed.

(** What a result without the error flag tells about a run of
    [executeSql]. *)
Lemma executeSql_success_inv
  (drv : Driver) (dbConfigs : list (string * DbConfig))
  (env : gmap string string) (query : string) (dbKey : option string)
  (st st1 : State) (r : ToolResult) :
  executeSql drv dbConfigs env query dbKey st = (Return r, st1) ->
  isError r = false ->
  exists pool st0,
    getPool drv dbConfigs dbKey st = (Return pool, st0)
    /\ pools st1 = pools st0 /\ dbKey_ok dbKey = true.
Proof.
  unfold executeSql, try_catch, bind. intros H E.
  destruct (validate_cases
              (match truthy dbKey with
               | Some k => dbKeyQuerySchema false (Some k) query
               | None => dbKeyQuerySchema true None query
               end) st) as [(a & Ha & Hv) | (issues & msg & Hi & Hv)];
    rewrite Hv in H.
  - apply query_schema_accepts in Ha as (Ha & Hq & Hk). rewrite Ha in H.
    destruct (isSafeQuery env query); cbn [negb] in H.
    + destruct (getPool drv dbConfigs dbKey st) as [[pool|e] st0] eqn:G.
      * exists pool, st0. split; [reflexivity|]. split; [|exact Hk].
        unfold pool_query in H.
        destruct (drv_query drv _ _ _ _) as [m|res];
          cbv beta iota zeta delta [ret modify bind] in H.
        -- injection H as <- _. discriminate E.
        -- injection H as _ <-. reflexivity.
      * cbn in H. injection H as <- _. discriminate E.
    + cbn in H. injection H as <- _. discriminate E.
  - cbn in H. injection H as <- _. discriminate E.
Qed.

(** X6: once [executeSql] has succeeded for a key, the pool it used is in
    the cache, and a later [executeSql] or [getTableSchema] for the same
    key opens no connection: it adds exactly its one statement, on that
    pool, to the driver trace and leaves the cache and the pool counter
    alone. *)
Theorem later_operations_reuse_the_pool
  (drv : Driver) (dbConfigs : list (string * DbConfig))
  (env : gmap string string) (q1 q2 table : string) (dbKey : option string)
  (st st1 : State) (r1 : ToolResult) :
  executeSql drv dbConfigs env q1 dbKey st = (Return r1, st1) ->
  isError r1 = false ->
  query_ok q2 = true -> isSafeQuery env q2 = true -> table_ok table = true ->
  exists pool,
    pools st1 !! default "default" (truthy dbKey) = Some pool
    /\ (let st2 := snd (executeSql drv dbConfigs env q2 dbKey st1) in
        trace st2 = trace st1 ++ [EvQuery (pool_id pool) q2 []]
        /\ pools st2 = pools st1 /\ next_pool_id st2 = next_pool_id st1)
    /\ (let st2 := snd (getTableSchema drv dbConfigs table dbKey st1) in
        trace st2
        = trace st1 ++ [EvQuery (pool_id pool) schema_sql [("tableName", table)]]
        /\ pools st2 = pools st1 /\ next_pool_id st2 = next_pool_id st1).
Proof.
  intros H E Hq2 Hs2 Ht.
  destruct (executeSql_success_inv drv dbConfigs env q1 dbKey st st1 r1 H E)
    as (pool & st0 & G & Hp & Hk).
  destruct (getPool_Return_cached drv dbConfigs dbKey st st0 pool G)
    as (L & config & Hc).
  rewrite <- Hp in L. exists pool. split; [exact L|].
  pose proof (getPool_hit drv dbConfigs dbKey config st1 pool Hc L) as G1.
  split.
  - unfold executeSql, try_catch, bind.
    rewrite (validate_query_ok q2 dbKey st1 Hq2 Hk). cbn [snd].
    rewrite Hs2. cbn [negb]. rewrite G1. unfold pool_query.
    destruct (drv_query drv _ _ _ _); cbn; auto.
  - unfold getTableSchema, try_catch, bind.
    rewrite (validate_table_ok table dbKey st1 Ht Hk). cbn [snd].
    rewrite G1. unfold pool_query.
    destruct (drv_query drv _ _ _ _) as [m|res];
      [| destruct (recordset res) as [[|c cs]|]]; cbn; auto.
Qed.

Lemma later_operations_reuse_the_pool_witness :
  let st := initial_state single_dbConfigs in
  let st1 := snd (executeSql drv_up single_dbConfigs env_rw "SELECT 1" None st) in
  trace (snd (executeSql drv_up single_dbConfigs env_rw "SELECT 2" None st1))
  = [ EvNew 0 (sample_config "foo" "s3cret"); EvConnect 0;
      EvQuery 0 "SELECT 1" []; EvQuery 0 "SELECT 2" [] ].
Proof.
  intros st st1.
  assert (exists r1, executeSql drv_up single_dbConfigs env_rw "SELECT 1" None st
                     = (Return r1, st1) /\ isError r1 = false) as (r1 & H & E).
  { eexists. split; [vm_compute; reflexivity | reflexivity]. }
  destruct (later_operations_reuse_the_pool drv_up single_dbConfigs env_rw
              "SELECT 1" "SELECT 2" "Orders" None st st1 r1 H E
              eq_refl ltac:(vm_compute; reflexivity) eq_refl)
    as (pool & L & (T & _) & _).
  rewrite T.
  assert (pool = mkPool 0 (sample_config "foo" "s3cret") "default") as ->.
  { vm_compute in L. injection L as <-. reflexivity. }
  vm_compute. reflexivity.
Defined.

(** X7: when [getPool] throws, the pool cache is as before.  Either the
    configuration table is empty, the error is the configuration error and
    nothing has changed; or the cache held no pool for the key, a pool was
    constructed and counted, and the error is the one the driver's
    [connect] gave for it. *)
Theorem getPool_failure_is_not_cached
  (drv : Driver) (dbConfigs : list (string * DbConfig))
  (dbKey : option string) (st st' : State) (e : JsError) :
  getPool drv dbConfigs dbKey st = (Throw e, st') ->
  pools st' = pools st
  /\ ((dbConfigs = [] /\ e = Error "No database configuration found."
       /\ st' = st)
      \/ (let poolKey := default "default" (truthy dbKey) in
          pools st !! poolKey = None
          /\ exists config msg,
               e = Error msg
               /\ drv_connect drv (trace st ++ [EvNew (next_pool_id st) config])
                    (mkPool (next_pool_id st) config poolKey) = Some msg
               /\ st' = after_connect config poolKey st)).
Proof.
  intros H.
  destruct (match prop (prop_name dbKey) dbConfigs with
            | Some c => Some c
            | None => head (Object_values dbConfigs)
            end) as [config|] eqn:Hc.
  - rewrite (getPool_resolved drv dbConfigs dbKey config st Hc) in H.
    cbv zeta in H.
    destruct (pools st !! _) as [p0|] eqn:L; [discriminate|].
    destruct (drv_connect drv _ _) as [msg|] eqn:D; [|discriminate].
    injection H as <- <-. split; [reflexivity|]. right. cbv zeta.
    split; [exact L|]. exists config, msg. auto.
  - destruct (getPool_unresolved drv dbConfigs dbKey st Hc) as [Hd E].
    rewrite E in H. injection H as <- <-. auto.
Qed.

Lemma getPool_failure_is_not_cached_witness :
  let st := initial_state single_dbConfigs in
  exists st',
    getPool drv_down single_dbConfigs (Some "maindb") st
    = (Throw (Error "Failed to connect to localhost:1433"), st')
    /\ pools st' = pools st.
Proof.
  intros st.
  assert (exists st',
             getPool drv_down single_dbConfigs (Some "maindb") st
             = (Throw (Error "Failed to connect to localhost:1433"), st'))
    as (st' & H).
  { assert (match prop (prop_name (Some "maindb")) single_dbConfigs with
            | Some c => Some c
            | None => head (Object_values single_dbConfigs)
            end = Some (sample_config "foo" "s3cret")) as Hc by reflexivity.
    rewrite (getPool_resolved drv_down single_dbConfigs (Some "maindb")
               (sample_config "foo" "s3cret") st Hc).
    cbn. rewrite lookup_empty. eexists. reflexivity. }
  exists st'. split; [exact H|].
  exact (proj1 (getPool_failure_is_not_cached drv_down single_dbConfigs
                  (Some "maindb") st st' _ H)).
Defined.

(* ===================================================================== *)
(** * 30. Resources: the listing cache and the listed URIs *)
(* ===================================================================== *)

Lemma getPool_timers (drv : Driver) (dbConfigs : list (string * DbConfig))
  (dbKey : option string) (st : State) :
  timers (snd (getPool drv dbConfigs dbKey st)) = timers st.
Proof.
  destruct (match prop (prop_name dbKey) dbConfigs with
            | Some c => Some c
            | None => head (Object_values dbConfigs)
            end) as [config|] eqn:Hc.
  - rewrite (getPool_resolved drv dbConfigs dbKey config st Hc). cbv zeta.
    destruct (pools st !! _); [reflexivity|].
    destruct (drv_connect drv _ _); reflexivity.
  - unfold getPool. rewrite Hc. reflexivity.
Qed.

(** X8: a listing that succeeds on a cache miss is stored under the cache
    key and one expiry timer is registered for that key.  Until the timer
    fires, [listResources] for the key returns the stored list without
    touching the state, whatever the driver would answer now; when the
    timer fires the entry is removed and the pool cache is left alone. *)
Theorem listResources_cache_life_cycle
  (drv : Driver) (dbConfigs : list (string * DbConfig))
  (dbKey : option string) (st st0 : State) (pool : Pool)
  (rows : list Row) (affected : list Z) :
  dbKey_ok dbKey = true ->
  resourceCache st !! default "default" (truthy dbKey) = None ->
  getPool drv dbConfigs dbKey st = (Return pool, st0) ->
  drv_query drv (trace st0) pool tables_sql []
  = inr (mkQueryOk (Some rows) affected) ->
  let cacheKey := default "default" (truthy dbKey) in
  let resources := map resource_of_row rows in
  exists st1,
    listResources drv dbConfigs dbKey st = (Return resources, st1)
    /\ resourceCache st1 !! cacheKey = Some resources
    /\ timers st1 = timers st ++ [cacheKey]
    /\ (forall drv', listResources drv' dbConfigs dbKey st1
                     = (Return resources, st1))
    /\ resourceCache (snd (timer_fires cacheKey st1)) !! cacheKey = None
    /\ pools (snd (timer_fires cacheKey st1)) = pools st1.
Proof.
  intros Hk Hc G Hq cacheKey resources.
  pose proof (getPool_frame drv dbConfigs dbKey st) as [_ Hres].
  pose proof (getPool_timers drv dbConfigs dbKey st) as Htim.
  rewrite G in Hres, Htim. cbn [snd] in Hres, Htim.
  eexists. split.
  - unfold listResources, bind, get. rewrite Hc. unfold try_catch, bind.
    rewrite (validate_dbKey_if_given_ok dbKey st Hk), G.
    unfold pool_query. rewrite Hq. cbn. reflexivity.
  - cbn. split; [apply lookup_insert_eq|].
    split; [now rewrite Htim|]. split.
    + intros drv'. unfold listResources, bind, get. cbn.
      fold cacheKey. rewrite lookup_insert_eq. reflexivity.
    + split; [apply lookup_delete_eq | reflexivity].
Qed.

Lemma listResources_cache_life_cycle_witness :
  let st := initial_state single_dbConfigs in
  let st1 := snd (listResources drv_rows single_dbConfigs None st) in
  fst (listResources drv_rows single_dbConfigs None st)
  = Return [resource_of_row [("id", VNum 1); ("note", VStr awkward); ("gone", VNull)]]
  /\ listResources drv_down single_dbConfigs None st1
     = (Return [resource_of_row [("id", VNum 1); ("note", VStr awkward); ("gone", VNull)]],
        st1).
Proof.
  intros st st1.
  assert (exists pool st0,
             getPool drv_rows single_dbConfigs None st = (Return pool, st0)
             /\ drv_query drv_rows (trace st0) pool tables_sql []
                = inr (mkQueryOk
                         (Some [[("id", VNum 1); ("note", VStr awkward); ("gone", VNull)]])
                         [1%Z])) as (pool & st0 & G & Hq).
  { assert (match prop (prop_name None) single_dbConfigs with
            | Some c => Some c
            | None => head (Object_values single_dbConfigs)
            end = Some (sample_config "foo" "s3cret")) as Hc by reflexivity.
    rewrite (getPool_resolved drv_rows single_dbConfigs None
               (sample_config "foo" "s3cret") st Hc).
    cbn. rewrite lookup_empty. do 2 eexists. split; reflexivity. }
  destruct (listResources_cache_life_cycle drv_rows single_dbConfigs None
              st st0 pool _ _ eq_refl (lookup_empty _) G Hq)
    as (st1' & E & _ & _ & Hhit & _).
  assert (st1 = st1') as -> by (unfold st1; now rewrite E).
  split; [now rewrite E | apply Hhit].
Defined.





Example listed_uri_with_space_is_refused :
  let r := [("TABLE_NAME", VStr "Order Details")] in
  uri (resource_of_row r) = "mssql://Order Details/data"
  /\ trace (snd (readResource drv_up single_dbConfigs (uri (resource_of_row r))
                   None (initial_state single_dbConfigs))) = [].
Proof. vm_compute. split; reflexivity. Qed.

(* ===================================================================== *)
(** * 31. The HTTP server: requests answered before the database *)
(* ===================================================================== *)

(** X10: the middleware [validateDbKey] in front of every route.  The key
    it checks is the one of the query string or else the one of the body.
    Without a key, or with a key of 1 to 50 letters, digits and
    underscores, the route runs on the unchanged state.  With any other
    key the route does not run: the answer is status 400 with the
    validation message, and pools, resource cache and driver trace are
    left as they were. *)
Theorem validateDbKey_answers_400_or_passes
  (now : string) (req : Request) (next : M Response) (st : State) :
  match (match truthy (query_dbKey req) with
         | Some k => Some k
         | None => truthy (body_dbKey req)
         end) with
  | None => validateDbKey now req next st = next st
  | Some k =>
      if ident_ok 50 k
      then validateDbKey now req next st = next st
      else exists msg st',
          validateDbKey now req next st
          = (Return (mkResponse 400
                       (BJson (JObj [ ("error", JStr ("Validation failed: " +:+ msg));
                                      ("path", JStr (req_path req));
                                      ("timestamp", JStr now) ]))),
             st')
          /\ trace st' = trace st /\ pools st' = pools st
          /\ resourceCache st' = resourceCache st
  end.
Proof.
  unfold validateDbKey.
  destruct (match truthy (query_dbKey req) with
            | Some k => Some k
            | None => truthy (body_dbKey req)
            end) as [k|]; [|reflexivity].
  pose proof (validate_issues (field_issues false "dbKey" dbKey_checks (Some k))
                (Some k) st) as V.
  unfold bind, try_catch, dbKeySchema.
  destruct (ident_ok 50 k) eqn:E;
    pose proof (ident_checks 50 "Database key cannot be empty"
                  "Database key is too long"
                  "Database key can only contain alphanumeric characters and underscores"
                  k) as Hk.
  - apply Hk in E.
    unfold field_issues, string_issues, dbKey_checks in *. rewrite E in *.
    rewrite V. reflexivity.
  - destruct (field_issues false "dbKey" dbKey_checks (Some k)) as [|i l] eqn:I.
    + exfalso. unfold field_issues, string_issues in I.
      apply map_eq_nil_iff, Hk in I. congruence.
    + rewrite V. cbn. do 2 eexists. split; [reflexivity|].
      split; [|split]; reflexivity.
Qed.

Example validateDbKey_checks_the_body_key :
  let req := mkRequest "/execute-sql" None None (Some "main db") in
  res_status <$> (match fst (validateDbKey "T"
                               req (ret (mkResponse 200 (BText "ran")))
                               (initial_state single_dbConfigs)) with
                  | Return r => Some r
                  | Throw _ => None
                  end)
  = Some 400.
Proof. vm_compute. reflexivity. Qed.

(** X11: the status codes of GET /resource when the key is absent or
    valid.  A request without [uri] is answered 400 with the message that
    the parameter is required.  A request whose [uri] does not have the
    form mssql://NAME/data is answered 500, not 400: [readResource]
    throws the validation failure again as a database error, which
    carries no status code.  In both cases nothing is sent to the
    driver. *)
Theorem GET_resource_without_usable_uri
  (drv : Driver) (dbConfigs : list (string * DbConfig)) (now : string)
  (req : Request) (st : State) :
  dbKey_ok (query_dbKey req) = true -> body_dbKey req = None ->
  match truthy (query_uri req) with
  | Some u => Re.fullmatch resourceUri_re u = false
  | None => True
  end ->
  exists st',
    GET_resource drv dbConfigs now req st
    = (Return
         (match truthy (query_uri req) with
          | None =>
              mkResponse 400
                (BJson (JObj [ ("error", JStr "Parameter 'uri' is required");
                               ("path", JStr (req_path req));
                               ("timestamp", JStr now) ]))
          | Some _ =>
              mkResponse 500
                (BJson (JObj [ ("error",
                                JStr ("Database error: Validation failed: : "
                                      +:+ "URI must match the pattern "
                                      +:+ "mssql://<table_name>/data"));
                               ("path", JStr (req_path req));
                               ("timestamp", JStr now) ]))
          end),
       st')
    /\ trace st' = trace st /\ pools st' = pools st.
Proof.
  intros Hk Hb Hu. unfold GET_resource.
  rewrite (validateDbKey_ok now req _ st Hk Hb).
  destruct (truthy (query_uri req)) as [u|].
  - unfold try_catch, bind, readResource, try_catch, bind, resourceUriSchema,
      string_issues, resourceUri_checks.
    cbn [failed_checks check_issue]. rewrite Hu. cbn.
    eexists. split; [reflexivity|]. split; reflexivity.
  - cbn. eexists. split; [reflexivity|]. split; reflexivity.
Qed.

Lemma GET_resource_without_usable_uri_witness :
  res_status <$> (match fst (GET_resource drv_up single_dbConfigs "T"
                               (mkRequest "/resource" (Some "mssql://a.b/data")
                                  (Some "maindb") None)
                               (initial_state single_dbConfigs)) with
                  | Return r => Some r
                  | Throw _ => None
                  end)
  = Some 500.
Proof.
  destruct (GET_resource_without_usable_uri drv_up single_dbConfigs "T"
              (mkRequest "/resource" (Some "mssql://a.b/data") (Some "maindb") None)
              (initial_state single_dbConfigs) eq_refl eq_refl eq_refl)
    as (st' & E & _).
  rewrite E. reflexivity.
Defined.

(* ===================================================================== *)
(** * 32. The health route *)
(* ===================================================================== *)

(** A call of [getPool] is its part before the [await] followed by its
    part after it. *)
Lemma getPool_start_resume (drv : Driver) (dbConfigs : list (string * DbConfig))
  (dbKey : option string) (st : State) :
  getPool drv dbConfigs dbKey st
  = getPool_resume (fst (getPool_start drv dbConfigs dbKey st))
      (snd (getPool_start drv dbConfigs dbKey st)).
Proof.
  unfold getPool, getPool_start.
  destruct (match prop (prop_name dbKey) dbConfigs with
            | Some c => Some c
            | None => head (Object_values dbConfigs)
            end) as [config|]; [|reflexivity].
  cbv zeta. unfold bind at 1. unfold get.
  destruct (pools st !! default "default" (truthy dbKey)) as [p|]; [reflexivity|].
  unfold bind, new_pool, pool_connect. cbn [fst snd getPool_resume].
  cbn [trace emit set_next_pool_id].
  destruct (drv_connect drv _ _); reflexivity.
Qed.

Lemma getPool_start_facts (drv : Driver) (dbConfigs : list (string * DbConfig))
  (key : string) (st : State) :
  let s := fst (getPool_start drv dbConfigs (Some key) st) in
  let st1 := snd (getPool_start drv dbConfigs (Some key) st) in
  pools st1 = pools st /\ console st1 = console st
  /\ (exists evs, trace st1 = trace st ++ evs /\ queries evs = [])
  /\ started_for (pools st) key s.
Proof.
  unfold getPool_start.
  destruct (match prop (prop_name (Some key)) dbConfigs with
            | Some c => Some c
            | None => head (Object_values dbConfigs)
            end) as [config|].
  - cbv zeta.
    destruct (pools st !! default "default" (truthy (Some key))) as [p|] eqn:L.
    + cbn. repeat split; try assumption. exists []. now rewrite app_nil_r.
    + cbn. repeat split.
      eexists [_; _]. rewrite <- app_assoc. split; reflexivity.
  - cbn. repeat split. exists []. now rewrite app_nil_r.
Qed.

Lemma start_all_facts (drv : Driver) (dbConfigs : list (string * DbConfig))
  (dbKeys : list string) (st : State) :
  let ss := fst (start_all drv dbConfigs dbKeys st) in
  let st1 := snd (start_all drv dbConfigs dbKeys st) in
  pools st1 = pools st /\ console st1 = console st
  /\ (exists evs, trace st1 = trace st ++ evs /\ queries evs = [])
  /\ Forall2 (started_for (pools st)) dbKeys ss.
Proof.
  revert st. induction dbKeys as [|key dbKeys IH]; intros st.
  - cbn. repeat split; [|constructor]. exists []. now rewrite app_nil_r.
  - cbn [start_all].
    pose proof (getPool_start_facts drv dbConfigs key st) as F.
    destruct (getPool_start drv dbConfigs (Some key) st) as [s st1].
    cbn [fst snd] in F. destruct F as (P1 & C1 & (evs1 & T1 & Q1) & S1).
    specialize (IH st1).
    destruct (start_all drv dbConfigs dbKeys st1) as [ss st2].
    cbn [fst snd] in IH |- *. destruct IH as (P2 & C2 & (evs2 & T2 & Q2) & S2).
    split; [congruence|]. split; [congruence|]. split.
    + exists (evs1 ++ evs2). rewrite T2, T1, <- app_assoc.
      split; [reflexivity|]. rewrite queries_app, Q1, Q2. reflexivity.
    + constructor; [assumption|]. now rewrite <- P1.
Qed.

Lemma resume_all_facts (started : list Started) (st : State) :
  let os := fst (resume_all started st) in
  let st2 := snd (resume_all started st) in
  trace st2 = trace st /\ console st2 = console st
  /\ map fulfilled os = map fulfils started
  /\ (forall k, is_Some (pools st !! k) -> is_Some (pools st2 !! k))
  /\ (forall p, In (Connecting p None) started ->
                is_Some (pools st2 !! pool_key p)).
Proof.
  revert st. induction started as [|s started IH]; intros st.
  - cbn. repeat split; [auto | intros p []].
  - cbn [resume_all].
    destruct (getPool_resume s st) as [o st1] eqn:R.
    specialize (IH st1).
    destruct (resume_all started st1) as [os st2].
    cbn [fst snd] in IH |- *. destruct IH as (T2 & C2 & F2 & M2 & N2).
    assert (trace st1 = trace st /\ console st1 = console st
            /\ fulfilled o = fulfils s
            /\ (forall k, is_Some (pools st !! k) -> is_Some (pools st1 !! k))
            /\ (forall p, s = Connecting p None ->
                          is_Some (pools st1 !! pool_key p)))
      as (T1 & C1 & F1 & M1 & N1).
    { destruct s as [[p|e]|p [msg|]]; cbn in R; injection R as <- <-;
        repeat split; auto; try discriminate.
      - intros k [q Hq]. cbn.
        destruct (decide (pool_key p = k)) as [->|Hne].
        + rewrite lookup_insert_eq. eauto.
        + rewrite lookup_insert_ne by assumption. eauto.
      - intros p' E. injection E as <-. cbn. rewrite lookup_insert_eq. eauto. }
    split; [congruence|]. split; [congruence|]. split.
    + cbn [map]. now rewrite F1, F2.
    + split; [auto|]. intros p [E|Hin]; [apply M2, N1; assumption | auto].
Qed.

Lemma prop_app_fresh {A} (k k' : string) (v : A) (obj : list (string * A)) :
  prop k obj = None -> k <> k' -> prop k (obj ++ [(k', v)]) = None.
Proof.
  intros H Hne. induction obj as [|[k0 w] obj IH]; simpl in *.
  - destruct (String.eqb k' k) eqn:E; [|reflexivity].
    apply String.eqb_eq in E. congruence.
  - destruct (String.eqb k0 k); [discriminate | auto].
Qed.

Lemma forEach_check_result (checks : list (string * Outcome Pool)) :
  forall (results : list (string * string)) (isHealthy : bool) (st : State),
    NoDup (map fst checks) ->
    (forall k, In k (map fst checks) -> prop k results = None) ->
    exists st',
      forEach_check checks results isHealthy st
      = (Return (results ++ map (fun ko => (fst ko, check_text (snd ko))) checks,
                 isHealthy && forallb (fun ko => fulfilled (snd ko)) checks),
         st')
      /\ trace st' = trace st /\ pools st' = pools st
      /\ (forallb (fun ko => fulfilled (snd ko)) checks = true ->
          console st' = console st).
Proof.
  induction checks as [|[k o] checks IH]; intros results h st Hnd Hfresh.
  - exists st. cbn. rewrite app_nil_r, andb_true_r. repeat split.
  - cbn [map fst] in Hnd. inversion Hnd as [|? ? Hk Hnd']; subst.
    assert (prop k results = None) as Hr by (apply Hfresh; now left).
    assert (forall v k', In k' (map fst checks) ->
                         prop k' (set_prop k v results) = None) as Hfresh'.
    { intros v k' Hin. unfold set_prop. rewrite Hr.
      apply prop_app_fresh; [apply Hfresh; now right|].
      intros ->. apply Hk, list_elem_of_In. assumption. }
    destruct o as [p|e]; cbn [forEach_check].
    + destruct (IH (set_prop k "connected" results) h st Hnd'
                  (Hfresh' "connected")) as (st' & E & T & P & C).
      exists st'. rewrite E. unfold set_prop. rewrite Hr.
      cbn [map fst snd forallb fulfilled]. rewrite <- app_assoc.
      repeat split; assumption.
    + unfold bind, modify.
      destruct (IH (set_prop k "error" results) false
                  (console_error ("Health check failed for " +:+ k +:+ ": "
                                  +:+ message e) st) Hnd'
                  (Hfresh' "error")) as (st' & E & T & P & C).
      exists st'. rewrite E. unfold set_prop. rewrite Hr.
      cbn [map fst snd forallb fulfilled]. rewrite <- app_assoc.
      rewrite andb_false_r. cbn [andb].
      repeat split; try assumption. discriminate.
Qed.

Lemma combine_fst {A B} (l : list A) (l' : list B) :
  length l = length l' -> map fst (combine l l') = l.
Proof.
  revert l'; induction l as [|a l IH]; intros [|b l'] H; simpl in *;
    try discriminate; [reflexivity|]. f_equal. apply IH. lia.
Qed.

Lemma health_databases_of_checks (dbKeys : list string)
  (os : list (Outcome Pool)) :
  json_of_results (map (fun ko => (fst ko, check_text (snd ko)))
                     (combine dbKeys os))
  = health_databases dbKeys (map fulfilled os).
Proof.
  unfold json_of_results, health_databases, map_values. f_equal.
  revert os; induction dbKeys as [|k dbKeys IH]; intros [|o os]; simpl;
    try reflexivity.
  f_equal. apply IH.
Qed.

Lemma forallb_checks (dbKeys : list string) (os : list (Outcome Pool)) :
  length dbKeys = length os ->
  forallb (fun ko => fulfilled (snd ko)) (combine dbKeys os)
  = forallb id (map fulfilled os).
Proof.
  revert os; induction dbKeys as [|k dbKeys IH]; intros [|o os] H; simpl in *;
    try discriminate; [reflexivity|]. f_equal. apply IH. lia.
Qed.

Lemma Forall2_combine_In {A B C} (R : A -> B -> Prop) (f : B -> C)
  (l : list A) (l' : list B) :
  Forall2 R l l' ->
  forall a c, In (a, c) (combine l (map f l')) ->
              exists b, In b l' /\ R a b /\ f b = c.
Proof.
  induction 1 as [|a0 b0 l l' HR _ IH]; intros a c Hin; simpl in Hin.
  - destruct Hin.
  - destruct Hin as [E|Hin].
    + injection E as <- <-. exists b0. repeat split; [now left | assumption].
    + destruct (IH a c Hin) as (b & Hb & HRb & Hf).
      exists b. repeat split; [now right | assumption | assumption].
Qed.

Lemma getPool_start_key (drv : Driver) (dbConfigs : list (string * DbConfig))
  (k : string) (c : DbConfig) (st : State) :
  prop k dbConfigs = Some c -> k <> "" ->
  getPool_start drv dbConfigs (Some k) st
  = match pools st !! k with
    | Some pool => (Settled (Return pool), st)
    | None =>
        (Connecting (mkPool (next_pool_id st) c k)
           (drv_connect drv (trace st ++ [EvNew (next_pool_id st) c])
              (mkPool (next_pool_id st) c k)),
         after_connect c k st)
    end.
Proof.
  intros Hc Hk. unfold getPool_start. cbn [prop_name]. rewrite Hc.
  assert (default "default" (truthy (Some k)) = k) as ->
    by (destruct k; [congruence | reflexivity]).
  destruct (pools st !! k); reflexivity.
Qed.

(** The calls the route starts, one per configured key: what each one
    is, and what they add to the trace. *)
Lemma start_all_detail (drv : Driver) (dbConfigs : list (string * DbConfig))
  (entries : list (string * DbConfig)) :
  (forall kc, In kc entries ->
              prop (fst kc) dbConfigs = Some (snd kc) /\ fst kc <> "") ->
  forall st,
  exists evs,
    trace (snd (start_all drv dbConfigs (map fst entries) st)) = trace st ++ evs
    /\ pools (snd (start_all drv dbConfigs (map fst entries) st)) = pools st
    /\ length evs
       = (2 * length (List.filter (fun k => bool_decide (pools st !! k = None))
                        (map fst entries)))%nat
    /\ Forall2 (started_as drv (pools st) (trace st) evs) entries
         (fst (start_all drv dbConfigs (map fst entries) st)).
Proof.
  induction entries as [|[k c] entries IH]; intros Hall st.
  - exists []. cbn. rewrite app_nil_r. repeat split. constructor.
  - destruct (Hall (k, c) (or_introl eq_refl)) as [Hc Hk]. cbn [fst snd] in Hc, Hk.
    assert (forall kc, In kc entries ->
                       prop (fst kc) dbConfigs = Some (snd kc) /\ fst kc <> "")
      as Hall' by (intros kc Hin; apply Hall; now right).
    cbn [map fst start_all]. rewrite (getPool_start_key drv dbConfigs k c st Hc Hk).
    destruct (pools st !! k) as [pool|] eqn:L.
    + destruct (IH Hall' st) as (evs & T & P & Len & F).
      destruct (start_all drv dbConfigs (map fst entries) st) as [ss st2].
      cbn [fst snd] in *. exists evs.
      split; [exact T|]. split; [exact P|]. split.
      * cbn [List.filter]. rewrite L.
        rewrite bool_decide_eq_false_2 by discriminate. exact Len.
      * constructor; [|exact F]. unfold started_as. cbn [fst]. now rewrite L.
    + destruct (IH Hall' (after_connect c k st)) as (evs & T & P & Len & F).
      destruct (start_all drv dbConfigs (map fst entries) (after_connect c k st))
        as [ss st2].
      cbn [fst snd] in *.
      exists ([EvNew (next_pool_id st) c; EvConnect (next_pool_id st)] ++ evs).
      split.
      { rewrite T. cbn [after_connect trace emit set_next_pool_id].
        rewrite <- !app_assoc. reflexivity. }
      split; [exact P|]. split.
      { cbn [List.filter]. rewrite L. rewrite bool_decide_eq_true_2 by reflexivity.
        cbn [length app] in *.
        change (pools (after_connect c k st)) with (pools st) in Len. lia. }
      constructor.
      * unfold started_as. cbn [fst snd]. rewrite L.
        exists (next_pool_id st), [], evs. split; reflexivity.
      * eapply Forall2_impl; [exact F|].
        intros [k' c'] s. unfold started_as. cbn [fst snd].
        change (pools (after_connect c k st)) with (pools st).
        destruct (pools st !! k'); [auto|].
        intros (id & before & after & E & Hs).
        exists id,
          ([EvNew (next_pool_id st) c; EvConnect (next_pool_id st)] ++ before),
          after.
        split.
        -- rewrite E. rewrite <- !app_assoc. reflexivity.
        -- rewrite Hs. cbn [after_connect trace emit set_next_pool_id].
           rewrite <- !app_assoc. reflexivity.
Qed.

(** The pool cache after the started calls have finished: a call that
    connected has stored its pool, and nothing else has changed. *)
Lemma resume_all_pools {A} (key : A -> string) (kss : list (A * Started)) :
  NoDup (map (fun ks => key (fst ks)) kss) ->
  (forall ks, In ks kss ->
              match snd ks with
              | Connecting p _ => pool_key p = key (fst ks)
              | Settled _ => True
              end) ->
  forall st,
    (forall k, ~ In k (map (fun ks => key (fst ks)) kss) ->
               pools (snd (resume_all (map snd kss) st)) !! k = pools st !! k)
    /\ (forall ks, In ks kss ->
                   pools (snd (resume_all (map snd kss) st)) !! key (fst ks)
                   = match snd ks with
                     | Connecting p None => Some p
                     | _ => pools st !! key (fst ks)
                     end).
Proof.
  induction kss as [|[a s] kss IH]; intros Hnd Hkeys st.
  - split; [reflexivity | intros ks []].
  - cbn [map fst snd] in Hnd. apply NoDup_cons in Hnd as [Ha Hnd].
    assert (forall ks, In ks kss ->
                       match snd ks with
                       | Connecting p _ => pool_key p = key (fst ks)
                       | Settled _ => True
                       end) as Hkeys' by (intros ks Hin; apply Hkeys; now right).
    pose proof (Hkeys (a, s) (or_introl eq_refl)) as Hs. cbn [fst snd] in Hs.
    cbn [map snd resume_all].
    destruct (getPool_resume s st) as [o st1] eqn:R.
    destruct (IH Hnd Hkeys' st1) as [I1 I2].
    destruct (resume_all (map snd kss) st1) as [os st2]. cbn [fst snd] in *.
    assert (forall k, k <> key a -> pools st1 !! k = pools st !! k) as Hother.
    { intros k Hne. destruct s as [o'|p [msg|]]; cbn in R; injection R as <- <-;
        try reflexivity.
      cbn. rewrite Hs. now rewrite lookup_insert_ne by congruence. }
    assert (pools st1 !! key a
            = match s with
              | Connecting p None => Some p
              | _ => pools st !! key a
              end) as Hhead.
    { destruct s as [o'|p [msg|]]; cbn in R; injection R as <- <-;
        try reflexivity.
      cbn. rewrite Hs. apply lookup_insert_eq. }
    split.
    + intros k Hk. rewrite I1.
      * apply Hother. intros ->. apply Hk. now left.
      * intros Hin. apply Hk. now right.
    + intros ks [<-|Hin].
      * cbn [fst snd]. rewrite I1; [exact Hhead|].
        intros Hin. apply Ha, list_elem_of_In. exact Hin.
      * rewrite (I2 ks Hin).
        destruct (snd ks) as [o'|p [msg|]]; try reflexivity;
          apply Hother; intros E; apply Ha, list_elem_of_In;
          rewrite <- E; apply (in_map (fun ks => key (fst ks)) kss ks Hin).
Qed.

Lemma started_as_key (drv : Driver) (cache : gmap string Pool)
  (base evs : list Event) (kc : string * DbConfig) (s : Started) :
  started_as drv cache base evs kc s ->
  match s with
  | Connecting p _ => pool_key p = fst kc
  | Settled _ => True
  end.
Proof.
  unfold started_as. destruct (cache !! fst kc).
  - intros ->. exact I.
  - intros (id & before & after & _ & ->). reflexivity.
Qed.

(** X12: the report of GET /health behind the middleware, for every
    driver and every state, when the key of the request is absent or
    valid and the configured keys are the own keys of an object, none
    empty and none the name of a member every object inherits.  Without
    a configured database the answer is 503, No databases configured.
    Otherwise the [databases] member lists every configured key, in
    order, as connected or error; the status is 200 when all are
    connected and 503 when one is not.  A key is reported as connected
    exactly when the cache had a pool for it or the driver connected the
    pool built for it, and then the cache has that pool afterwards; a key
    whose connection the driver refused has no pool afterwards
    ([health_check]).  The driver is contacted twice, to build and to
    connect, for every key without a cached pool, and no SQL statement is
    sent.  A report without error writes nothing to the console. *)
Theorem GET_health_report
  (drv : Driver) (dbConfigs : list (string * DbConfig)) (now : string)
  (req : Request) (st : State) :
  dbKey_ok (requested_dbKey req) = true ->
  own_keys (Object_keys dbConfigs) = true ->
  forallb plain_key (Object_keys dbConfigs) = true ->
  exists (up : list bool) (st' : State) (evs : list Event),
    GET_health drv dbConfigs now req st
    = (Return
         (match dbConfigs with
          | [] =>
              mkResponse 503
                (BJson (JObj [ ("status", JStr "error");
                               ("message", JStr "No databases configured.") ]))
          | _ :: _ =>
              if forallb id up
              then mkResponse 200
                     (BJson (JObj [ ("status", JStr "ok");
                                    ("databases",
                                     health_databases (Object_keys dbConfigs) up) ]))
              else mkResponse 503
                     (BJson (JObj [ ("status", JStr "error");
                                    ("message",
                                     JStr "One or more database connections failed.");
                                    ("databases",
                                     health_databases (Object_keys dbConfigs) up) ]))
          end),
       st')
    /\ trace st' = trace st ++ evs /\ queries evs = []
    /\ length evs
       = (2 * length (List.filter (fun k => bool_decide (pools st !! k = None))
                        (Object_keys dbConfigs)))%nat
    /\ Forall2 (fun kc b => health_check drv st st' (fst kc) (snd kc) b)
         dbConfigs up
    /\ (forallb id up = true -> console st' = console st).
Proof.
  intros Hreq Hown Hplain.
  destruct (own_keys_facts _ Hown) as (Hnd & _ & _).
  unfold GET_health. rewrite (validateDbKey_passes now req _ st Hreq).
  unfold health_handler.
  destruct dbConfigs as [|kc dbConfigs'].
  { exists [], st, []. cbn. rewrite app_nil_r. repeat split. constructor. }
  set (cfgs := kc :: dbConfigs') in *.
  set (keys := Object_keys cfgs) in *.
  change ((length keys =? 0)%nat) with false. cbv iota.
  assert (forall e, In e cfgs -> prop (fst e) cfgs = Some (snd e) /\ fst e <> "")
    as Hall.
  { intros [k c] Hin. cbn [fst snd]. split; [now apply prop_of_In|].
    rewrite forallb_forall in Hplain.
    assert (plain_key k = true) as Hk
      by (apply Hplain; change k with (fst (k, c)); now apply in_map).
    unfold plain_key in Hk. apply andb_true_iff in Hk as [_ Hk].
    intros ->. discriminate Hk. }
  unfold try_catch, bind, allSettled_getPool.
  destruct (start_all_detail drv cfgs cfgs Hall st) as (evs & T1 & P1 & Len & S1).
  pose proof (start_all_facts drv cfgs keys st) as F1.
  change (map fst cfgs) with keys in T1, P1, Len, S1.
  destruct (start_all drv cfgs keys st) as [ss st1].
  cbn [fst snd] in F1, T1, P1, S1.
  destruct F1 as (_ & C1 & (evs0 & T0 & Q1) & _).
  assert (evs0 = evs) as -> by (rewrite T1 in T0; now apply app_inv_head in T0).
  pose proof (resume_all_facts ss st1) as F2.
  assert (length cfgs = length ss) as Hlen0 by (now apply Forall2_length in S1).
  assert (NoDup (map (fun ks : string * DbConfig * Started => fst (fst ks))
                   (combine cfgs ss))) as Hnd2.
  { replace (map (fun ks : string * DbConfig * Started => fst (fst ks))
               (combine cfgs ss)) with keys; [exact Hnd|].
    unfold keys, Object_keys. rewrite <- (combine_map_fst cfgs ss Hlen0) at 1.
    now rewrite map_map. }
  assert (forall ks, In ks (combine cfgs ss) ->
                     match snd ks with
                     | Connecting p _ => pool_key p = fst (fst ks)
                     | Settled _ => True
                     end) as Hkeys2.
  { intros [e s] Hin. cbn [fst snd].
    exact (started_as_key _ _ _ _ _ _ (Forall2_In_combine _ _ _ _ _ S1 Hin)). }
  pose proof (resume_all_pools (@fst string DbConfig) (combine cfgs ss)
                Hnd2 Hkeys2 st1) as [_ Rp].
  rewrite combine_map_snd in Rp by exact Hlen0.
  destruct (resume_all ss st1) as [os st2].
  cbn [fst snd] in F2, Rp. destruct F2 as (T2 & C2 & Fm & _ & _).
  assert (length keys = length os) as Hlen.
  { unfold keys, Object_keys. rewrite length_map, Hlen0.
    apply (f_equal (@length bool)) in Fm. now rewrite !length_map in Fm. }
  destruct (forEach_check_result (combine keys os) [] true st2)
    as (st3 & E & T3 & P3 & C3).
  { rewrite combine_fst; assumption. }
  { intros; reflexivity. }
  rewrite E. cbn [fst snd app andb].
  rewrite forallb_checks in * by assumption.
  rewrite health_databases_of_checks.
  exists (map fulfilled os), st3, evs.
  split; [destruct (forallb id (map fulfilled os)); reflexivity|].
  split; [congruence|]. split; [assumption|]. split; [exact Len|].
  split; [|intros Hall'; rewrite (C3 Hall'); congruence].
  (* every key is checked as [health_check] says *)
  rewrite Fm.
  apply Forall2_with_In in S1.
  apply Forall2_fmap_r.
  eapply Forall2_impl; [exact S1|].
  intros [k c] s [Hs Hin]. cbn [fst snd].
  specialize (Rp ((k, c), s) Hin). cbn [fst snd] in Rp.
  unfold health_check. unfold started_as in Hs. cbn [fst snd] in Hs.
  rewrite P3, Rp, P1.
  destruct (pools st !! k) as [pool|] eqn:L.
  - subst s. cbn. auto.
  - destruct Hs as (id & before & after & Eevs & ->).
    exists id, before, after. split; [|split].
    + rewrite T3, T2, T1, Eevs. reflexivity.
    + cbn [fulfils]. destruct (drv_connect drv _ _); reflexivity.
    + cbn [fulfils]. destruct (drv_connect drv _ _); reflexivity.
Qed.

Lemma GET_health_report_witness :
  exists up st',
    GET_health drv_partial sample_dbConfigs "T"
      (mkRequest "/health" None None None) (initial_state sample_dbConfigs)
    = (Return
         (if forallb id up
          then mkResponse 200
                 (BJson (JObj [ ("status", JStr "ok");
                                ("databases",
                                 health_databases ["maindb"; "reportingdb"] up) ]))
          else mkResponse 503
                 (BJson (JObj [ ("status", JStr "error");
                                ("message",
                                 JStr "One or more database connections failed.");
                                ("databases",
                                 health_databases ["maindb"; "reportingdb"] up) ]))),
       st')
    /\ Forall2 (fun kc b =>
                  health_check drv_partial (initial_state sample_dbConfigs) st'
                    (fst kc) (snd kc) b) sample_dbConfigs up.
Proof.
  destruct (GET_health_report drv_partial sample_dbConfigs "T"
              (mkRequest "/health" None None None)
              (initial_state sample_dbConfigs) eq_refl eq_refl eq_refl)
    as (up & st' & evs & E & _ & _ & _ & H & _).
  exists up, st'. split; [exact E | exact H].
Defined.

(** The two cases of the route's test suite: every database connects,
    and the second one does not. *)
Example health_all_connected :
  fst (GET_health drv_up sample_dbConfigs "T"
         (mkRequest "/health" None None None) (initial_state sample_dbConfigs))
  = Return (mkResponse 200
              (BJson (JObj [ ("status", JStr "ok");
                             ("databases",
                              JObj [ ("maindb", JStr "connected");
                                     ("reportingdb", JStr "connected") ]) ]))).
Proof. vm_compute. reflexivity. Qed.

Example health_second_database_fails :
  fst (GET_health drv_partial sample_dbConfigs "T"
         (mkRequest "/health" None None None) (initial_state sample_dbConfigs))
  = Return (mkResponse 503
              (BJson (JObj [ ("status", JStr "error");
                             ("message",
                              JStr "One or more database connections failed.");
                             ("databases",
                              JObj [ ("maindb", JStr "connected");
                                     ("reportingdb", JStr "error") ]) ])))
  /\ console (snd (GET_health drv_partial sample_dbConfigs "T"
                     (mkRequest "/health" None None None)
                     (initial_state sample_dbConfigs)))
     = ["Health check failed for reportingdb: Connection error"].
Proof. vm_compute. split; reflexivity. Qed.



(* ===================================================================== *)
(** * 33. The connection status table *)
(* ===================================================================== *)

Lemma prop_assign_same {A} (key : string) (v w : A) (obj : list (string * A)) :
  prop key obj = Some w -> prop key (assign key v obj) = Some v.
Proof.
  induction obj as [|[k u] obj IH]; simpl; [discriminate|].
  destruct (String.eqb k key) eqn:E; simpl; rewrite E; auto.
Qed.

Lemma prop_assign_other {A} (key k' : string) (v : A) (obj : list (string * A)) :
  k' <> key -> prop k' (assign key v obj) = prop k' obj.
Proof.
  intros Hne. induction obj as [|[k u] obj IH]; simpl; [reflexivity|].
  destruct (String.eqb k key) eqn:E; simpl.
  - apply String.eqb_eq in E. subst k.
    destruct (String.eqb key k') eqn:E'; [|reflexivity].
    apply String.eqb_eq in E'. congruence.
  - rewrite IH. reflexivity.
Qed.

Lemma Object_keys_assign {A} (key : string) (v : A) (obj : list (string * A)) :
  Object_keys (assign key v obj) = Object_keys obj.
Proof.
  induction obj as [|[k u] obj IH]; simpl; [reflexivity|].
  destruct (String.eqb k key); simpl; [reflexivity | now f_equal].
Qed.

(** X14: [updateConnectionStatus] for a key that is not the name of a
    member every object inherits.  It changes at most the entry of
    [dbKey]: it never adds or removes a key and keeps the order of the
    table; for a key that has no entry it does nothing.  In the entry it
    replaces, the time of the last connection is set only by the status
    connected and is kept otherwise, and the last error is kept when no
    error is given: a later successful connection does not clear it.
    Pools and driver trace are not touched. *)
Theorem updateConnectionStatus_changes_one_entry
  (now dbKey new_status : string) (error : option JsError) (st : State) :
  inherited dbKey = false ->
  let st' := snd (updateConnectionStatus now dbKey new_status error st) in
  Object_keys (connectionStatus st') = Object_keys (connectionStatus st)
  /\ (forall k, k <> dbKey ->
                prop k (connectionStatus st') = prop k (connectionStatus st))
  /\ match prop dbKey (connectionStatus st) with
     | None => st' = st
     | Some old =>
         exists new,
           prop dbKey (connectionStatus st') = Some new
           /\ status new = new_status
           /\ lastConnected new
              = (if String.eqb new_status "connected" then Some now
                 else lastConnected old)
           /\ lastError new
              = match error with
                | Some e => Some (message e)
                | None => lastError old
                end
     end
  /\ pools st' = pools st /\ trace st' = trace st.
Proof.
  intros _.
  unfold updateConnectionStatus, modify. cbn [snd].
  destruct (prop dbKey (connectionStatus st)) as [old|] eqn:L.
  - cbn [connectionStatus set_connectionStatus pools trace].
    split; [apply Object_keys_assign|].
    split; [intros k Hk; now apply prop_assign_other|].
    split; [|split; reflexivity].
    eexists. split; [apply (prop_assign_same _ _ old); exact L|].
    cbn. repeat split.
  - repeat split.
Qed.

Lemma updateConnectionStatus_changes_one_entry_witness :
  let st := initial_state sample_dbConfigs in
  let st' := snd (updateConnectionStatus "T" "reportingdb" "error"
                    (Some (Error "Login failed")) st) in
  inherited "reportingdb" = false
  /\ Object_keys (connectionStatus st') = ["maindb"; "reportingdb"]
  /\ prop "maindb" (connectionStatus st')
     = Some (mkConnStatus None None "initialized").
Proof.
  intros st st'.
  destruct (updateConnectionStatus_changes_one_entry "T" "reportingdb" "error"
              (Some (Error "Login failed")) st eq_refl) as (K & O & _).
  split; [reflexivity|]. split.
  - unfold st'. rewrite K. reflexivity.
  - unfold st'. rewrite (O "maindb") by discriminate. reflexivity.
Defined.

Example lastError_survives_a_connection :
  let st := initial_state single_dbConfigs in
  let st1 := snd (updateConnectionStatus "T1" "maindb" "error"
                    (Some (Error "Login failed")) st) in
  let st2 := snd (updateConnectionStatus "T2" "maindb" "connected" None st1) in
  prop "maindb" (connectionStatus st2)
  = Some (mkConnStatus (Some "T2") (Some "Login failed") "connected")
  /\ snd (updateConnectionStatus "T3" "MainDB" "connected" None st2) = st2.
Proof. vm_compute. split; reflexivity. Qed.

(* ===================================================================== *)
(** * 34. Loading the configuration *)
(* ===================================================================== *)

Lemma truthy_nonempty (v : option string) (s : string) :
  truthy v = Some s -> v = Some s /\ s <> "".
Proof.
  destruct v as [[|c t]|]; simpl; intros H; try discriminate.
  injection H as <-. split; [reflexivity | discriminate].
Qed.

Lemma min1_issues (at_path : list string) (msg : string) (s : string) :
  s <> "" -> string_issues at_path [Min 1 msg] s = [].
Proof. destruct s; [congruence | reflexivity]. Qed.

(** A raw configuration with its texts present and a port that is a
    number passes the schema. *)
Lemma dbConnectionSchema_accepts (c : RawConfig) (u p d : string) :
  raw_server c <> "" -> raw_port c <> Some NaN ->
  truthy (raw_user c) = Some u -> truthy (raw_password c) = Some p ->
  truthy (raw_database c) = Some d ->
  dbConnectionSchema c
  = inr (mkDbConfig (raw_server c)
           (match raw_port c with
            | Some (Num z) => Some z
            | _ => None
            end)
           u p d (raw_encrypt c) (raw_trustServerCertificate c)
           30000 30000 10 0 30000).
Proof.
  intros Hs Hp Hu Hw Hd.
  apply truthy_nonempty in Hu as [Hu Hu'], Hw as [Hw Hw'], Hd as [Hd Hd'].
  unfold dbConnectionSchema, dbConnection_issues.
  rewrite Hu, Hw, Hd. unfold field_issues.
  rewrite !min1_issues by assumption.
  destruct (raw_port c) as [[|z]|]; [congruence | reflexivity | reflexivity].
Qed.

Lemma substring_0_append (m r : string) :
  substring 0 (String.length m) (m +:+ r) = m.
Proof.
  induction m as [|c m IH]; simpl.
  - destruct r; reflexivity.
  - now rewrite IH.
Qed.

(** The names the multi-database loader looks for, and what [match[1]]
    is for them. *)
Lemma multi_db_re_spec (envKey : string) :
  Re.fullmatch multi_db_re envKey = true <->
  exists m, envKey = "MSSQL_" +:+ m +:+ "_DATABASE"
            /\ m <> "" /\ Re.all_in is_dot m = true.
Proof.
  rewrite ReFacts.fullmatch_spec. unfold multi_db_re. split.
  - intros H. apply seq_inv in H as (a & r & -> & Ha & H).
    apply seq_inv in H as (m & d & -> & Hm & Hd).
    apply ReFacts.lit_spec in Ha as ->. apply ReFacts.lit_spec in Hd as ->.
    apply ReFacts.plus_cls_spec in Hm as [Hm Hne].
    exists m. auto.
  - intros (m & -> & Hne & Hm).
    constructor; [now apply ReFacts.lit_spec|].
    constructor; [|now apply ReFacts.lit_spec].
    now apply ReFacts.plus_cls_spec.
Qed.

Lemma match1_spec (m : string) :
  match1 ("MSSQL_" +:+ m +:+ "_DATABASE") = m.
Proof.
  unfold match1.
  replace (String.length ("MSSQL_" +:+ m +:+ "_DATABASE") - 15)%nat
    with (String.length m).
  - change (substring 0 (String.length m) (m +:+ "_DATABASE") = m).
    apply substring_0_append.
  - rewrite !length_append. simpl. lia.
Qed.

Lemma toLowerChar_idem (c : ascii) : toLowerChar (toLowerChar c) = toLowerChar c.
Proof. destruct c as [[] [] [] [] [] [] [] []]; reflexivity. Qed.

Lemma toLowerCase_idem (s : string) : toLowerCase (toLowerCase s) = toLowerCase s.
Proof.
  induction s as [|c s IH]; simpl; [reflexivity|].
  now rewrite toLowerChar_idem, IH.
Qed.

(** ** Assignments to an object *)

Lemma prop_None_keys {A} (k : string) (obj : list (string * A)) :
  prop k obj = None <-> ~ In k (Object_keys obj).
Proof.
  induction obj as [|[k0 v] obj IH]; simpl.
  - split; [intros _ [] | reflexivity].
  - destruct (String.eqb k0 k) eqn:E.
    + apply String.eqb_eq in E. split; [discriminate | intros H; tauto].
    + apply String.eqb_neq in E. rewrite IH. tauto.
Qed.

Lemma set_prop_keys {A} (k : string) (v : A) (obj : list (string * A)) (k' : string) :
  In k' (Object_keys (set_prop k v obj)) <-> k' = k \/ In k' (Object_keys obj).
Proof.
  unfold set_prop. destruct (prop k obj) as [w|] eqn:L.
  - rewrite Object_keys_assign. split; [tauto|].
    intros [->|H]; [|assumption].
    destruct (in_dec string_dec k (Object_keys obj)) as [H|H]; [assumption|].
    apply prop_None_keys in H. congruence.
  - unfold Object_keys. rewrite map_app, in_app_iff. simpl.
    split; intros H; [destruct H as [H|[H|[]]]; auto | destruct H as [H|H]; auto].
Qed.

Lemma set_prop_NoDup {A} (k : string) (v : A) (obj : list (string * A)) :
  NoDup (Object_keys obj) -> NoDup (Object_keys (set_prop k v obj)).
Proof.
  intros H. unfold set_prop. destruct (prop k obj) as [w|] eqn:L.
  - now rewrite Object_keys_assign.
  - unfold Object_keys. rewrite map_app. apply NoDup_app.
    split; [assumption|]. split.
    + intros x Hx Hin. simpl in Hin. apply list_elem_of_In in Hin as [<-|[]].
      apply list_elem_of_In in Hx. apply prop_None_keys in L. contradiction.
    + simpl. apply NoDup_singleton.
Qed.

Lemma assign_In {A} (k : string) (v : A) (obj : list (string * A)) (kv : string * A) :
  In kv (assign k v obj) -> kv = (k, v) \/ In kv obj.
Proof.
  induction obj as [|[k0 w] obj IH]; simpl; [tauto|].
  destruct (String.eqb k0 k) eqn:E; simpl.
  - apply String.eqb_eq in E. subst k0. intros [<-|H]; auto.
  - intros [<-|H]; [auto|]. destruct (IH H); auto.
Qed.

Lemma set_prop_In {A} (k : string) (v : A) (obj : list (string * A)) (kv : string * A) :
  In kv (set_prop k v obj) -> kv = (k, v) \/ In kv obj.
Proof.
  unfold set_prop. destruct (prop k obj).
  - apply assign_In.
  - rewrite in_app_iff. simpl. intros [H|[<-|[]]]; auto.
Qed.

Lemma dbConnectionSchema_nan (c : RawConfig) (u p d : string) :
  raw_server c <> "" -> raw_port c = Some NaN ->
  truthy (raw_user c) = Some u -> truthy (raw_password c) = Some p ->
  truthy (raw_database c) = Some d ->
  dbConnectionSchema c = inl [mkIssue ["port"] "Expected number, received nan"].
Proof.
  intros Hs Hp Hu Hw Hd.
  apply truthy_nonempty in Hu as [Hu Hu'], Hw as [Hw Hw'], Hd as [Hd Hd'].
  unfold dbConnectionSchema, dbConnection_issues.
  rewrite Hu, Hw, Hd, Hp. unfold field_issues.
  rewrite !min1_issues by assumption. reflexivity.
Qed.

Lemma default_localhost (v : option string) :
  default "localhost" (truthy v) <> "".
Proof.
  destruct (truthy v) as [s|] eqn:T; simpl; [|discriminate].
  now apply truthy_nonempty in T as [_ H].
Qed.

Section Loader.
Context (parseInt : string -> JsNum) (env : list (string * string)).

Lemma load_entry_complete (acc : list (string * DbConfig) * list string)
  (entry : string * string) :
  entry_complete env entry = true ->
  exists c,
    load_entry parseInt env acc entry
    = (set_prop (toLowerCase (match1 (fst entry))) c (fst acc), snd acc)
    /\ database c = snd entry /\ complete_config c /\ port c <> Some 0%Z.
Proof.
  unfold entry_complete, load_entry. intros H.
  apply andb_true_iff in H as [Hm H]. rewrite Hm. cbv zeta.
  destruct (truthy (or_else _ (prop "MSSQL_USER" env))) as [u|] eqn:Hu;
    [|discriminate].
  destruct (truthy (or_else _ (prop "MSSQL_PASSWORD" env))) as [p|] eqn:Hp;
    [|discriminate].
  destruct (truthy (Some (snd entry))) as [d|] eqn:Hd; [|discriminate].
  match goal with
  | |- context [dbConnectionSchema ?raw] =>
      rewrite (dbConnectionSchema_accepts raw u p d)
  end; try assumption.
  - cbn [config_validate raw_server raw_port raw_encrypt
           raw_trustServerCertificate].
    eexists. split; [reflexivity|].
    apply truthy_nonempty in Hu as [_ Hu], Hp as [_ Hp], Hd as [Hd Hd'].
    injection Hd as <-.
    split; [reflexivity|]. split.
    + unfold complete_config. cbn.
      repeat split; try assumption. apply default_localhost.
    + cbn. destruct (truthy (prop _ env)) as [text|]; [|discriminate].
      destruct (parseInt text) as [|z]; [discriminate|].
      destruct (z =? 0)%Z eqn:Ez; [discriminate|].
      apply Z.eqb_neq in Ez. congruence.
  - apply default_localhost.
  - cbn. destruct (truthy (prop _ env)) as [text|]; [|discriminate].
    destruct (parseInt text) as [|z]; [discriminate|].
    destruct (z =? 0)%Z; discriminate.
Qed.

Lemma load_entry_incomplete (acc : list (string * DbConfig) * list string)
  (entry : string * string) :
  entry_complete env entry = false ->
  fst (load_entry parseInt env acc entry) = fst acc.
Proof.
  unfold entry_complete, load_entry. intros H.
  destruct (Re.fullmatch multi_db_re (fst entry)); [|reflexivity].
  cbn [andb] in H. cbv zeta.
  destruct (truthy (or_else _ (prop "MSSQL_USER" env))) as [u|];
    [|reflexivity].
  destruct (truthy (or_else _ (prop "MSSQL_PASSWORD" env))) as [p|];
    [|reflexivity].
  destruct (truthy (Some (snd entry))) as [d|]; [discriminate | reflexivity].
Qed.

Lemma fold_load_keys (entries : list (string * string)) :
  forall (acc : list (string * DbConfig) * list string) (k : string),
    In k (Object_keys (fst (fold_left (load_entry parseInt env) entries acc)))
    <-> In k (Object_keys (fst acc))
        \/ exists entry, In entry entries /\ entry_complete env entry = true
                         /\ toLowerCase (match1 (fst entry)) = k.
Proof.
  induction entries as [|e entries IH]; intros acc k; cbn [fold_left].
  - split; [auto | intros [H|(e & [] & _)]; assumption].
  - rewrite IH. destruct (entry_complete env e) eqn:Ec.
    + destruct (load_entry_complete acc e Ec) as (c & -> & _).
      cbn [fst]. rewrite set_prop_keys. split.
      * intros [[->|H]|(e' & Hin & Hc & Hk)]; eauto.
        -- right. exists e. split; [now left | auto].
        -- right. exists e'. split; [now right | auto].
      * intros [H|(e' & [<-|Hin] & Hc & Hk)]; eauto.
    + rewrite (load_entry_incomplete acc e Ec). split.
      * intros [H|(e' & Hin & Hc & Hk)]; eauto.
        right. exists e'. split; [now right | auto].
      * intros [H|(e' & [<-|Hin] & Hc & Hk)]; eauto. congruence.
Qed.

Lemma fold_load_invariant (entries : list (string * string)) :
  forall acc : list (string * DbConfig) * list string,
    incl entries env ->
    NoDup (Object_keys (fst acc)) ->
    (forall kc, In kc (fst acc) -> loaded_from env kc) ->
    NoDup (Object_keys (fst (fold_left (load_entry parseInt env) entries acc)))
    /\ (forall kc,
          In kc (fst (fold_left (load_entry parseInt env) entries acc)) ->
          loaded_from env kc).
Proof.
  induction entries as [|e entries IH]; intros acc Hincl Hnd Hall;
    cbn [fold_left]; [auto|].
  apply IH.
  - intros x Hx. apply Hincl. now right.
  - destruct (entry_complete env e) eqn:Ec.
    + destruct (load_entry_complete acc e Ec) as (c & -> & _).
      now apply set_prop_NoDup.
    + now rewrite (load_entry_incomplete acc e Ec).
  - destruct (entry_complete env e) eqn:Ec.
    + destruct (load_entry_complete acc e Ec) as (c & -> & Hd & Hc & Hp).
      cbn [fst]. intros kc Hin. apply set_prop_In in Hin as [->|Hin]; [|auto].
      exists e. split; [apply Hincl; now left|]. auto.
    + now rewrite (load_entry_incomplete acc e Ec).
Qed.

End Loader.

(** X15: what the loader hands to the rest of the program.  When
    [loadDatabaseConfigs] returns, the table is not empty, its keys are
    distinct and in lower case, and every configuration has a non-empty
    server, user, password and database and the fixed timeouts and pool
    settings.  So behind the loader [getPool] finds a configuration for
    every key, known or not, and its error for a missing configuration
    cannot occur. *)
Theorem loaded_configs_are_complete
  (parseInt : string -> JsNum) (env : list (string * string))
  (dbConfigs : list (string * DbConfig)) (warnings : list string) :
  loadDatabaseConfigs parseInt env = (Return dbConfigs, warnings) ->
  dbConfigs <> [] /\ NoDup (Object_keys dbConfigs)
  /\ (forall k c, In (k, c) dbConfigs ->
                  complete_config c /\ toLowerCase k = k)
  /\ (forall dbKey, exists config,
         match prop (prop_name dbKey) dbConfigs with
         | Some c => Some c
         | None => head (Object_values dbConfigs)
         end = Some config).
Proof.
  intros H.
  assert (dbConfigs <> [] /\ NoDup (Object_keys dbConfigs)
          /\ (forall k c, In (k, c) dbConfigs ->
                          complete_config c /\ toLowerCase k = k))
    as (Hne & Hnd & Hall).
  { unfold loadDatabaseConfigs in H.
    destruct (detectConfigMode env) as [[|]|e]; [| |discriminate].
    - unfold loadMultiDatabaseConfigs in H.
      destruct (length _ =? 0)%nat eqn:El; [discriminate|].
      injection H as <- _.
      destruct (fold_load_invariant parseInt env env ([], []))
        as [Hnd Hall].
      { apply incl_refl. }
      { apply NoDup_nil_2. }
      { intros kc []. }
      split; [|split; [exact Hnd|]].
      + intros E. rewrite E in El. discriminate.
      + intros k c Hin.
        destruct (Hall _ Hin) as (e & _ & _ & Hk & _ & Hc & _).
        cbn [fst snd] in Hk, Hc. split; [exact Hc|].
        rewrite Hk. apply toLowerCase_idem.
    - unfold loadSingleDatabaseConfig in H. cbv zeta in H.
      cbn [raw_user raw_password raw_database] in H.
      destruct (truthy (prop "MSSQL_USER" env)) as [u|] eqn:Hu;
        [|discriminate].
      destruct (truthy (prop "MSSQL_PASSWORD" env)) as [p|] eqn:Hp;
        [|discriminate].
      destruct (truthy (prop "MSSQL_DATABASE" env)) as [d|] eqn:Hd;
        [|discriminate].
      match type of H with
      | context [dbConnectionSchema ?raw] =>
          destruct (raw_port raw) as [[|z]|] eqn:Eport;
            [ rewrite (dbConnectionSchema_nan raw u p d) in H;
              [discriminate | apply default_localhost | assumption..]
            | rewrite (dbConnectionSchema_accepts raw u p d) in H;
              [| apply default_localhost | rewrite Eport; discriminate
               | assumption..]
            | rewrite (dbConnectionSchema_accepts raw u p d) in H;
              [| apply default_localhost | rewrite Eport; discriminate
               | assumption..] ]
      end;
        cbn [config_validate] in H; injection H as <- _;
        apply truthy_nonempty in Hu as [_ Hu], Hp as [_ Hp], Hd as [_ Hd];
        (split; [discriminate|]);
        (split; [apply NoDup_singleton|]);
        intros k c [E|[]]; injection E as <- <-;
        (split; [|reflexivity]);
        unfold complete_config; cbn;
        repeat split; try assumption; apply default_localhost. }
  split; [exact Hne|]. split; [exact Hnd|]. split; [exact Hall|].
  intros dbKey. destruct (prop (prop_name dbKey) dbConfigs) as [c|]; [eauto|].
  destruct dbConfigs as [|[k c] l]; [congruence|]. cbn. eauto.
Qed.

Lemma loaded_configs_are_complete_witness :
  Object_keys (match fst (loadDatabaseConfigs parseInt_decimal sample_env) with
               | Return dbConfigs => dbConfigs
               | Throw _ => []
               end)
  = ["maindb"; "reportingdb"]
  /\ forall dbKey, exists config,
       match prop (prop_name dbKey)
               (match fst (loadDatabaseConfigs parseInt_decimal sample_env) with
                | Return dbConfigs => dbConfigs
                | Throw _ => []
                end) with
       | Some c => Some c
       | None =>
           head (Object_values
                   (match fst (loadDatabaseConfigs parseInt_decimal sample_env) with
                    | Return dbConfigs => dbConfigs
                    | Throw _ => []
                    end))
       end = Some config.
Proof.
  destruct (loadDatabaseConfigs parseInt_decimal sample_env)
    as [[dbConfigs|e] warnings] eqn:E; [|vm_compute in E; discriminate].
  cbn [fst]. split.
  - vm_compute in E. injection E as <- _. reflexivity.
  - apply (loaded_configs_are_complete parseInt_decimal sample_env
             dbConfigs warnings E).
Defined.

(** X16: the multi-database mode is chosen by variable names alone, for
    an environment whose variable names are ASCII and name no database
    __proto__ (under that key the assignment would set the prototype of
    the table).  As soon as one variable is named MSSQL_<NAME>_DATABASE,
    the loader keeps exactly the lower-cased names of the entries that
    are complete (a non-empty value, and a non-empty user and password of
    their own or from MSSQL_USER and MSSQL_PASSWORD); each configuration
    has the database of such an entry and never the port 0.  When no
    entry is complete the loader throws, whatever the single-database
    variables say. *)
Theorem multi_database_keys
  (parseInt : string -> JsNum) (env : list (string * string)) :
  existsb (Re.fullmatch multi_db_re) (Object_keys env) = true ->
  forallb plain_variable (Object_keys env) = true ->
  match fst (loadDatabaseConfigs parseInt env) with
  | Return dbConfigs =>
      (forall k, In k (Object_keys dbConfigs) <->
                 exists entry, In entry env /\ entry_complete env entry = true
                               /\ toLowerCase (match1 (fst entry)) = k)
      /\ (forall kc, In kc dbConfigs -> loaded_from env kc)
  | Throw e =>
      (forall entry, In entry env -> entry_complete env entry = false)
      /\ exists errors,
           e = Error ("[config] No valid database configurations found. "
                      +:+ errors)
  end.
Proof.
  intros Hm _. unfold loadDatabaseConfigs, detectConfigMode. rewrite Hm.
  unfold loadMultiDatabaseConfigs.
  pose proof (fold_load_keys parseInt env env ([], [])) as Hk.
  destruct (fold_load_invariant parseInt env env ([], [])) as [_ Hall].
  { apply incl_refl. }
  { apply NoDup_nil_2. }
  { intros kc []. }
  destruct (length _ =? 0)%nat eqn:El; cbn [fst].
  - split; [|eexists; reflexivity].
    intros entry Hin. destruct (entry_complete env entry) eqn:Ec; [|reflexivity].
    exfalso.
    assert (In (toLowerCase (match1 (fst entry)))
              (Object_keys (fst (fold_left (load_entry parseInt env) env ([], [])))))
      as Hin'.
    { apply Hk. right. exists entry. auto. }
    cbv zeta in El.
    destruct (Object_keys (fst (fold_left (load_entry parseInt env) env ([], []))));
      [destruct Hin' | discriminate El].
  - split; [|exact Hall].
    intros k. rewrite Hk. cbn. split; [intros [[]|H]; exact H | auto].
Qed.

Lemma multi_database_keys_witness :
  match fst (loadDatabaseConfigs parseInt_decimal sample_env) with
  | Return dbConfigs =>
      (forall k, In k (Object_keys dbConfigs) <->
                 exists entry, In entry sample_env
                               /\ entry_complete sample_env entry = true
                               /\ toLowerCase (match1 (fst entry)) = k)
      /\ (forall kc, In kc dbConfigs -> loaded_from sample_env kc)
  | Throw e =>
      (forall entry, In entry sample_env -> entry_complete sample_env entry = false)
      /\ exists errors,
           e = Error ("[config] No valid database configurations found. "
                      +:+ errors)
  end.
Proof.
  apply (multi_database_keys parseInt_decimal sample_env); reflexivity.
Defined.

(** An empty MSSQL_<NAME>_DATABASE selects the multi-database mode and
    hides a complete single-database configuration. *)
Example empty_multi_variable_hides_single_config :
  let single := [ ("MSSQL_SERVER", "db1"); ("MSSQL_USER", "sa");
                  ("MSSQL_PASSWORD", "s3cret"); ("MSSQL_DATABASE", "main") ] in
  fst (loadDatabaseConfigs parseInt_decimal single)
  = Return [("maindb",
             mkDbConfig "db1" None "sa" "s3cret" "main" false true
               30000 30000 10 0 30000)]
  /\ fst (loadDatabaseConfigs parseInt_decimal (single ++ [("MSSQL_X_DATABASE", "")]))
     = Throw (Error ("[config] No valid database configurations found. "
                     +:+ "[config] Incomplete configuration for database x. "
                     +:+ "Missing user, password, or database name.")).
Proof. vm_compute. split; reflexivity. Qed.

(** X17: the single-database mode, when no variable is named
    MSSQL_<NAME>_DATABASE.  The loader returns one configuration, under
    the key maindb, with the values of the variables (localhost when no
    server is given, no port when MSSQL_PORT is empty, otherwise the
    number [parseInt] reads from it), or it throws: when neither
    MSSQL_SERVER nor MSSQL_DATABASE is set, when user, password or
    database is missing, and when [parseInt] finds no number in
    MSSQL_PORT, which the schema refuses. *)
Theorem single_database_config
  (parseInt : string -> JsNum) (env : list (string * string)) :
  existsb (Re.fullmatch multi_db_re) (Object_keys env) = false ->
  loadDatabaseConfigs parseInt env
  = (match truthy (or_else (prop "MSSQL_SERVER" env) (prop "MSSQL_DATABASE" env)) with
     | None =>
         Throw (Error ("[config] No valid database configuration found. "
                       +:+ "Please set either MSSQL_* variables for "
                       +:+ "single-database mode or MSSQL_<DBNAME>_* variables "
                       +:+ "for multi-database mode."))
     | Some _ =>
         match truthy (prop "MSSQL_USER" env), truthy (prop "MSSQL_PASSWORD" env),
               truthy (prop "MSSQL_DATABASE" env) with
         | Some u, Some p, Some d =>
             let config (port : option Z) :=
               mkDbConfig (default "localhost" (truthy (prop "MSSQL_SERVER" env)))
                 port u p d
                 (is_text (prop "MSSQL_ENCRYPT" env) "true")
                 (negb (is_text (prop "MSSQL_TRUST_SERVER_CERTIFICATE" env) "false"))
                 30000 30000 10 0 30000 in
             match truthy (prop "MSSQL_PORT" env) with
             | None => Return [("maindb", config None)]
             | Some text =>
                 match parseInt text with
                 | Num z => Return [("maindb", config (Some z))]
                 | NaN =>
                     Throw (Error ("[config] Validation failed: "
                                   +:+ "port: Expected number, received nan"))
                 end
             end
         | _, _, _ =>
             Throw (Error ("[config] Missing required database credentials. "
                           +:+ "Please set MSSQL_USER, MSSQL_PASSWORD, and "
                           +:+ "MSSQL_DATABASE."))
         end
     end, []).
Proof.
  intros Hm. unfold loadDatabaseConfigs, detectConfigMode. rewrite Hm.
  destruct (or_else (prop "MSSQL_SERVER" env) (prop "MSSQL_DATABASE" env))
    as [[|a s]|]; [reflexivity| |reflexivity].
  cbn [truthy]. f_equal.
  unfold loadSingleDatabaseConfig. cbv zeta.
  cbn [raw_user raw_password raw_database].
  destruct (truthy (prop "MSSQL_USER" env)) as [u|] eqn:Hu; [|reflexivity].
  destruct (truthy (prop "MSSQL_PASSWORD" env)) as [p|] eqn:Hp; [|reflexivity].
  destruct (truthy (prop "MSSQL_DATABASE" env)) as [d|] eqn:Hd; [|reflexivity].
  destruct (truthy (prop "MSSQL_PORT" env)) as [text|].
  - destruct (parseInt text) as [|z] eqn:Ep.
    + rewrite (dbConnectionSchema_nan _ u p d);
        [reflexivity | apply default_localhost | reflexivity | assumption..].
    + rewrite (dbConnectionSchema_accepts _ u p d);
        [reflexivity | apply default_localhost | discriminate | assumption..].
  - rewrite (dbConnectionSchema_accepts _ u p d);
      [reflexivity | apply default_localhost | discriminate | assumption..].
Qed.

Lemma single_database_config_witness :
  loadDatabaseConfigs parseInt_decimal
    [ ("MSSQL_USER", "sa"); ("MSSQL_PASSWORD", "s3cret");
      ("MSSQL_DATABASE", "main"); ("MSSQL_PORT", "port") ]
  = (Throw (Error ("[config] Validation failed: "
                   +:+ "port: Expected number, received nan")), [])
  /\ loadDatabaseConfigs parseInt_decimal
       [ ("MSSQL_USER", "sa"); ("MSSQL_PASSWORD", "s3cret");
         ("MSSQL_DATABASE", "main"); ("MSSQL_PORT", "14x3") ]
     = (Return [("maindb",
                 mkDbConfig "localhost" (Some 14%Z) "sa" "s3cret" "main"
                   false true 30000 30000 10 0 30000)], []).
Proof.
  split.
  - rewrite (single_database_config parseInt_decimal
               [ ("MSSQL_USER", "sa"); ("MSSQL_PASSWORD", "s3cret");
                 ("MSSQL_DATABASE", "main"); ("MSSQL_PORT", "port") ]
               eq_refl).
    reflexivity.
  - rewrite (single_database_config parseInt_decimal
               [ ("MSSQL_USER", "sa"); ("MSSQL_PASSWORD", "s3cret");
                 ("MSSQL_DATABASE", "main"); ("MSSQL_PORT", "14x3") ]
               eq_refl).
    reflexivity.
Defined.

(** [parseInt] reads the digits a text starts with. *)
Example parseInt_decimal_examples :
  parseInt_decimal "1433" = Num 1433 /\ parseInt_decimal "14x3" = Num 14
  /\ parseInt_decimal " 42" = Num 42 /\ parseInt_decimal "-5" = Num (-5)
  /\ parseInt_decimal "x14" = NaN /\ parseInt_decimal "" = NaN.
Proof. vm_compute. repeat split; reflexivity. Qed.

(* ===================================================================== *)
(** * 35. The tool dispatcher *)
(* ===================================================================== *)

(** With its first argument present, the dispatcher runs the operations
    as they are called everywhere else. *)
Lemma CallTool_execute_sql (drv : Driver) (dbConfigs : list (string * DbConfig))
  (env : gmap string string) (query : string) (table dbKey : option string) :
  CallTool drv dbConfigs env "execute_sql" (mkToolArgs (Some query) table dbKey)
  = executeSql drv dbConfigs env query dbKey.
Proof. reflexivity. Qed.

Lemma CallTool_get_table_schema (drv : Driver)
  (dbConfigs : list (string * DbConfig)) (env : gmap string string)
  (table : string) (query dbKey : option string) :
  CallTool drv dbConfigs env "get_table_schema" (mkToolArgs query (Some table) dbKey)
  = getTableSchema drv dbConfigs table dbKey.
Proof. reflexivity. Qed.

Lemma required_missing {A} (issues : list Issue) (i : Issue) (st : State) :
  exists msg,
    validate (A := A) (inl (issues ++ [i])) st = (Throw (Error msg), st).
Proof.
  destruct (issues ++ [i]) as [|j l] eqn:E.
  - destruct issues; discriminate.
  - eexists. reflexivity.
Qed.

(** X18: the dispatcher and the advertised tool list agree.  A call
    names a listed tool exactly when the dispatcher serves it, and then
    it returns a result and does not throw; for every other name it
    throws Unknown tool with the name, leaving the state alone.  An
    argument that a tool's input schema lists as required is required by
    the code as well: when it is absent the result carries the error
    flag and nothing is sent to the driver. *)
Theorem CallTool_serves_the_listed_tools
  (drv : Driver) (dbConfigs : list (string * DbConfig))
  (env : gmap string string) (name : string) (toolArgs : ToolArgs)
  (st : State) :
  if existsb (String.eqb name) (map tool_name listTools)
  then exists r st',
      CallTool drv dbConfigs env name toolArgs st = (Return r, st')
      /\ (forall tool a,
            In tool listTools -> tool_name tool = name ->
            In a (tool_required tool) -> arg a toolArgs = None ->
            isError r = true /\ trace st' = trace st /\ pools st' = pools st)
  else CallTool drv dbConfigs env name toolArgs st
       = (Throw (Error ("Unknown tool: " +:+ name)), st).
Proof.
  cbn [existsb map listTools tool_name]. unfold CallTool.
  destruct (String.eqb name "execute_sql") eqn:E1.
  { apply String.eqb_eq in E1. subst name. cbn [orb].
    destruct (arg_query toolArgs) as [q|] eqn:Eq.
    - destruct (executeSql_never_throws drv dbConfigs env q (arg_dbKey toolArgs) st)
        as (r & st' & E).
      exists r, st'. split; [exact E|].
      intros tool a [<-|[<-|[<-|[]]]] Hn; try discriminate Hn.
      intros [<-|[]] Ha. cbn in Ha. congruence.
    - unfold executeSql_from, try_catch, bind, query_parse.
      unfold field_issues at 3.
      match goal with
      | |- context [validate (inl (?iss ++ [?i])) st] =>
          destruct (required_missing (A := option string * string) iss i st)
            as (msg & ->)
      end.
      cbn. do 2 eexists. split; [reflexivity|]. intros; repeat split. }
  destruct (String.eqb name "get_table_schema") eqn:E2.
  { apply String.eqb_eq in E2. subst name. cbn [orb].
    destruct (arg_table toolArgs) as [t|] eqn:Et.
    - destruct (getTableSchema_never_throws drv dbConfigs t (arg_dbKey toolArgs) st)
        as (r & st' & E).
      exists r, st'. split; [exact E|].
      intros tool a [<-|[<-|[<-|[]]]] Hn; try discriminate Hn.
      intros [<-|[]] Ha. cbn in Ha. congruence.
    - unfold getTableSchema_from, try_catch, bind, table_parse.
      unfold field_issues at 3.
      match goal with
      | |- context [validate (inl (?iss ++ [?i])) st] =>
          destruct (required_missing (A := option string * string) iss i st)
            as (msg & ->)
      end.
      cbn. do 2 eexists. split; [reflexivity|]. intros; repeat split. }
  destruct (String.eqb name "list_databases") eqn:E3.
  { apply String.eqb_eq in E3. subst name. cbn [orb].
    do 2 eexists. split; [reflexivity|].
    intros tool a [<-|[<-|[<-|[]]]] Hn; try discriminate Hn.
    intros []. }
  reflexivity.
Qed.

Example CallTool_unlisted_name :
  fst (CallTool drv_up single_dbConfigs env_rw "drop_database"
         (mkToolArgs None None None) (initial_state single_dbConfigs))
  = Throw (Error "Unknown tool: drop_database")
  /\ text <$> (match fst (CallTool drv_up single_dbConfigs env_rw "execute_sql"
                            (mkToolArgs None None None)
                            (initial_state single_dbConfigs)) with
               | Return r => Some r
               | Throw _ => None
               end)
     = Some (text (error_result "Validation failed: query: Required")).
Proof. vm_compute. split; reflexivity. Qed.

(* ===================================================================== *)
(** * 36. Reading JSON back *)
(* ===================================================================== *)

(** ** Strings *)

(** An escaped character reads back as the character. *)
Lemma parse_chars_escape (c : ascii) (tail : string) :
  parse_chars (json_escape c +:+ tail) = cons_char c (parse_chars tail).
Proof. destruct c as [[] [] [] [] [] [] [] []]; reflexivity. Qed.

Lemma parse_chars_quoted (s rest : string) :
  parse_chars (json_escape_all s +:+ String dquote rest) = Some (s, rest).
Proof.
  induction s as [|c s IH]; [reflexivity|].
  cbn [json_escape_all]. rewrite append_assoc, parse_chars_escape, IH.
  reflexivity.
Qed.

Lemma json_quote_append (s rest : string) :
  json_quote s +:+ rest
  = String dquote (json_escape_all s +:+ String dquote rest).
Proof. unfold json_quote. cbn [String.append]. now rewrite append_assoc. Qed.

Lemma parse_value_string (f : nat) (s rest : string) :
  parse_value (S f) (json_quote s +:+ rest) = Some (JStr s, rest).
Proof.
  rewrite json_quote_append.
  change (parse_value (S f) (String dquote ?x))
    with (match parse_chars x with
          | Some (str, rest) => Some (JStr str, rest)
          | None => None
          end).
  now rewrite parse_chars_quoted.
Qed.

(** ** White space *)

Lemma skip_ws_ws (w s : string) :
  Re.all_in is_json_ws w = true -> skip_ws (w +:+ s) = skip_ws s.
Proof.
  induction w as [|c w IH]; simpl; intros H; [reflexivity|].
  apply andb_true_iff in H as [Hc Hw]. rewrite Hc. auto.
Qed.

Lemma skip_ws_value (s : string) : starts_value s = true -> skip_ws s = s.
Proof.
  destruct s as [|c s]; simpl; [discriminate|]. intros H.
  destruct (is_json_ws c); [discriminate | reflexivity].
Qed.

Lemma starts_value_not_closing (s : string) :
  starts_value s = true -> head_is "]" s = false /\ head_is "}" s = false.
Proof.
  destruct s as [|c s]; simpl; [discriminate|]. intros H.
  apply andb_true_iff in H as [H H2]. apply andb_true_iff in H as [_ H1].
  apply negb_true_iff in H1, H2. auto.
Qed.

(** ** Numbers *)

Lemma nzhead_not_D0 (d u : Decimal.uint) : Decimal.nzhead d <> Decimal.D0 u.
Proof. induction d; simpl; try discriminate; assumption. Qed.

Lemma to_uint_unorm (p : positive) :
  Decimal.unorm (Pos.to_uint p) = Pos.to_uint p.
Proof.
  pose proof (DecimalZ.to_of (Z.to_int (Z.pos p))) as H.
  rewrite DecimalZ.of_to in H. simpl in H. injection H as H. now symmetry.
Qed.

Lemma digits_of_uint (d : Decimal.uint) :
  Re.all_in is_digit (NilEmpty.string_of_uint d) = true.
Proof. induction d; simpl; auto. Qed.

Lemma span_digits_all (ds rest : string) :
  Re.all_in is_digit ds = true ->
  match rest with
  | "" => True
  | String c _ => is_digit c = false
  end ->
  span_digits (ds +:+ rest) = (ds, rest).
Proof.
  intros Hd Hr. induction ds as [|c ds IH]; simpl in *.
  - destruct rest as [|c r]; [reflexivity|]. simpl. now rewrite Hr.
  - apply andb_true_iff in Hd as [Hc Hd]. rewrite Hc, (IH Hd). reflexivity.
Qed.

(** The digits of a positive number: not empty, no leading zero. *)
Lemma to_uint_digits (p : positive) :
  exists c ds,
    NilZero.string_of_uint (Pos.to_uint p) = String c ds
    /\ NilEmpty.string_of_uint (Pos.to_uint p) = String c ds
    /\ is_digit c = true /\ Ascii.eqb c "0" = false
    /\ Re.all_in is_digit ds = true.
Proof.
  pose proof (to_uint_unorm p) as U.
  pose proof (DecimalPos.Unsigned.to_uint_nonzero p) as Z.
  pose proof (digits_of_uint (Pos.to_uint p)) as D.
  unfold Decimal.unorm in U.
  destruct (Pos.to_uint p) as [|u|u|u|u|u|u|u|u|u|u] eqn:E.
  - simpl in U. discriminate.
  - exfalso. destruct (Decimal.nzhead (Decimal.D0 u)) eqn:N;
      try discriminate U.
    + apply Z. now rewrite <- U.
    + now apply nzhead_not_D0 in N.
  - exists "1"%char, (NilEmpty.string_of_uint u). simpl in *. auto.
  - exists "2"%char, (NilEmpty.string_of_uint u). simpl in *. auto.
  - exists "3"%char, (NilEmpty.string_of_uint u). simpl in *. auto.
  - exists "4"%char, (NilEmpty.string_of_uint u). simpl in *. auto.
  - exists "5"%char, (NilEmpty.string_of_uint u). simpl in *. auto.
  - exists "6"%char, (NilEmpty.string_of_uint u). simpl in *. auto.
  - exists "7"%char, (NilEmpty.string_of_uint u). simpl in *. auto.
  - exists "8"%char, (NilEmpty.string_of_uint u). simpl in *. auto.
  - exists "9"%char, (NilEmpty.string_of_uint u). simpl in *. auto.
Qed.

Lemma int_of_Z_to_string (z : Z) :
  NilZero.int_of_string (Z_to_string z) = Some (Z.to_int z).
Proof.
  unfold Z_to_string. apply NilZero.isi; destruct z; simpl; try discriminate;
    intros H; injection H as H; now apply DecimalPos.Unsigned.to_uint_nonnil in H.
Qed.

Lemma delimited_head (rest : string) :
  delimited rest = true ->
  match rest with
  | "" => True
  | String c _ => is_digit c = false
  end
  /\ head_is "." rest = false /\ head_is "e" rest = false
  /\ head_is "E" rest = false.
Proof.
  destruct rest as [|c r]; simpl; [auto|]. intros H.
  apply orb_true_iff in H as [H|H]; apply Ascii.eqb_eq in H; subst c; auto.
Qed.

(** The shape of the text of a number: a minus sign or nothing, then a
    single zero or digits that do not start with a zero. *)
Lemma Z_to_string_shape (z : Z) :
  exists (neg : bool) (c : ascii) (ds : string),
    Z_to_string z = (if neg then "-" else "") +:+ String c ds
    /\ is_digit c = true /\ Re.all_in is_digit ds = true
    /\ (Ascii.eqb c "0" = true -> ds = "").
Proof.
  destruct z as [|p|p].
  - exists false, "0"%char, "". repeat split.
  - destruct (to_uint_digits p) as (c & ds & E & _ & Hc & H0 & Hd).
    exists false, c, ds. unfold Z_to_string. simpl. rewrite E.
    repeat split; try assumption. congruence.
  - destruct (to_uint_digits p) as (c & ds & E & _ & Hc & H0 & Hd).
    exists true, c, ds. unfold Z_to_string. simpl. rewrite E.
    repeat split; try assumption. congruence.
Qed.

Lemma is_digit_not_minus (c : ascii) : is_digit c = true -> Ascii.eqb c "-" = false.
Proof. destruct c as [[] [] [] [] [] [] [] []]; try discriminate; reflexivity. Qed.

Lemma parse_number_Z (z : Z) (rest : string) :
  delimited rest = true ->
  parse_number (Z_to_string z +:+ rest) = Some (z, rest).
Proof.
  intros Hr. apply delimited_head in Hr as (Hdig & Hdot & He & HE).
  destruct (Z_to_string_shape z) as (neg & c & ds & E & Hc & Hd & H0).
  pose proof (int_of_Z_to_string z) as I. rewrite E in I.
  assert (span_digits (String c ds +:+ rest) = (String c ds, rest)) as Sp.
  { apply span_digits_all; [|assumption]. simpl. now rewrite Hc, Hd. }
  unfold parse_number. rewrite E.
  destruct neg.
  - change (head_is "-" (("-" +:+ String c ds) +:+ rest)) with true.
    cbv iota.
    change (slice 1 (("-" +:+ String c ds) +:+ rest))
      with (String c ds +:+ rest).
    rewrite Sp. cbn [fst snd]. rewrite I, Hdot, He, HE, DecimalZ.of_to.
    cbn [String.length Nat.eqb head_is orb].
    destruct (Ascii.eqb c "0") eqn:Ec; [rewrite (H0 eq_refl)|]; reflexivity.
  - change (("" +:+ String c ds) +:+ rest) with (String c (ds +:+ rest)).
    cbn [head_is]. rewrite (is_digit_not_minus c Hc).
    change (String c (ds +:+ rest)) with (String c ds +:+ rest).
    rewrite Sp. cbn [fst snd].
    change ("" +:+ String c ds) with (String c ds) in I |- *.
    rewrite I, Hdot, He, HE, DecimalZ.of_to.
    cbn [String.length Nat.eqb head_is orb].
    destruct (Ascii.eqb c "0") eqn:Ec; [rewrite (H0 eq_refl)|]; reflexivity.
Qed.

(** ** The shape of values and of their texts *)

Lemma json_nested_ind (P : json -> Prop) :
  P JNull -> P JUndefined -> (forall b, P (JBool b)) -> (forall z, P (JNum z)) ->
  (forall s, P (JStr s)) ->
  (forall l, Forall P l -> P (JArr l)) ->
  (forall l, Forall (fun kv => P (snd kv)) l -> P (JObj l)) ->
  forall v, P v.
Proof.
  intros Hn Hu Hb Hz Hs Ha Ho.
  fix IH 1. intros [| |b|z|s|l|l].
  - exact Hn.
  - exact Hu.
  - apply Hb.
  - apply Hz.
  - apply Hs.
  - apply Ha. induction l as [|x l IHl]; constructor; [apply IH | exact IHl].
  - apply Ho. induction l as [|[k w] l IHl]; constructor;
      [apply IH | exact IHl].
Qed.

Lemma stringify_arr (ind : string) (l : list json) :
  stringify ind (JArr l)
  = match l with
    | [] => "[]"
    | _ => "[" +:+ newline +:+ (ind +:+ "  ")
           +:+ join (separator (ind +:+ "  ")) (map (stringify (ind +:+ "  ")) l)
           +:+ newline +:+ ind +:+ "]"
    end.
Proof. destruct l; reflexivity. Qed.

Lemma stringify_obj (ind : string) (l : list (string * json)) :
  stringify ind (JObj l)
  = match map (member_text (ind +:+ "  ")) (defined l) with
    | [] => "{}"
    | members => "{" +:+ newline +:+ (ind +:+ "  ")
                 +:+ join (separator (ind +:+ "  ")) members
                 +:+ newline +:+ ind +:+ "}"
    end.
Proof.
  cbn [stringify].
  match goal with
  | |- match ?go l with _ => _ end = _ =>
      assert (go l = map (member_text (ind +:+ "  ")) (defined l)) as ->
  end.
  { induction l as [|[k w] l IH]; [reflexivity|].
    destruct w; cbn [defined map]; try (rewrite <- IH; reflexivity);
      try exact IH. }
  destruct (map (member_text (ind +:+ "  ")) (defined l)); reflexivity.
Qed.

Lemma normalize_obj (l : list (string * json)) :
  normalize (JObj l)
  = JObj (map (fun kv => (fst kv, normalize (snd kv))) (defined l)).
Proof.
  cbn [normalize]. f_equal.
  induction l as [|[k w] l IH]; [reflexivity|].
  destruct w; cbn [defined map fst snd]; try (rewrite <- IH; reflexivity);
    try exact IH.
Qed.

Lemma cost_arr (l : list json) :
  cost (JArr l) = S (list_sum (map (fun x => S (cost x)) l)).
Proof.
  cbn [cost]. f_equal. induction l as [|x l IH]; [reflexivity|].
  rewrite IH. reflexivity.
Qed.

Lemma cost_obj (l : list (string * json)) :
  cost (JObj l) = S (list_sum (map (fun kv => S (cost (snd kv))) (defined l))).
Proof.
  cbn [cost]. f_equal. induction l as [|[k w] l IH]; [reflexivity|].
  destruct w; rewrite IH; reflexivity.
Qed.

Lemma wf_json_arr (l : list json) : wf_json (JArr l) <-> Forall wf_json l.
Proof.
  cbn [wf_json]. induction l as [|x l IH].
  - split; [constructor | auto].
  - split.
    + intros [Hx Hl]. constructor; [exact Hx | now apply IH].
    + intros H. inversion H; subst. split; [assumption | now apply IH].
Qed.

Lemma wf_json_obj (l : list (string * json)) :
  wf_json (JObj l)
  <-> NoDup (Object_keys l) /\ Forall (fun kv => wf_json (snd kv)) l.
Proof.
  cbn [wf_json]. apply and_iff_compat_l.
  induction l as [|[k w] l IH].
  - split; [constructor | auto].
  - split.
    + intros [Hx Hl]. constructor; [exact Hx | now apply IH].
    + intros H. inversion H; subst. split; [assumption | now apply IH].
Qed.

(** The members that are written are among the members. *)
Lemma defined_In (l : list (string * json)) (kv : string * json) :
  In kv (defined l) -> In kv l.
Proof.
  induction l as [|[k w] l IH]; [auto|].
  destruct w; cbn [defined]; simpl; intuition.
Qed.

Lemma defined_NoDup (l : list (string * json)) :
  NoDup (Object_keys l) -> NoDup (Object_keys (defined l)).
Proof.
  induction l as [|[k w] l IH]; [auto|]. cbn [Object_keys map fst].
  intros H. apply NoDup_cons in H as [Hk Hl].
  assert (NoDup (k :: Object_keys (defined l))) as Hkeep.
  { apply NoDup_cons. split; [|now apply IH].
    intros Hin. apply Hk. apply list_elem_of_In in Hin.
    apply list_elem_of_In. unfold Object_keys in *.
    apply in_map_iff in Hin as (kv & <- & Hin).
    apply in_map_iff. exists kv. split; [reflexivity|]. now apply defined_In. }
  destruct w; cbn [defined]; try exact Hkeep. now apply IH.
Qed.

(** ** One step of the reader *)

Lemma parse_value_step (f : nat) (s : string) :
  parse_value (S f) s
  = if head_is "{" s
    then if head_is "}" (skip_ws (slice 1 s))
         then Some (JObj [], slice 1 (skip_ws (slice 1 s)))
         else match parse_members f [] (skip_ws (slice 1 s)) with
              | Some (members, rest) => Some (JObj members, rest)
              | None => None
              end
    else if head_is "[" s
    then if head_is "]" (skip_ws (slice 1 s))
         then Some (JArr [], slice 1 (skip_ws (slice 1 s)))
         else match parse_elements f [] (skip_ws (slice 1 s)) with
              | Some (elements, rest) => Some (JArr elements, rest)
              | None => None
              end
    else if head_is dquote s
    then match parse_chars (slice 1 s) with
         | Some (str, rest) => Some (JStr str, rest)
         | None => None
         end
    else if startsWith "true" s then Some (JBool true, slice 4 s)
    else if startsWith "false" s then Some (JBool false, slice 5 s)
    else if startsWith "null" s then Some (JNull, slice 4 s)
    else match parse_number s with
         | Some (z, rest) => Some (JNum z, rest)
         | None => None
         end.
Proof. reflexivity. Qed.

Lemma parse_members_step (f : nat) (acc : list (string * json)) (s : string) :
  parse_members (S f) acc s
  = if head_is dquote s
    then match parse_chars (slice 1 s) with
         | Some (key, rest) =>
             if head_is ":" (skip_ws rest)
             then match parse_value f (skip_ws (slice 1 (skip_ws rest))) with
                  | Some (v, rest') =>
                      if head_is "," (skip_ws rest')
                      then parse_members f (set_prop key v acc)
                             (skip_ws (slice 1 (skip_ws rest')))
                      else if head_is "}" (skip_ws rest')
                      then Some (set_prop key v acc, slice 1 (skip_ws rest'))
                      else None
                  | None => None
                  end
             else None
         | None => None
         end
    else None.
Proof. reflexivity. Qed.

Lemma parse_elements_step (f : nat) (acc : list json) (s : string) :
  parse_elements (S f) acc s
  = match parse_value f s with
    | Some (v, rest) =>
        if head_is "," (skip_ws rest)
        then parse_elements f (acc ++ [v]) (skip_ws (slice 1 (skip_ws rest)))
        else if head_is "]" (skip_ws rest)
        then Some (acc ++ [v], slice 1 (skip_ws rest))
        else None
    | None => None
    end.
Proof. reflexivity. Qed.

(** ** The first character of a text *)

Lemma digit_starts_value (c : ascii) (s : string) :
  is_digit c = true -> starts_value (String c s) = true.
Proof. destruct c as [[] [] [] [] [] [] [] []]; try discriminate; reflexivity. Qed.

Lemma stringify_starts (ind : string) (v : json) (r : string) :
  starts_value (stringify ind v +:+ r) = true.
Proof.
  destruct v as [| |b|z|s|l|l].
  - reflexivity.
  - reflexivity.
  - destruct b; reflexivity.
  - cbn [stringify].
    destruct (Z_to_string_shape z) as (neg & c & ds & -> & Hc & _).
    destruct neg; [reflexivity|]. now apply digit_starts_value.
  - cbn [stringify]. now rewrite json_quote_append.
  - rewrite stringify_arr. destruct l; reflexivity.
  - rewrite stringify_obj. destruct (map _ _); reflexivity.
Qed.

Lemma join_starts {A} (text : A -> string) (sep : string) (x : A) (l : list A)
  (r : string) :
  (forall y t, starts_value (text y +:+ t) = true) ->
  starts_value (join sep (map text (x :: l)) +:+ r) = true.
Proof.
  intros H. destruct l as [|y l]; cbn [map join]; [apply H|].
  rewrite append_assoc. apply H.
Qed.

Lemma member_starts (ind' : string) (kv : string * json) (r : string) :
  starts_value (member_text ind' kv +:+ r) = true.
Proof.
  unfold member_text. now rewrite append_assoc, json_quote_append.
Qed.

Lemma all_in_append (f : ascii -> bool) (a b : string) :
  Re.all_in f a = true -> Re.all_in f b = true -> Re.all_in f (a +:+ b) = true.
Proof.
  induction a as [|c a IH]; simpl; intros Ha Hb; [assumption|].
  apply andb_true_iff in Ha as [Hc Ha]. rewrite Hc. auto.
Qed.

(** ** Simple values *)

Lemma number_head_tests (c : ascii) (s : string) :
  is_digit c = true \/ c = "-"%char ->
  head_is "{" (String c s) = false /\ head_is "[" (String c s) = false
  /\ head_is dquote (String c s) = false
  /\ startsWith "true" (String c s) = false
  /\ startsWith "false" (String c s) = false
  /\ startsWith "null" (String c s) = false.
Proof.
  intros [H| ->]; [|repeat split].
  destruct c as [[] [] [] [] [] [] [] []]; try discriminate; repeat split.
Qed.

Lemma parse_value_number (f : nat) (z : Z) (rest : string) :
  delimited rest = true ->
  parse_value (S f) (Z_to_string z +:+ rest) = Some (JNum z, rest).
Proof.
  intros Hr. rewrite parse_value_step, (parse_number_Z z rest Hr).
  destruct (Z_to_string_shape z) as (neg & c & ds & -> & Hc & _).
  destruct neg.
  - reflexivity.
  - change (("" +:+ String c ds) +:+ rest) with (String c (ds +:+ rest)).
    destruct (number_head_tests c (ds +:+ rest) (or_introl Hc))
      as (-> & -> & -> & -> & -> & ->).
    reflexivity.
Qed.

(** ** Arrays and objects *)

Lemma skip_line_indent (ind s : string) :
  Re.all_in is_json_ws ind = true ->
  skip_ws (newline +:+ ind +:+ s) = skip_ws s.
Proof. intros H. unfold newline. cbn. now apply skip_ws_ws. Qed.

Lemma parse_elements_join (ind ind' rest : string) (l : list json) :
  Re.all_in is_json_ws ind = true -> Re.all_in is_json_ws ind' = true ->
  Forall reads_back l -> l <> [] ->
  forall (acc : list json) (f : nat),
    (list_sum (map (fun x => S (cost x)) l) <= f)%nat ->
    parse_elements f acc
      (join (separator ind') (map (stringify ind') l)
       +:+ newline +:+ ind +:+ "]" +:+ rest)
    = Some (acc ++ map normalize l, rest).
Proof.
  intros Hi Hi' HP. induction HP as [|x l Hx HP IH]; intros Hne acc f Hf;
    [congruence|].
  cbn [map list_sum] in Hf. destruct f as [|f]; [simpl in Hf; lia|].
  rewrite parse_elements_step.
  destruct l as [|y l].
  - cbn [map join].
    rewrite (Hx ind' _ f Hi'); [|reflexivity | simpl in Hf; lia].
    rewrite skip_line_indent by assumption. reflexivity.
  - change (join (separator ind') (map (stringify ind') (x :: y :: l)))
      with (stringify ind' x +:+ separator ind'
            +:+ join (separator ind') (map (stringify ind') (y :: l))).
    rewrite !append_assoc. unfold separator at 1. rewrite !append_assoc.
    rewrite (Hx ind' _ f Hi'); [|reflexivity | simpl in Hf |- *; lia].
    change (skip_ws ("," +:+ ?t)) with (String "," t).
    cbn [head_is]. change (Ascii.eqb "," ",") with true. cbv iota.
    change (slice 1 (String "," ?t)) with t.
    rewrite skip_line_indent by assumption.
    rewrite skip_ws_value by (apply join_starts; apply stringify_starts).
    rewrite (IH ltac:(discriminate) (acc ++ [normalize x]) f)
      by (simpl in Hf |- *; lia).
    rewrite <- app_assoc. reflexivity.
Qed.

Lemma set_prop_fresh {A} (k : string) (v : A) (obj : list (string * A)) :
  ~ In k (Object_keys obj) -> set_prop k v obj = obj ++ [(k, v)].
Proof. intros H. unfold set_prop. apply prop_None_keys in H. now rewrite H. Qed.

Lemma head_after_key (t : string) : head_is ":" (skip_ws (": " +:+ t)) = true.
Proof. reflexivity. Qed.

Lemma skip_after_key (t : string) :
  skip_ws (slice 1 (skip_ws (": " +:+ t))) = skip_ws t.
Proof. reflexivity. Qed.

Lemma parse_members_join (ind ind' rest : string) (l : list (string * json)) :
  Re.all_in is_json_ws ind = true -> Re.all_in is_json_ws ind' = true ->
  Forall (fun kv => reads_back (snd kv)) l -> l <> [] ->
  NoDup (Object_keys l) ->
  forall (acc : list (string * json)) (f : nat),
    (forall k, In k (Object_keys l) -> ~ In k (Object_keys acc)) ->
    (list_sum (map (fun kv => S (cost (snd kv))) l) <= f)%nat ->
    parse_members f acc
      (join (separator ind') (map (member_text ind') l)
       +:+ newline +:+ ind +:+ "}" +:+ rest)
    = Some (acc ++ map (fun kv => (fst kv, normalize (snd kv))) l, rest).
Proof.
  intros Hi Hi' HP. induction HP as [|[k w] l Hx HP IH];
    intros Hne Hnd acc f Hacc Hf; [congruence|].
  cbn [map list_sum snd] in Hf. destruct f as [|f]; [simpl in Hf; lia|].
  cbn [snd] in Hx.
  assert (set_prop k (normalize w) acc = acc ++ [(k, normalize w)]) as Hset.
  { apply set_prop_fresh, Hacc. now left. }
  assert (forall tail,
             member_text ind' (k, w) +:+ tail
             = String dquote (json_escape_all k
                 +:+ String dquote (": " +:+ stringify ind' w +:+ tail)))
    as Hmember.
  { intros tail. unfold member_text. cbn [fst snd].
    now rewrite !append_assoc, json_quote_append. }
  rewrite parse_members_step.
  destruct l as [|y l].
  - cbn [map join]. rewrite Hmember.
    cbn [head_is]. change (Ascii.eqb dquote dquote) with true. cbv iota.
    change (slice 1 (String dquote ?t)) with t.
    rewrite parse_chars_quoted.
    rewrite head_after_key, skip_after_key.
    rewrite skip_ws_value by apply stringify_starts.
    rewrite (Hx ind' _ f Hi'); [|reflexivity | simpl in Hf; lia].
    rewrite skip_line_indent by assumption.
    cbn. rewrite Hset. reflexivity.
  - change (join (separator ind') (map (member_text ind') ((k, w) :: y :: l)))
      with (member_text ind' (k, w) +:+ separator ind'
            +:+ join (separator ind') (map (member_text ind') (y :: l))).
    rewrite !append_assoc, Hmember.
    cbn [head_is]. change (Ascii.eqb dquote dquote) with true. cbv iota.
    change (slice 1 (String dquote ?t)) with t.
    rewrite parse_chars_quoted.
    rewrite head_after_key, skip_after_key.
    rewrite skip_ws_value by apply stringify_starts.
    unfold separator at 1. rewrite !append_assoc.
    rewrite (Hx ind' _ f Hi'); [|reflexivity | simpl in Hf |- *; lia].
    change (skip_ws ("," +:+ ?t)) with (String "," t).
    cbn [head_is]. change (Ascii.eqb "," ",") with true. cbv iota.
    change (slice 1 (String "," ?t)) with t.
    rewrite skip_line_indent by assumption.
    rewrite skip_ws_value by (apply join_starts; apply member_starts).
    cbn [Object_keys map fst] in Hnd. apply NoDup_cons in Hnd as [Hk Hnd].
    rewrite Hset.
    rewrite (IH ltac:(discriminate) Hnd (acc ++ [(k, normalize w)]) f).
    + rewrite <- app_assoc. reflexivity.
    + intros k' Hk' Hin. unfold Object_keys in Hin.
      rewrite map_app, in_app_iff in Hin. destruct Hin as [Hin|[<-|[]]].
      * apply (Hacc k'); [now right | exact Hin].
      * apply Hk. apply list_elem_of_In. exact Hk'.
    + simpl in Hf |- *. lia.
Qed.

Lemma Forall_defined (P : json -> Prop) (l : list (string * json)) :
  Forall (fun kv => P (snd kv)) l ->
  Forall (fun kv => P (snd kv)) (defined l).
Proof.
  intros H. apply Forall_forall. intros kv Hin.
  apply list_elem_of_In, defined_In in Hin.
  rewrite Forall_forall in H. apply H. now apply list_elem_of_In.
Qed.

Lemma Forall_both {A} (P Q : A -> Prop) (l : list A) :
  Forall (fun x => P x -> Q x) l -> Forall P l -> Forall Q l.
Proof.
  induction 1 as [|x l Hx _ IH]; intros H; [constructor|].
  inversion H; subst. constructor; auto.
Qed.

(** Every well-formed value reads back from its text. *)
Lemma all_read_back (v : json) : wf_json v -> reads_back v.
Proof.
  induction v as [| |b|z|s|l IH|l IH] using json_nested_ind; intros Hwf.
  - intros ind rest f _ _ Hf. destruct f; [simpl in Hf; lia | reflexivity].
  - intros ind rest f _ _ Hf. destruct f; [simpl in Hf; lia | reflexivity].
  - intros ind rest f _ _ Hf. destruct f; [simpl in Hf; lia|].
    destruct b; reflexivity.
  - intros ind rest f _ Hr Hf. destruct f; [simpl in Hf; lia|].
    cbn [stringify normalize]. now apply parse_value_number.
  - intros ind rest f _ _ Hf. destruct f; [simpl in Hf; lia|].
    cbn [stringify normalize]. apply parse_value_string.
  - apply wf_json_arr in Hwf.
    pose proof (Forall_both _ _ _ IH Hwf) as HP.
    intros ind rest f Hi Hr Hf. rewrite cost_arr in Hf.
    destruct f as [|f]; [lia|]. apply le_S_n in Hf.
    rewrite stringify_arr. destruct l as [|x l]; [reflexivity|].
    set (ind' := ind +:+ "  ") in *.
    assert (Re.all_in is_json_ws ind' = true) as Hi'
        by (apply all_in_append; [assumption | reflexivity]).
    rewrite !append_assoc.
    change ("[" +:+ ?t) with (String "[" t).
    rewrite parse_value_step.
    cbn [head_is slice]. change (Ascii.eqb "[" "{") with false.
    change (Ascii.eqb "[" "[") with true. cbv iota.
    rewrite skip_line_indent by assumption.
    rewrite skip_ws_value by (apply join_starts; apply stringify_starts).
    destruct (starts_value_not_closing
                (join (separator ind') (map (stringify ind') (x :: l))
                 +:+ newline +:+ ind +:+ "]" +:+ rest)) as [-> _];
      [apply join_starts; apply stringify_starts|].
    rewrite (parse_elements_join ind ind' rest (x :: l) Hi Hi' HP
               ltac:(discriminate) [] f Hf).
    reflexivity.
  - apply wf_json_obj in Hwf as [Hnd Hwf].
    pose proof (Forall_both _ _ _ IH Hwf) as HP.
    apply Forall_defined in HP. apply defined_NoDup in Hnd.
    intros ind rest f Hi Hr Hf. rewrite cost_obj in Hf.
    destruct f as [|f]; [lia|]. apply le_S_n in Hf.
    rewrite stringify_obj, normalize_obj.
    destruct (defined l) as [|kv dl]; [reflexivity|].
    set (ind' := ind +:+ "  ") in *.
    assert (Re.all_in is_json_ws ind' = true) as Hi'
        by (apply all_in_append; [assumption | reflexivity]).
    change (map (member_text ind') (kv :: dl))
      with (member_text ind' kv :: map (member_text ind') dl).
    cbv iota.
    change (member_text ind' kv :: map (member_text ind') dl)
      with (map (member_text ind') (kv :: dl)).
    rewrite !append_assoc.
    change ("{" +:+ ?t) with (String "{" t).
    rewrite parse_value_step.
    cbn [head_is slice]. change (Ascii.eqb "{" "{") with true. cbv iota.
    rewrite skip_line_indent by assumption.
    rewrite skip_ws_value by (apply join_starts; apply member_starts).
    destruct (starts_value_not_closing
                (join (separator ind') (map (member_text ind') (kv :: dl))
                 +:+ newline +:+ ind +:+ "}" +:+ rest)) as [_ ->];
      [apply join_starts; apply member_starts|].
    rewrite (parse_members_join ind ind' rest (kv :: dl) Hi Hi' HP
               ltac:(discriminate) Hnd [] f (fun _ _ H => H) Hf).
    reflexivity.
Qed.

(** ** The fuel of [JSON_parse] suffices *)

Lemma join_cost {A} (text : A -> string) (c : A -> nat) (sep : string)
  (l : list A) :
  Forall (fun x => (c x <= String.length (text x))%nat) l ->
  (1 <= String.length sep)%nat -> l <> [] ->
  (list_sum (map (fun x => S (c x)) l)
   <= String.length (join sep (map text l)) + 1)%nat.
Proof.
  intros H Hsep. induction H as [|x l Hx H IH]; intros Hne; [congruence|].
  destruct l as [|y l].
  - cbn [map list_sum join]. simpl. lia.
  - specialize (IH ltac:(discriminate)).
    change (join sep (map text (x :: y :: l)))
      with (text x +:+ sep +:+ join sep (map text (y :: l))).
    rewrite !length_append.
    change (list_sum (map (fun x => S (c x)) (x :: y :: l)))
      with (S (c x) + list_sum (map (fun x => S (c x)) (y :: l)))%nat.
    lia.
Qed.

Lemma cost_le_length (v : json) :
  forall ind, (cost v <= String.length (stringify ind v))%nat.
Proof.
  induction v as [| |b|z|s|l IH|l IH] using json_nested_ind; intros ind.
  - simpl. lia.
  - simpl. lia.
  - destruct b; simpl; lia.
  - cbn [stringify cost].
    destruct (Z_to_string_shape z) as (neg & c & ds & -> & _).
    destruct neg; simpl; lia.
  - cbn [stringify cost]. unfold json_quote. simpl. lia.
  - rewrite cost_arr, stringify_arr. destruct l as [|x l]; [simpl; lia|].
    pose proof (join_cost (stringify (ind +:+ "  ")) cost
                  (separator (ind +:+ "  ")) (x :: l)) as J.
    assert (list_sum (map (fun x => S (cost x)) (x :: l))
            <= String.length (join (separator (ind +:+ "  "))
                                (map (stringify (ind +:+ "  ")) (x :: l))) + 1)%nat
      as Hsum.
    { apply J; [|unfold separator; simpl; lia | discriminate].
      eapply Forall_impl; [exact IH|]. intros y Hy. apply Hy. }
    revert Hsum. generalize (map (stringify (ind +:+ "  ")) (x :: l)).
    generalize (list_sum (map (fun x => S (cost x)) (x :: l))).
    intros n texts Hsum. rewrite !length_append. simpl String.length. lia.
  - rewrite cost_obj, stringify_obj.
    apply (Forall_defined
             (fun v => forall ind,
                  (cost v <= String.length (stringify ind v))%nat)) in IH.
    destruct (defined l) as [|kv dl]; [simpl; lia|].
    pose proof (join_cost (member_text (ind +:+ "  ")) (fun kv => cost (snd kv))
                  (separator (ind +:+ "  ")) (kv :: dl)) as J.
    change (map (member_text (ind +:+ "  ")) (kv :: dl))
      with (member_text (ind +:+ "  ") kv :: map (member_text (ind +:+ "  ")) dl).
    cbv iota.
    change (member_text (ind +:+ "  ") kv :: map (member_text (ind +:+ "  ")) dl)
      with (map (member_text (ind +:+ "  ")) (kv :: dl)).
    assert (list_sum (map (fun kv => S (cost (snd kv))) (kv :: dl))
            <= String.length (join (separator (ind +:+ "  "))
                                (map (member_text (ind +:+ "  ")) (kv :: dl))) + 1)%nat
      as Hsum.
    { apply J; [|unfold separator; simpl; lia | discriminate].
      eapply Forall_impl; [exact IH|]. intros y Hy. cbn beta in Hy.
      unfold member_text. rewrite !length_append.
      specialize (Hy (ind +:+ "  ")). lia. }
    revert Hsum. generalize (map (member_text (ind +:+ "  ")) (kv :: dl)).
    generalize (list_sum (map (fun kv => S (cost (snd kv))) (kv :: dl))).
    intros n texts Hsum. rewrite !length_append. simpl String.length. lia.
Qed.

(** [JSON.parse] reads back what [JSON.stringify] has written: the
    value with its [undefined] members dropped. *)
Lemma JSON_parse_stringify (v : json) :
  wf_json v -> JSON_parse (JSON_stringify v) = Some (normalize v).
Proof.
  intros Hwf. unfold JSON_parse, JSON_stringify.
  pose proof (stringify_starts "" v "") as Hs. rewrite append_nil_r in Hs.
  rewrite (skip_ws_value _ Hs).
  pose proof (all_read_back v Hwf "" "" (S (String.length (stringify "" v)))
                eq_refl eq_refl) as R.
  rewrite append_nil_r in R. rewrite R; [reflexivity|].
  pose proof (cost_le_length v ""). lia.
Qed.

Example JSON_parse_sample :
  JSON_parse (JSON_stringify
                (JObj [ ("error", JStr awkward); ("n", JNum (-12));
                        ("gone", JUndefined);
                        ("rows", JArr [JNull; JUndefined; JObj []; JArr [JNum 0]]) ]))
  = Some (JObj [ ("error", JStr awkward); ("n", JNum (-12));
                 ("rows", JArr [JNull; JNull; JObj []; JArr [JNum 0]]) ]).
Proof. vm_compute. reflexivity. Qed.

(* ===================================================================== *)
(** * 37. The tool routes of the HTTP server *)
(* ===================================================================== *)

Section ToolRouteFacts.
Context (drv : Driver) (dbConfigs : list (string * DbConfig))
        (env : gmap string string) (now : string).
Context (SyntaxError : string -> JsError) (TypeError : JsError).

(** An error result is answered by the error handler, with status 500
    and the message of the result. *)
Lemma answer_error_result (req : Request) (msg : string) (st : State) :
  answer_tool_result now SyntaxError TypeError req (error_result msg) st
  = errorHandler now req (mkJsError msg (Some 500)) st.
Proof.
  unfold answer_tool_result, error_result. cbn [isError text].
  rewrite JSON_parse_stringify.
  - reflexivity.
  - apply wf_json_obj. split.
    + apply NoDup_singleton.
    + repeat constructor.
Qed.

(** A result without the error flag is parsed and sent with status
    200. *)
Lemma answer_success (req : Request) (v : json) (st : State) :
  wf_json v ->
  answer_tool_result now SyntaxError TypeError req
    (mkToolResult (JSON_stringify v) false) st
  = (Return (mkResponse 200 (BJson (normalize v))), st).
Proof.
  intros Hwf. unfold answer_tool_result. cbn [isError text].
  now rewrite JSON_parse_stringify.
Qed.

Lemma executeSql_error_shape (query : string) (dbKey : option string)
  (st st1 : State) (r : ToolResult) :
  executeSql drv dbConfigs env query dbKey st = (Return r, st1) ->
  isError r = true -> exists msg, r = error_result msg.
Proof.
  unfold executeSql, try_catch, bind. intros H E.
  destruct (validate _ st) as [[a|e] st0].
  - destruct (negb (isSafeQuery env (snd a))).
    + injection H as <- _. eauto.
    + destruct (getPool drv dbConfigs dbKey st0) as [[pool|e] st2].
      * unfold pool_query in H.
        destruct (drv_query drv _ _ _ _) as [m|res];
          cbv beta iota zeta delta [ret modify bind] in H;
          injection H as <- _; [eexists; reflexivity | discriminate E].
      * cbv beta iota zeta delta [ret modify bind] in H.
        injection H as <- _. eauto.
  - cbv beta iota zeta delta [ret modify bind] in H.
    injection H as <- _. eauto.
Qed.

Lemma getTableSchema_error_shape (table : string) (dbKey : option string)
  (st st1 : State) (r : ToolResult) :
  getTableSchema drv dbConfigs table dbKey st = (Return r, st1) ->
  isError r = true -> exists msg, r = error_result msg.
Proof.
  unfold getTableSchema, try_catch, bind. intros H E.
  destruct (validate _ st) as [[a|e] st0].
  - destruct (getPool drv dbConfigs dbKey st0) as [[pool|e] st2].
    + unfold pool_query in H.
      destruct (drv_query drv _ _ _ _) as [m|res];
        cbv beta iota zeta delta [ret modify bind] in H.
      * injection H as <- _. eauto.
      * destruct (recordset res) as [[|c cs]|];
          cbv beta iota zeta delta [ret modify bind throw] in H;
          injection H as <- _;
          first [discriminate E | eexists; reflexivity].
    + cbv beta iota zeta delta [ret modify bind] in H.
      injection H as <- _. eauto.
  - cbv beta iota zeta delta [ret modify bind] in H.
    injection H as <- _. eauto.
Qed.

End ToolRouteFacts.

(** X19: how the two POST routes answer what goes wrong, once the key
    the middleware checks is absent or valid.  Without [query] (or
    [table]) in the body the answer is 400 and the tool is not called.
    Whenever the tool itself reports a failure, be it a validation
    failure, a blocked query or a database error, the answer is status
    500 with the tool's message as [error]: the text of the result is
    parsed back and the message survives the round trip unchanged.  The
    routes add one console line and touch nothing else. *)
Theorem post_routes_answer_failures
  (drv : Driver) (dbConfigs : list (string * DbConfig))
  (env : gmap string string) (now : string)
  (SyntaxError : string -> JsError) (TypeError : JsError)
  (req : PostRequest) (st : State) :
  dbKey_ok (requested_dbKey (as_Request req)) = true ->
  let failure status msg :=
    mkResponse status
      (BJson (JObj [ ("error", JStr msg); ("path", JStr (post_path req));
                     ("timestamp", JStr now) ])) in
  let logged msg := console_error ("Error processing request: " +:+ msg) in
  let body := post_body req in
  match truthy (arg_query body) with
  | None =>
      POST_execute_sql drv dbConfigs env now SyntaxError TypeError req st
      = (Return (failure 400 "Parameter 'query' is required"),
         logged "Parameter 'query' is required" st)
  | Some query =>
      forall r st1,
        executeSql drv dbConfigs env query (arg_dbKey body) st = (Return r, st1) ->
        isError r = true ->
        exists msg,
          r = error_result msg
          /\ POST_execute_sql drv dbConfigs env now SyntaxError TypeError req st
             = (Return (failure 500 msg), logged msg st1)
  end
  /\ match truthy (arg_table body) with
     | None =>
         POST_get_table_schema drv dbConfigs now SyntaxError TypeError req st
         = (Return (failure 400 "Parameter 'table' is required"),
            logged "Parameter 'table' is required" st)
     | Some table =>
         forall r st1,
           getTableSchema drv dbConfigs table (arg_dbKey body) st = (Return r, st1) ->
           isError r = true ->
           exists msg,
             r = error_result msg
             /\ POST_get_table_schema drv dbConfigs now SyntaxError TypeError
                  req st
                = (Return (failure 500 msg), logged msg st1)
     end.
Proof.
  intros Hreq failure logged body.
  unfold POST_execute_sql, POST_get_table_schema.
  rewrite !(validateDbKey_passes now (as_Request req)) by exact Hreq.
  split.
  - unfold execute_sql_handler. fold body.
    destruct (truthy (arg_query body)) as [query|]; [|reflexivity].
    intros r st1 H E.
    destruct (executeSql_error_shape drv dbConfigs env query _ st st1 r H E)
      as (msg & ->).
    exists msg. split; [reflexivity|].
    unfold try_catch, bind. rewrite H.
    rewrite answer_error_result. reflexivity.
  - unfold get_table_schema_handler. fold body.
    destruct (truthy (arg_table body)) as [table|]; [|reflexivity].
    intros r st1 H E.
    destruct (getTableSchema_error_shape drv dbConfigs table _ st st1 r H E)
      as (msg & ->).
    exists msg. split; [reflexivity|].
    unfold try_catch, bind. rewrite H.
    rewrite answer_error_result. reflexivity.
Qed.

Lemma post_routes_answer_failures_witness :
  POST_execute_sql drv_up single_dbConfigs env_rw "T"
    (fun _ => Error "SyntaxError") (Error "TypeError")
    (mkPostRequest "/execute-sql" None (mkToolArgs None None (Some "maindb")))
    (initial_state single_dbConfigs)
  = (Return
       (mkResponse 400
          (BJson (JObj [ ("error", JStr "Parameter 'query' is required");
                         ("path", JStr "/execute-sql");
                         ("timestamp", JStr "T") ]))),
     console_error "Error processing request: Parameter 'query' is required"
       (initial_state single_dbConfigs)).
Proof.
  exact (proj1 (post_routes_answer_failures drv_up single_dbConfigs env_rw "T"
                  (fun _ => Error "SyntaxError") (Error "TypeError")
                  (mkPostRequest "/execute-sql" None
                     (mkToolArgs None None (Some "maindb")))
                  (initial_state single_dbConfigs) eq_refl)).
Defined.

(** A blocked query is answered with status 500 and reaches no
    database. *)
Example blocked_query_is_answered_500 :
  let run :=
    POST_execute_sql drv_up single_dbConfigs env_rw "T"
      (fun _ => Error "SyntaxError") (Error "TypeError")
      (mkPostRequest "/execute-sql" None
         (mkToolArgs (Some "DROP TABLE users") None None))
      (initial_state single_dbConfigs) in
  fst run
  = Return (mkResponse 500
              (BJson (JObj [ ("error", JStr blocked_message);
                             ("path", JStr "/execute-sql");
                             ("timestamp", JStr "T") ])))
  /\ trace (snd run) = [].
Proof. vm_compute. split; reflexivity. Qed.

Lemma wf_json_of_row (r : Row) : NoDup (Object_keys r) -> wf_json (json_of_row r).
Proof.
  intros H. unfold json_of_row. apply wf_json_obj. split.
  - unfold Object_keys in *. rewrite map_map. exact H.
  - apply Forall_forall. intros kv Hin. apply list_elem_of_In in Hin.
    apply in_map_iff in Hin as (cell & <- & _). cbn [snd].
    destruct (snd cell); exact I.
Qed.

Lemma wf_json_rows (rows : list Row) :
  Forall (fun r => NoDup (Object_keys r)) rows ->
  wf_json (JArr (map json_of_row rows)).
Proof.
  intros H. apply wf_json_arr. apply Forall_forall. intros v Hin.
  apply list_elem_of_In in Hin. apply in_map_iff in Hin as (r & <- & Hr).
  apply wf_json_of_row. rewrite Forall_forall in H. apply H.
  now apply list_elem_of_In.
Qed.

Lemma records_are_objects (rows : list Row) :
  forallb record_ok rows = true ->
  Forall (fun r => NoDup (Object_keys r)) rows.
Proof.
  intros H. apply Forall_forall. intros r Hin.
  apply list_elem_of_In in Hin. rewrite forallb_forall in H.
  specialize (H r Hin). unfold record_ok in H.
  apply andb_true_iff in H as [H _]. now apply own_keys_facts in H.
Qed.

(** X20: POST /execute-sql when the query runs.  The key the middleware
    checks and the key of the body are absent or valid, the query passes
    validation and the safety check, a pool is at hand and the driver
    answers with records whose columns are the own keys of an object and
    with numbers that are written with all their digits.  Then the route
    sends status 200 and, as JSON, the object with [message],
    [rowsAffected] and [recordset] that [executeSql] had serialised: the
    text is parsed back to the same value, without the members that are
    [undefined].  One statement has been sent to the driver, and nothing
    is logged. *)
Theorem POST_execute_sql_success
  (drv : Driver) (dbConfigs : list (string * DbConfig))
  (env : gmap string string) (now : string)
  (SyntaxError : string -> JsError) (TypeError : JsError)
  (req : PostRequest) (st st0 : State) (query : string) (pool : Pool)
  (result : QueryOk) :
  dbKey_ok (requested_dbKey (as_Request req)) = true ->
  truthy (arg_query (post_body req)) = Some query ->
  query_ok query = true -> dbKey_ok (arg_dbKey (post_body req)) = true ->
  isSafeQuery env query = true ->
  getPool drv dbConfigs (arg_dbKey (post_body req)) st = (Return pool, st0) ->
  drv_query drv (trace st0) pool query [] = inr result ->
  forallb record_ok (default [] (recordset result)) = true ->
  forallb safe_integer (rowsAffected result) = true ->
  POST_execute_sql drv dbConfigs env now SyntaxError TypeError req st
  = (Return
       (mkResponse 200
          (BJson
             (normalize
                (JObj [ ("message", JStr "Query executed successfully");
                        ("rowsAffected",
                         json_of_option JNum (head (rowsAffected result))
                           JUndefined);
                        ("recordset",
                         json_of_option (fun rs => JArr (map json_of_row rs))
                           (recordset result) JUndefined) ])))),
     emit (EvQuery (pool_id pool) query []) st0).
Proof.
  intros Hreq Hq Hok Hk Hs G Hd Hrows _.
  unfold POST_execute_sql.
  rewrite (validateDbKey_passes now (as_Request req) _ st Hreq).
  unfold execute_sql_handler. cbv zeta. rewrite Hq.
  unfold try_catch at 1. unfold bind at 1.
  assert (executeSql drv dbConfigs env query (arg_dbKey (post_body req)) st
          = (Return
               (mkToolResult
                  (JSON_stringify
                     (JObj [ ("message", JStr "Query executed successfully");
                             ("rowsAffected",
                              json_of_option JNum (head (rowsAffected result))
                                JUndefined);
                             ("recordset",
                              json_of_option (fun rs => JArr (map json_of_row rs))
                                (recordset result) JUndefined) ])) false),
             emit (EvQuery (pool_id pool) query []) st0)) as ->.
  { unfold executeSql, try_catch, bind.
    rewrite (validate_query_ok query _ st Hok Hk). cbn [snd].
    rewrite Hs. cbn [negb]. rewrite G. unfold pool_query. rewrite Hd.
    reflexivity. }
  rewrite answer_success; [reflexivity|].
  apply wf_json_obj. split.
  - apply NoDup_ListNoDup. repeat constructor; simpl; intuition discriminate.
  - repeat constructor; cbn [snd].
    + destruct (head (rowsAffected result)); exact I.
    + destruct (recordset result) as [rows|] eqn:R; [|exact I].
      cbn [json_of_option]. apply wf_json_rows.
      now apply records_are_objects.
Qed.

Lemma POST_execute_sql_success_witness :
  fst (POST_execute_sql drv_rows single_dbConfigs env_rw "T"
         (fun _ => Error "SyntaxError") (Error "TypeError")
         (mkPostRequest "/execute-sql" None
            (mkToolArgs (Some "SELECT * FROM notes") None None))
         (initial_state single_dbConfigs))
  = Return
      (mkResponse 200
         (BJson (JObj [ ("message", JStr "Query executed successfully");
                        ("rowsAffected", JNum 1);
                        ("recordset",
                         JArr [JObj [ ("id", JNum 1); ("note", JStr awkward);
                                      ("gone", JNull) ]]) ]))).
Proof.
  assert (exists pool st0,
             getPool drv_rows single_dbConfigs None (initial_state single_dbConfigs)
             = (Return pool, st0)
             /\ drv_query drv_rows (trace st0) pool "SELECT * FROM notes" []
                = inr (mkQueryOk
                         (Some [[("id", VNum 1); ("note", VStr awkward);
                                 ("gone", VNull)]])
                         [1%Z])) as (pool & st0 & G & Hd).
  { assert (match prop (prop_name None) single_dbConfigs with
            | Some c => Some c
            | None => head (Object_values single_dbConfigs)
            end = Some (sample_config "foo" "s3cret")) as Hc by reflexivity.
    rewrite (getPool_resolved drv_rows single_dbConfigs None
               (sample_config "foo" "s3cret") (initial_state single_dbConfigs) Hc).
    cbn. rewrite lookup_empty. do 2 eexists. split; reflexivity. }
  rewrite (POST_execute_sql_success drv_rows single_dbConfigs env_rw "T"
             (fun _ => Error "SyntaxError") (Error "TypeError")
             (mkPostRequest "/execute-sql" None
                (mkToolArgs (Some "SELECT * FROM notes") None None))
             (initial_state single_dbConfigs) st0 "SELECT * FROM notes" pool
             _ eq_refl eq_refl eq_refl eq_refl eq_refl G Hd eq_refl eq_refl).
  reflexivity.
Defined.

Lemma wf_json_map_values {A} (f : A -> json) (obj : list (string * A)) :
  NoDup (Object_keys obj) -> (forall a, wf_json (f a)) ->
  wf_json (JObj (map_values f obj)).
Proof.
  intros Hnd Hf. apply wf_json_obj. split.
  - unfold Object_keys, map_values in *. rewrite map_map. exact Hnd.
  - apply Forall_forall. intros kv Hin. apply list_elem_of_In in Hin.
    unfold map_values in Hin. apply in_map_iff in Hin as (x & <- & _).
    apply Hf.
Qed.

Ltac distinct_keys :=
  apply NoDup_ListNoDup; repeat constructor; simpl; intuition discriminate.

Lemma wf_sanitizedConfig (c : DbConfig) : wf_json (sanitizedConfig c).
Proof. unfold sanitizedConfig. simpl. repeat split; distinct_keys. Qed.

Lemma wf_json_of_status (s : ConnStatus) : wf_json (json_of_status s).
Proof.
  unfold json_of_status.
  destruct (lastConnected s), (lastError s); simpl; repeat split; distinct_keys.
Qed.

Lemma wf_databases_summary (dbConfigs : list (string * DbConfig))
  (statusInfo : list (string * ConnStatus)) :
  NoDup (Object_keys dbConfigs) -> NoDup (Object_keys statusInfo) ->
  wf_json (databases_summary dbConfigs statusInfo).
Proof.
  intros Hc Hs.
  unfold databases_summary. apply wf_json_obj. split.
  - distinct_keys.
  - constructor; [cbn [snd]|].
    { apply wf_json_arr. apply Forall_forall. intros v Hin.
      apply list_elem_of_In, in_map_iff in Hin as (k & <- & _). exact I. }
    constructor;
      [apply wf_json_map_values; [exact Hc | apply wf_sanitizedConfig]|].
    constructor;
      [apply wf_json_map_values; [exact Hs | apply wf_json_of_status]|].
    constructor; [exact I|].
    constructor; [|constructor].
    cbn [snd]. destruct (head (Object_keys dbConfigs)); exact I.
Qed.

(** X21: GET /databases, when the key the middleware checks is absent or
    valid, the configured keys and the keys of the status table are the
    own keys of an object and the ports are safe integers.  The route
    answers 200 with the summary of [listDatabases] read back from its
    text, for every such configuration and state; it sends nothing to
    the driver and changes nothing.  The summary is the one written,
    less the members that are [undefined]. *)
Theorem GET_databases_answers_the_summary
  (dbConfigs : list (string * DbConfig)) (now : string)
  (SyntaxError : string -> JsError) (TypeError : JsError)
  (req : Request) (st : State) :
  dbKey_ok (requested_dbKey req) = true ->
  own_keys (Object_keys dbConfigs) = true ->
  own_keys (Object_keys (connectionStatus st)) = true ->
  forallb (fun kc => safe_port (snd kc)) dbConfigs = true ->
  GET_databases dbConfigs now SyntaxError TypeError req st
  = (Return
       (mkResponse 200
          (BJson (normalize (databases_summary dbConfigs (connectionStatus st))))),
     st).
Proof.
  intros Hreq Hc Hs _. apply own_keys_facts in Hc as [Hc _], Hs as [Hs _].
  unfold GET_databases. rewrite (validateDbKey_passes now req _ st Hreq).
  unfold databases_handler, try_catch at 1. unfold bind at 1.
  change (listDatabases dbConfigs st)
    with (Return (mkToolResult
                    (JSON_stringify
                       (databases_summary dbConfigs (connectionStatus st)))
                    false), st).
  cbv beta iota.
  rewrite answer_success; [reflexivity|].
  now apply wf_databases_summary.
Qed.

Lemma GET_databases_answers_the_summary_witness :
  fst (GET_databases sample_dbConfigs "T"
         (fun _ => Error "SyntaxError") (Error "TypeError")
         (mkRequest "/databases" None None None)
         (initial_state sample_dbConfigs))
  = Return
      (mkResponse 200
         (BJson (normalize (databases_summary sample_dbConfigs
                              (initial_connectionStatus sample_dbConfigs))))).
Proof.
  rewrite (GET_databases_answers_the_summary sample_dbConfigs "T"
             (fun _ => Error "SyntaxError") (Error "TypeError")
             (mkRequest "/databases" None None None)
             (initial_state sample_dbConfigs) eq_refl eq_refl eq_refl eq_refl).
  reflexivity.
Defined.

(* ===================================================================== *)
(** * 37b. [listDatabases]: the summary and the passwords *)
(* ===================================================================== *)

Lemma sanitizedConfig_password (pw : string) (c : DbConfig) :
  sanitizedConfig (with_password pw c) = sanitizedConfig c.
Proof. reflexivity. Qed.

Lemma databases_summary_passwords (f : string -> DbConfig -> string)
  (dbConfigs : list (string * DbConfig)) (statusInfo : list (string * ConnStatus)) :
  databases_summary (replace_passwords f dbConfigs) statusInfo
  = databases_summary dbConfigs statusInfo.
Proof.
  unfold databases_summary, replace_passwords, Object_keys, map_values.
  rewrite !map_map. cbn [fst snd].
  assert (map (fun kv : string * DbConfig =>
                 (fst kv, sanitizedConfig (with_password (f (fst kv) (snd kv)) (snd kv))))
              dbConfigs
          = map (fun kv => (fst kv, sanitizedConfig (snd kv))) dbConfigs) as ->
    by (apply map_ext; intros [k c]; reflexivity).
  reflexivity.
Qed.

Lemma normalize_strings (keys : list string) :
  map normalize (map JStr keys) = map JStr keys.
Proof. rewrite map_map. reflexivity. Qed.

Lemma normalize_sanitized (dbConfigs : list (string * DbConfig)) :
  normalize (JObj (map_values sanitizedConfig dbConfigs))
  = JObj (map_values sanitizedConfig dbConfigs).
Proof.
  rewrite normalize_obj. f_equal. unfold map_values.
  induction dbConfigs as [|[k c] l IH]; [reflexivity|].
  cbn [map fst snd defined sanitizedConfig]. cbn [defined map fst snd] in IH.
  now rewrite IH.
Qed.

(** C7 fails as stated: the text of a password stands in the output when
    it is also another configured value.  With the user sa and the
    password sa, the output of [listDatabases] contains the password. *)
Lemma listDatabases_password_text_can_occur :
  let config := mkDbConfig "localhost" None "sa" "sa" "main" false true
                  30000 30000 10 0 30000 in
  password config = "sa"
  /\ exists text,
       fst (listDatabases [("maindb", config)]
              (initial_state [("maindb", config)]))
       = Return (mkToolResult text false)
       /\ includes (password config) text = true.
Proof.
  cbv zeta. split; [reflexivity|].
  eexists. split; [reflexivity|]. vm_compute. reflexivity.
Qed.

(** C7, amended: for a configuration table and a status table whose keys
    are the own keys of an object, given in the order [Object.keys]
    enumerates them, and ports that are safe integers, [listDatabases]
    returns, without touching the state, a text that
    - is the same when the passwords are replaced by any others, whatever
      else the state holds besides the status table;
    - reads back, as JSON, to a summary whose member availableDatabases
      is the list of the configured keys in that order, whose member
      count is their number, whose member defaultDatabase is the first
      of them (and is absent when there is none), and whose member
      configurations gives for every key the server, the port (1433 when
      none is configured), the database, the user and the two options,
      and no password. *)
Theorem listDatabases_summary_without_passwords
  (dbConfigs : list (string * DbConfig))
  (f : string -> DbConfig -> string) (st st2 : State) :
  own_keys (Object_keys dbConfigs) = true ->
  own_keys (Object_keys (connectionStatus st)) = true ->
  forallb (fun kc => safe_port (snd kc)) dbConfigs = true ->
  connectionStatus st2 = connectionStatus st ->
  exists (text : string) (summary : json),
    listDatabases dbConfigs st = (Return (mkToolResult text false), st)
    /\ listDatabases (replace_passwords f dbConfigs) st2
       = (Return (mkToolResult text false), st2)
    /\ JSON_parse text = Some summary
    /\ member "availableDatabases" summary
       = Some (JArr (map JStr (map fst dbConfigs)))
    /\ member "count" summary = Some (JNum (Z.of_nat (length dbConfigs)))
    /\ member "defaultDatabase" summary
       = match dbConfigs with
         | (k, _) :: _ => Some (JStr k)
         | [] => None
         end
    /\ member "configurations" summary
       = Some (JObj
                 (map (fun kc =>
                         (fst kc,
                          JObj [ ("server", JStr (server (snd kc)));
                                 ("port",
                                  JNum (match port (snd kc) with
                                        | Some 0%Z | None => 1433%Z
                                        | Some p => p
                                        end));
                                 ("database", JStr (database (snd kc)));
                                 ("user", JStr (user (snd kc)));
                                 ("options",
                                  JObj [ ("encrypt", JBool (encrypt (snd kc)));
                                         ("trustServerCertificate",
                                          JBool (trustServerCertificate (snd kc))) ]) ]))
                    dbConfigs)).
Proof.
  intros Hc Hs _ Hst. apply own_keys_facts in Hc as [Hc _], Hs as [Hs _].
  exists (JSON_stringify (databases_summary dbConfigs (connectionStatus st))),
         (normalize (databases_summary dbConfigs (connectionStatus st))).
  split; [reflexivity|]. split.
  { unfold listDatabases, try_catch, bind, getConnectionStatus, get, ret.
    now rewrite databases_summary_passwords, Hst. }
  split; [apply JSON_parse_stringify; now apply wf_databases_summary|].
  unfold databases_summary. rewrite normalize_obj.
  cbn [defined]. unfold Object_keys.
  destruct dbConfigs as [|[k c] l].
  - cbn. repeat split.
  - cbn [head map fst json_of_option defined snd member prop String.eqb
           Ascii.eqb Bool.eqb].
    change (JArr (JStr k :: map JStr (map fst l)))
      with (JArr (map JStr (map fst ((k, c) :: l)))).
    cbn [normalize]. fold normalize.
    rewrite (normalize_strings (map fst ((k, c) :: l))).
    split; [reflexivity|]. split.
    { cbn [length map]. now rewrite length_map. }
    split; [reflexivity|].
    change (JObj ((fix go (l0 : list (string * json)) : list (string * json) :=
                     match l0 with
                     | [] => []
                     | (k0, JUndefined) :: l' => go l'
                     | (k0, w) :: l' => (k0, normalize w) :: go l'
                     end) (map_values sanitizedConfig ((k, c) :: l))))
      with (normalize (JObj (map_values sanitizedConfig ((k, c) :: l)))).
    rewrite normalize_sanitized. reflexivity.
Qed.

Lemma listDatabases_summary_without_passwords_witness :
  exists summary,
    JSON_parse (text (match fst (listDatabases sample_dbConfigs
                                   (initial_state sample_dbConfigs)) with
                      | Return r => r
                      | Throw _ => mkToolResult "" true
                      end))
    = Some summary
    /\ member "availableDatabases" summary
       = Some (JArr [JStr "maindb"; JStr "reportingdb"])
    /\ member "count" summary = Some (JNum 2)
    /\ member "defaultDatabase" summary = Some (JStr "maindb").
Proof.
  destruct (listDatabases_summary_without_passwords sample_dbConfigs
              (fun _ _ => "") (initial_state sample_dbConfigs)
              (initial_state sample_dbConfigs) eq_refl eq_refl eq_refl eq_refl)
    as (txt & summary & E & _ & P & A & C & D & _).
  exists summary. rewrite E. cbn [fst text]. auto.
Defined.

(** The scenario of the specification: two keys, the first is the default. *)
Example listDatabases_two_keys :
  let summary :=
    databases_summary sample_dbConfigs
      (connectionStatus (initial_state sample_dbConfigs)) in
  member "availableDatabases" summary
  = Some (JArr [JStr "maindb"; JStr "reportingdb"])
  /\ member "defaultDatabase" summary = Some (JStr "maindb")
  /\ member "count" summary = Some (JNum 2)
  /\ includes "s3cret" (JSON_stringify summary) = false
  /\ includes "hunter2" (JSON_stringify summary) = false.
Proof. vm_compute. repeat split; reflexivity. Qed.

(** X22: POST /get-table-schema when the table has columns.  The key
    the middleware checks and the key of the body are absent or valid,
    the table name is valid, a pool is at hand and the driver answers at
    least one column, in records whose columns are the own keys of an
    object and whose numbers are written with all their digits.  Then
    the route sends status 200 and the object with the table name and the
    columns, read back from the text that [getTableSchema] had
    written. *)
Theorem POST_get_table_schema_success
  (drv : Driver) (dbConfigs : list (string * DbConfig))
  (now : string) (SyntaxError : string -> JsError) (TypeError : JsError)
  (req : PostRequest) (st st0 : State) (table : string) (pool : Pool)
  (column : Row) (columns : list Row) (affected : list Z) :
  dbKey_ok (requested_dbKey (as_Request req)) = true ->
  truthy (arg_table (post_body req)) = Some table ->
  table_ok table = true -> dbKey_ok (arg_dbKey (post_body req)) = true ->
  getPool drv dbConfigs (arg_dbKey (post_body req)) st = (Return pool, st0) ->
  drv_query drv (trace st0) pool schema_sql [("tableName", table)]
  = inr (mkQueryOk (Some (column :: columns)) affected) ->
  forallb record_ok (column :: columns) = true ->
  POST_get_table_schema drv dbConfigs now SyntaxError TypeError req st
  = (Return
       (mkResponse 200
          (BJson
             (normalize
                (JObj [ ("table", JStr table);
                        ("columns", JArr (map json_of_row (column :: columns))) ])))),
     emit (EvQuery (pool_id pool) schema_sql [("tableName", table)]) st0).
Proof.
  intros Hreq Ht Hok Hk G Hd Hrows.
  unfold POST_get_table_schema.
  rewrite (validateDbKey_passes now (as_Request req) _ st Hreq).
  unfold get_table_schema_handler. cbv zeta. rewrite Ht.
  unfold try_catch at 1. unfold bind at 1.
  assert (getTableSchema drv dbConfigs table (arg_dbKey (post_body req)) st
          = (Return
               (mkToolResult
                  (JSON_stringify
                     (JObj [ ("table", JStr table);
                             ("columns",
                              JArr (map json_of_row (column :: columns))) ]))
                  false),
             emit (EvQuery (pool_id pool) schema_sql [("tableName", table)]) st0))
    as ->.
  { unfold getTableSchema, try_catch, bind.
    rewrite (validate_table_ok table _ st Hok Hk). cbn [snd].
    rewrite G. unfold pool_query. rewrite Hd. reflexivity. }
  rewrite answer_success; [reflexivity|].
  apply wf_json_obj. split.
  - distinct_keys.
  - constructor; [exact I|]. constructor; [|constructor].
    cbn [snd]. apply wf_json_rows. now apply records_are_objects.
Qed.

Lemma POST_get_table_schema_success_witness :
  fst (POST_get_table_schema drv_rows single_dbConfigs "T"
         (fun _ => Error "SyntaxError") (Error "TypeError")
         (mkPostRequest "/get-table-schema" None
            (mkToolArgs None (Some "notes") None))
         (initial_state single_dbConfigs))
  = Return
      (mkResponse 200
         (BJson (JObj [ ("table", JStr "notes");
                        ("columns",
                         JArr [JObj [ ("id", JNum 1); ("note", JStr awkward);
                                      ("gone", JNull) ]]) ]))).
Proof.
  assert (exists pool st0,
             getPool drv_rows single_dbConfigs None (initial_state single_dbConfigs)
             = (Return pool, st0)
             /\ drv_query drv_rows (trace st0) pool schema_sql
                  [("tableName", "notes")]
                = inr (mkQueryOk
                         (Some [[("id", VNum 1); ("note", VStr awkward);
                                 ("gone", VNull)]])
                         [1%Z])) as (pool & st0 & G & Hd).
  { assert (match prop (prop_name None) single_dbConfigs with
            | Some c => Some c
            | None => head (Object_values single_dbConfigs)
            end = Some (sample_config "foo" "s3cret")) as Hc by reflexivity.
    rewrite (getPool_resolved drv_rows single_dbConfigs None
               (sample_config "foo" "s3cret") (initial_state single_dbConfigs) Hc).
    cbn. rewrite lookup_empty. do 2 eexists. split; reflexivity. }
  rewrite (POST_get_table_schema_success drv_rows single_dbConfigs "T"
             (fun _ => Error "SyntaxError") (Error "TypeError")
             (mkPostRequest "/get-table-schema" None
                (mkToolArgs None (Some "notes") None))
             (initial_state single_dbConfigs) st0 "notes" pool
             _ _ _ eq_refl eq_refl eq_refl eq_refl G Hd eq_refl).
  reflexivity.
Defined.

(* ===================================================================== *)
(** * 38. The default key and the first key *)
(* ===================================================================== *)



(* ===================================================================== *)
(** * 39. The resolver of the configuration module *)
(* ===================================================================== *)

Lemma toLowerChar_toUpperChar (c : ascii) :
  toLowerChar (toUpperChar c) = toLowerChar c.
Proof. destruct c as [[] [] [] [] [] [] [] []]; reflexivity. Qed.

Lemma toLowerCase_toUpperCase (s : string) :
  toLowerCase (toUpperCase s) = toLowerCase s.
Proof.
  induction s as [|c s IH]; simpl; [reflexivity|].
  now rewrite toLowerChar_toUpperChar, IH.
Qed.

Lemma truthy_case (k : string) :
  k <> "" ->
  truthy (Some k) = Some k
  /\ truthy (Some (toUpperCase k)) = Some (toUpperCase k)
  /\ truthy (Some (toLowerCase k)) = Some (toLowerCase k).
Proof. destruct k; [congruence | repeat split]. Qed.

(** X24: [getDbConfig] looks a key up in lower case.  For a key of ASCII
    characters whose lower-case form is not the name of a member every
    object inherits: the key resolves exactly when its lower-case form is
    configured, and then the same key in upper case or in lower case
    resolves to the same configuration; otherwise the error names the key
    as it was given and lists the configured keys.  ([getPool] compares
    the key as given.) *)
Theorem getDbConfig_ignores_case
  (dbConfigs : list (string * DbConfig)) (k : string) :
  k <> "" -> ascii_text k = true -> inherited (toLowerCase k) = false ->
  match prop (toLowerCase k) dbConfigs with
  | Some c =>
      getDbConfig dbConfigs (Some k) = Return (Some c)
      /\ getDbConfig dbConfigs (Some (toUpperCase k)) = Return (Some c)
      /\ getDbConfig dbConfigs (Some (toLowerCase k)) = Return (Some c)
  | None =>
      getDbConfig dbConfigs (Some k)
      = Throw (Error ("[config] Invalid dbKey '" +:+ k +:+ "'. Available: "
                      +:+ join ", " (Object_keys dbConfigs)))
  end.
Proof.
  intros Hk _ _. destruct (truthy_case k Hk) as (T1 & T2 & T3).
  unfold getDbConfig. rewrite T1, T2, T3. cbv zeta.
  rewrite toLowerCase_toUpperCase, toLowerCase_idem.
  destruct (prop (toLowerCase k) dbConfigs); [repeat split | reflexivity].
Qed.

Lemma getDbConfig_ignores_case_witness :
  getDbConfig sample_dbConfigs (Some "ReportingDB")
  = Return (Some (sample_config "reports" "hunter2"))
  /\ getDbConfig sample_dbConfigs (Some "REPORTINGDB")
     = Return (Some (sample_config "reports" "hunter2"))
  /\ getDbConfig sample_dbConfigs (Some "reportingdb")
     = Return (Some (sample_config "reports" "hunter2")).
Proof.
  apply (getDbConfig_ignores_case sample_dbConfigs "ReportingDB");
    [discriminate | reflexivity | reflexivity].
Defined.
